(** * multiprocessing_on_dill.connection: a shallow embedding

    Source: src/multiprocessing_on_dill/connection.py.

    The module is stateful Python over POSIX descriptors.  The embedding
    threads one explicit [world] through every call: the Python heap (the
    [Connection] and [Listener] objects, by reference, so that identity and
    in-place mutation are visible), the kernel's descriptor table, the byte
    channels behind pipes and sockets, and the choices that are not the
    program's (how many bytes a partial [read]/[write] moves, the bytes of
    [os.urandom], the readings of the clock).  A call ends in one of four
    ways: it returns, it raises, it waits on the kernel forever, or it
    leaves the model. *)

From Stdlib Require Import ZArith Lia List Strings.String Strings.Byte.
From stdpp Require Import gmap strings list fin_maps.

Local Open Scope Z_scope.

(** ** Python values *)

(** [bytes] objects. *)
Abbreviation bytes := (list byte).

(** A bytes literal. *)
Definition bs (s : string) : bytes := list_byte_of_string s.

(** The exceptions the module raises or lets through.  [OSError] carries
    its message; kernel failures are [OSError] with the errno text. *)
Inductive exn :=
| OSError (msg : string)
| EOFError
| ValueError (msg : string)
| TypeError (msg : string)
| KeyError (msg : string)
| AttributeError (msg : string)
| NameError (msg : string)
| StructError (msg : string)
| AssertionError (message : bytes)
| BufferTooShort (payload : bytes)
| AuthenticationError (msg : string)
| SerializationError (msg : string).

(** How a call ends. *)
Inductive outcome (A : Type) :=
| Ret (a : A)       (* normal return *)
| Raise (e : exn)   (* a Python exception propagates *)
| Block             (* the kernel never wakes the caller up *)
| Wrong.            (* outside the model: a reference to no object of the
                       expected class, or a loop bound of the model used up *)
Arguments Ret {A} a.
Arguments Raise {A} e.
Arguments Block {A}.
Arguments Wrong {A}.

(** ** The kernel *)

(** A byte channel: the bytes written and not yet read, and how many open
    descriptors can write to it and read from it. *)
Record chan := Chan { data : bytes; nwr : nat; nrd : nat }.

(** An open descriptor: the channel it reads from and the one it writes
    to.  A pipe end has one of them, a connected stream socket both. *)
Record fdesc := FDesc { rd : option nat; wr : option nat }.

(** Addresses as [address_type] tells them apart: a tuple, a [str], or a
    value of another type. *)
Inductive address :=
| TupleAddr (host : string) (port : Z)
| StrAddr (path : string)
| OtherAddr.

(** ** Python objects *)

Record conn := Conn {
  _handle : option Z;
  _readable : bool;
  _writable : bool
}.

Record SocketListener := MkSocketListener {
  _socket : Z;
  _address : address;
  _family : string;
  _last_accepted : option address
}.

Record Listener := MkListener {
  _listener : option SocketListener;
  _authkey : option bytes
}.

Inductive object :=
| ConnObj (c : conn)
| ListenerObj (l : Listener).

Abbreviation loc := nat (only parsing).

(** ** The world *)

Record world := World {
  heap : gmap nat object;            (* Python objects by reference *)
  fds : gmap nat fdesc;              (* open descriptors *)
  chans : gmap nat chan;             (* channels by number *)
  backlog : gmap nat (list (fdesc * address));
                                     (* listening sockets: connections the
                                        kernel completed, not yet accepted *)
  servers : address -> option fdesc; (* what connect() to an address gets *)
  sched : list nat;                  (* sizes of the coming partial transfers *)
  entropy : nat -> byte;             (* the bytes os.urandom will give *)
  epos : nat;                        (* how many of them are used *)
  now : Z;                           (* the clock, in its own unit *)
  ticks : list Z;                    (* time between the coming clock readings *)
  released : list Z                  (* descriptors os.close released, latest first *)
}.

Definition set_heap (h : gmap nat object) (w : world) : world :=
  World h (fds w) (chans w) (backlog w) (servers w) (sched w) (entropy w)
        (epos w) (now w) (ticks w) (released w).
Definition set_fds (f : gmap nat fdesc) (w : world) : world :=
  World (heap w) f (chans w) (backlog w) (servers w) (sched w) (entropy w)
        (epos w) (now w) (ticks w) (released w).
Definition set_chans (c : gmap nat chan) (w : world) : world :=
  World (heap w) (fds w) c (backlog w) (servers w) (sched w) (entropy w)
        (epos w) (now w) (ticks w) (released w).
Definition set_backlog (q : gmap nat (list (fdesc * address))) (w : world) : world :=
  World (heap w) (fds w) (chans w) q (servers w) (sched w) (entropy w)
        (epos w) (now w) (ticks w) (released w).
Definition set_sched (s : list nat) (w : world) : world :=
  World (heap w) (fds w) (chans w) (backlog w) (servers w) s (entropy w)
        (epos w) (now w) (ticks w) (released w).
Definition set_epos (n : nat) (w : world) : world :=
  World (heap w) (fds w) (chans w) (backlog w) (servers w) (sched w) (entropy w)
        n (now w) (ticks w) (released w).
Definition set_clock (t : Z) (k : list Z) (w : world) : world :=
  World (heap w) (fds w) (chans w) (backlog w) (servers w) (sched w) (entropy w)
        (epos w) t k (released w).
Definition set_released (r : list Z) (w : world) : world :=
  World (heap w) (fds w) (chans w) (backlog w) (servers w) (sched w) (entropy w)
        (epos w) (now w) (ticks w) r.

(** ** Computations *)

Definition M (A : Type) : Type := world -> outcome A * world.

Definition ret {A} (a : A) : M A := fun w => (Ret a, w).
Definition raise {A} (e : exn) : M A := fun w => (Raise e, w).
Definition block {A} : M A := fun w => (Block, w).
Definition wrong {A} : M A := fun w => (Wrong, w).

Definition bind {A B} (m : M A) (k : A -> M B) : M B := fun w =>
  match m w with
  | (Ret a, w') => k a w'
  | (Raise e, w') => (Raise e, w')
  | (Block, w') => (Block, w')
  | (Wrong, w') => (Wrong, w')
  end.

Notation "'let!' x ':=' m 'in' k" := (bind m (fun x => k))
  (at level 10, x pattern, m at level 100, k at level 200).
Notation "m '>>' k" := (bind m (fun _ => k))
  (at level 90, right associativity).

(** [try: body finally: fin]: [fin] runs however [body] ends (a call that
    never returns apart); the outcome is [body]'s unless [fin] does not
    return. *)
Definition try_finally {A} (body : M A) (fin : M unit) : M A := fun w =>
  match body w with
  | (Block, w') => (Block, w')
  | (Wrong, w') => (Wrong, w')
  | (r, w') =>
      match fin w' with
      | (Ret _, w'') => (r, w'')
      | (Raise e, w'') => (Raise e, w'')
      | (Block, w'') => (Block, w'')
      | (Wrong, w'') => (Wrong, w'')
      end
  end.

Definition get_world : M world := fun w => (Ret w, w).
Definition modify (f : world -> world) : M unit := fun w => (Ret tt, f w).

(** ** System calls *)

Definition EBADF : exn := OSError "Bad file descriptor".
Definition EPIPE : exn := OSError "Broken pipe".
Definition EINVAL : exn := OSError "Invalid argument".
Definition ECONNREFUSED : exn := OSError "Connection refused".

Definition lookup_fd (w : world) (fd : Z) : option fdesc :=
  if fd <? 0 then None else fds w !! Z.to_nat fd.

(** The size of a transfer of at most [avail] bytes: the kernel moves at
    least one byte when there is one to move, and as many as its schedule
    says otherwise. *)
Definition pick (s : list nat) (avail : nat) : nat :=
  match s with
  | [] => avail
  | k :: _ => Nat.min avail (Nat.max 1 k)
  end.

Definition chan_push (q : chan) (x : bytes) : chan :=
  Chan (data q ++ x) (nwr q) (nrd q).
Definition chan_pop (q : chan) (k : nat) : chan :=
  Chan (drop k (data q)) (nwr q) (nrd q).

(** [os.write(fd, buf)] on a blocking descriptor. *)
Definition os_write (fd : Z) (buf : bytes) : M Z := fun w =>
  match lookup_fd w fd with
  | None => (Raise EBADF, w)
  | Some d =>
      match wr d with
      | None => (Raise EBADF, w)
      | Some ch =>
          match chans w !! ch with
          | None => (Raise EBADF, w)
          | Some q =>
              if (nrd q =? 0)%nat then (Raise EPIPE, w)
              else
                let n := pick (sched w) (length buf) in
                (Ret (Z.of_nat n),
                 set_sched (tl (sched w))
                   (set_chans (<[ch := chan_push q (take n buf)]> (chans w)) w))
          end
      end
  end.

(** [os.read(fd, n)] on a blocking descriptor: some of the queued bytes,
    nothing at end of file (no byte queued and no writer left), and no
    return while the channel is empty and a writer is left.  The reset a
    socket reports in place of end of file when its peer was closed with
    unread input is not modelled; see [nothing_unread]. *)
Definition os_read (fd : Z) (n : Z) : M bytes := fun w =>
  if n <? 0 then (Raise EINVAL, w) else
  match lookup_fd w fd with
  | None => (Raise EBADF, w)
  | Some d =>
      match rd d with
      | None => (Raise EBADF, w)
      | Some ch =>
          match chans w !! ch with
          | None => (Raise EBADF, w)
          | Some q =>
              if n =? 0 then (Ret [], w)
              else
                match data q with
                | [] => if (nwr q =? 0)%nat then (Ret [], w) else (Block, w)
                | _ =>
                    let k := pick (sched w) (Nat.min (Z.to_nat n) (length (data q))) in
                    (Ret (take k (data q)),
                     set_sched (tl (sched w))
                       (set_chans (<[ch := chan_pop q k]> (chans w)) w))
                end
          end
      end
  end.

Definition drop_writer (q : chan) : chan := Chan (data q) (Nat.pred (nwr q)) (nrd q).
Definition drop_reader (q : chan) : chan := Chan (data q) (nwr q) (Nat.pred (nrd q)).

Definition detach_end (f : chan -> chan) (o : option nat) (c : gmap nat chan) : gmap nat chan :=
  match o with
  | None => c
  | Some ch => alter f ch c
  end.

(** [os.close(fd)]: the descriptor leaves the table and its channels lose
    an end. *)
Definition os_close (fd : Z) : M unit := fun w =>
  match lookup_fd w fd with
  | None => (Raise EBADF, w)
  | Some d =>
      (Ret tt,
       set_released (fd :: released w)
         (set_chans (detach_end drop_writer (wr d) (detach_end drop_reader (rd d) (chans w)))
            (set_fds (delete (Z.to_nat fd) (fds w)) w)))
  end.

(** A descriptor no open file uses (POSIX takes the lowest). *)
Definition free_fd (w : world) : nat := fresh (dom (fds w)).
Definition free_chan (w : world) : nat := fresh (dom (chans w)).

(** [os.pipe()]: a new one-way channel; the pair is (read end, write end). *)
Definition os_pipe : M (Z * Z) := fun w =>
  let ch := free_chan w in
  let r := free_fd w in
  let w1 := set_chans (<[ch := Chan [] 1 1]> (chans w))
              (set_fds (<[r := FDesc (Some ch) None]> (fds w)) w) in
  let s := free_fd w1 in
  (Ret (Z.of_nat r, Z.of_nat s),
   set_fds (<[s := FDesc None (Some ch)]> (fds w1)) w1).

(** [socket.socketpair()] followed by [detach()] on both sockets: two
    descriptors joined by one channel in each direction. *)
Definition socketpair : M (Z * Z) := fun w =>
  let c12 := free_chan w in
  let w0 := set_chans (<[c12 := Chan [] 1 1]> (chans w)) w in
  let c21 := free_chan w0 in
  let s1 := free_fd w0 in
  let w1 := set_chans (<[c21 := Chan [] 1 1]> (chans w0))
              (set_fds (<[s1 := FDesc (Some c21) (Some c12)]> (fds w0)) w0) in
  let s2 := free_fd w1 in
  (Ret (Z.of_nat s1, Z.of_nat s2),
   set_fds (<[s2 := FDesc (Some c12) (Some c21)]> (fds w1)) w1).

(** [os.urandom(n)]. *)
Definition os_urandom (n : nat) : M bytes := fun w =>
  (Ret (map (entropy w) (seq (epos w) n)), set_epos (epos w + n)%nat w).

(** [time.time()]: the clock never runs backwards, and moves by at least
    one unit per reading once the recorded readings are used up. *)
Definition time_time : M Z := fun w =>
  match ticks w with
  | [] => let t := now w + 1 in (Ret t, set_clock t [] w)
  | d :: k => let t := now w + Z.max 0 d in (Ret t, set_clock t k w)
  end.

Definition lift {A} (r : exn + A) : M A :=
  match r with
  | inl e => raise e
  | inr a => ret a
  end.

(** ** struct *)

Definition byte_of_Z (z : Z) : byte :=
  match Byte.of_N (Z.to_N (Z.land z 255)) with
  | Some x => x
  | None => x00
  end.
Definition Z_of_byte (x : byte) : Z := Z.of_N (Byte.to_N x).

(** [struct.pack("!i", n)]: four bytes, most significant first, two's
    complement; a number that is no signed 32-bit integer is refused. *)
Definition struct_pack_i (n : Z) : exn + bytes :=
  if (n <? -2147483648) || (2147483647 <? n)
  then inl (StructError "'i' format requires -2147483648 <= number <= 2147483647")
  else inr [byte_of_Z (Z.shiftr n 24); byte_of_Z (Z.shiftr n 16);
            byte_of_Z (Z.shiftr n 8); byte_of_Z n].

(** [struct.unpack("!i", s)]. *)
Definition struct_unpack_i (s : bytes) : exn + Z :=
  match s with
  | [b0; b1; b2; b3] =>
      let u := Z.lor (Z.lor (Z.shiftl (Z_of_byte b0) 24) (Z.shiftl (Z_of_byte b1) 16))
                     (Z.lor (Z.shiftl (Z_of_byte b2) 8) (Z_of_byte b3)) in
      inr (if u <? 2147483648 then u else u - 4294967296)
  | _ => inl (StructError "unpack requires a buffer of 4 bytes")
  end.

(** Equality of bytes is decidable (Python's [==] on [bytes]). *)
#[global] Instance byte_eq_dec : EqDecision byte.
Proof.
  intros x y. destruct (Byte.eqb x y) eqn:E.
  - left. by apply byte_dec_bl.
  - right. by apply eqb_false.
Defined.

(** ** Buffers *)

(** What [memoryview(buf)] sees of a bytes-like object: the size of an
    item and the underlying bytes.  A [bytes] or [bytearray] has items of
    one byte. *)
Record buffer := Buffer { itemsize : Z; contents : bytes }.

Definition of_bytes (x : bytes) : buffer := Buffer 1 x.

(** [len(m)], in items. *)
Definition mv_len (m : buffer) : Z := Z.of_nat (length (contents m)) / itemsize m.

(** A bound of a slice, as Python clamps it to [0 .. len]. *)
Definition clamp (len i : Z) : Z :=
  if i <? 0 then Z.max 0 (len + i) else Z.min i len.

(** [m[lo:hi]] as a window on the underlying bytes: where it starts and
    how many bytes it spans. *)
Definition mv_window (m : buffer) (lo hi : Z) : nat * nat :=
  let lo' := clamp (mv_len m) lo in
  let hi' := clamp (mv_len m) hi in
  (Z.to_nat (lo' * itemsize m), Z.to_nat (Z.max 0 (hi' - lo') * itemsize m)).

(** The bytes of [m[lo:hi]]. *)
Definition mv_slice (m : buffer) (lo hi : Z) : bytes :=
  let '(start, span) := mv_window m lo hi in
  take span (drop start (contents m)).

(** [io.BytesIO.readinto(m[lo:hi])] with the stream at position 0: as
    many bytes of [src] as the window holds are copied to its start. *)
Definition readinto (src : bytes) (m : buffer) (lo hi : Z) : buffer :=
  let '(start, span) := mv_window m lo hi in
  let k := Nat.min (length src) span in
  Buffer (itemsize m)
         (take start (contents m) ++ take k src ++ drop (start + k) (contents m)).

(** ** Connection classes *)

Section Connections.

(** The serializer ([_ForkingPickler.dumps] and [loads]), the keyed digest
    ([hmac.new(key, msg, 'md5').digest()]) and whether the platform's
    [socket] module has [AF_UNIX] are not the module's own. *)
Variable Obj : Type.
Variable dumps : Obj -> exn + bytes.
Variable loads : bytes -> exn + Obj.
Variable hmac_md5 : bytes -> bytes -> bytes.
Variable has_AF_UNIX : bool.

Definition get_conn (self : loc) : M conn := fun w =>
  match heap w !! self with
  | Some (ConnObj c) => (Ret c, w)
  | _ => (Wrong, w)
  end.

Definition put_conn (self : loc) (c : conn) : M unit :=
  modify (fun w => set_heap (<[self := ConnObj c]> (heap w)) w).

Definition new_object (o : object) : M loc := fun w =>
  let l := fresh (dom (heap w)) in
  (Ret l, set_heap (<[l := o]> (heap w)) w).

(** [_ConnectionBase.__init__]. *)
Definition Connection (handle : Z) (readable writable : bool) : M loc :=
  if handle <? 0 then raise (ValueError "invalid handle")
  else if negb readable && negb writable
  then raise (ValueError "at least one of `readable` and `writable` must be True")
  else new_object (ConnObj (Conn (Some handle) readable writable)).

(** [Connection._close]: [os.close(self._handle)]. *)
Definition _close (self : loc) : M unit :=
  let! c := get_conn self in
  match _handle c with
  | None => raise (TypeError "an integer is required (got type NoneType)")
  | Some h => os_close h
  end.

Definition __del__ (self : loc) : M unit :=
  let! c := get_conn self in
  match _handle c with
  | Some _ => _close self
  | None => ret tt
  end.

Definition _check_closed (self : loc) : M unit :=
  let! c := get_conn self in
  match _handle c with
  | None => raise (OSError "handle is closed")
  | Some _ => ret tt
  end.

Definition _check_readable (self : loc) : M unit :=
  let! c := get_conn self in
  if negb (_readable c) then raise (OSError "connection is write-only") else ret tt.

Definition _check_writable (self : loc) : M unit :=
  let! c := get_conn self in
  if negb (_writable c) then raise (OSError "connection is read-only") else ret tt.

Definition set_handle (self : loc) (h : option Z) : M unit :=
  let! c := get_conn self in
  put_conn self (Conn h (_readable c) (_writable c)).

Definition set_readable (self : loc) (r : bool) : M unit :=
  let! c := get_conn self in
  put_conn self (Conn (_handle c) r (_writable c)).

Definition close (self : loc) : M unit :=
  let! c := get_conn self in
  match _handle c with
  | Some _ => try_finally (_close self) (set_handle self None)
  | None => ret tt
  end.

(** Never returns: the [A] is whatever the caller would have got. *)
Definition _bad_message_length {A} (self : loc) : M A :=
  let! c := get_conn self in
  (if _writable c then set_readable self false else close self) >>
  raise (OSError "bad message length").

(** The properties [closed], [readable], [writable]. *)
Definition closed (self : loc) : M bool :=
  let! c := get_conn self in
  ret (match _handle c with None => true | Some _ => false end).
Definition readable (self : loc) : M bool :=
  let! c := get_conn self in ret (_readable c).
Definition writable (self : loc) : M bool :=
  let! c := get_conn self in ret (_writable c).

(** [fileno]: after [_check_closed] the handle is an integer. *)
Definition fileno (self : loc) : M Z :=
  _check_closed self >>
  let! c := get_conn self in
  match _handle c with
  | Some h => ret h
  | None => wrong
  end.

(** [os.write]/[os.read] on [self._handle]; [None] is no descriptor. *)
Definition _write (h : option Z) (buf : bytes) : M Z :=
  match h with
  | Some fd => os_write fd buf
  | None => raise (TypeError "an integer is required (got type NoneType)")
  end.
Definition _read (h : option Z) (n : Z) : M bytes :=
  match h with
  | Some fd => os_read fd n
  | None => raise (TypeError "an integer is required (got type NoneType)")
  end.

(** [Connection._send]: the [while True] loop, one turn per [write].  The
    bound [fuel] is never reached from [_send] (see [_send_ok]). *)
Fixpoint _send_loop (fuel : nat) (self : loc) (buf : bytes) (remaining : Z) : M unit :=
  match fuel with
  | O => wrong
  | S fuel' =>
      let! c := get_conn self in
      let! n := _write (_handle c) buf in
      let remaining := remaining - n in
      if remaining =? 0 then ret tt
      else _send_loop fuel' self (drop (Z.to_nat n) buf) remaining
  end.

Definition _send (self : loc) (buf : bytes) : M unit :=
  _send_loop (S (length buf)) self buf (Z.of_nat (length buf)).

(** [Connection._recv]: the [while remaining > 0] loop; the [BytesIO] it
    fills is the bytes written to it, its position their number. *)
Fixpoint _recv_loop (fuel : nat) (handle : option Z) (size : Z)
         (buf : bytes) (remaining : Z) : M bytes :=
  if remaining >? 0 then
    match fuel with
    | O => wrong
    | S fuel' =>
        let! chunk := _read handle remaining in
        let n := Z.of_nat (length chunk) in
        if n =? 0 then
          if remaining =? size then raise EOFError
          else raise (OSError "got end of file during message")
        else _recv_loop fuel' handle size (buf ++ chunk) (remaining - n)
    end
  else ret buf.

Definition _recv (self : loc) (size : Z) : M bytes :=
  let! c := get_conn self in
  _recv_loop (Z.to_nat size) (_handle c) size [] size.

Definition _send_bytes (self : loc) (buf : bytes) : M unit :=
  let n := Z.of_nat (length buf) in
  let! header := lift (struct_pack_i n) in
  if n >? 16384 then
    _send self header >> _send self buf
  else
    _send self (header ++ buf).

(** [None] for "too long", else the [BytesIO] read. *)
Definition _recv_bytes (self : loc) (maxsize : option Z) : M (option bytes) :=
  let! buf := _recv self 4 in
  let! size := lift (struct_unpack_i buf) in
  if match maxsize with Some m => size >? m | None => false end
  then ret None
  else let! r := _recv self size in ret (Some r).

Definition send_bytes (self : loc) (buf : buffer) (offset : Z) (size : option Z) : M unit :=
  _check_closed self >>
  _check_writable self >>
  let m := buf in
  (* byte-indexing of non-bytewise buffers *)
  let m := if itemsize m >? 1 then of_bytes (contents m) else m in
  let n := mv_len m in
  if offset <? 0 then raise (ValueError "offset is negative")
  else if n <? offset then raise (ValueError "buffer length < offset")
  else
    match size with
    | None =>
        let size := n - offset in
        _send_bytes self (mv_slice m offset (offset + size))
    | Some size =>
        if size <? 0 then raise (ValueError "size is negative")
        else if offset + size >? n then raise (ValueError "buffer length < offset + size")
        else _send_bytes self (mv_slice m offset (offset + size))
    end.

Definition send (self : loc) (obj : Obj) : M unit :=
  _check_closed self >>
  _check_writable self >>
  let! s := lift (dumps obj) in
  _send_bytes self s.

Definition recv_bytes (self : loc) (maxlength : option Z) : M bytes :=
  _check_closed self >>
  _check_readable self >>
  if match maxlength with Some m => m <? 0 | None => false end
  then raise (ValueError "negative maxlength")
  else
    let! buf := _recv_bytes self maxlength in
    match buf with
    | None => _bad_message_length self
    | Some v => ret v
    end.

(** The destination is mutated in place by the last statement only; the
    model returns it beside the size. *)
Definition recv_bytes_into (self : loc) (buf : buffer) (offset : Z) : M (Z * buffer) :=
  _check_closed self >>
  _check_readable self >>
  let m := buf in
  let itemsize := itemsize m in
  let bytesize := itemsize * mv_len m in
  if offset <? 0 then raise (ValueError "negative offset")
  else if offset >? bytesize then raise (ValueError "offset too large")
  else
    let! result := _recv_bytes self None in
    match result with
    | None => wrong (* no maxsize was given *)
    | Some result =>
        let size := Z.of_nat (length result) in
        if bytesize <? offset + size then raise (BufferTooShort result)
        else
          ret (size, readinto result m (offset / itemsize) ((offset + size) / itemsize))
    end.

Definition recv (self : loc) : M Obj :=
  _check_closed self >>
  _check_readable self >>
  let! buf := _recv_bytes self None in
  match buf with
  | None => wrong (* no maxsize was given *)
  | Some v => lift (loads v)
  end.

(** ** Wait *)

(** [selectors.PollSelector], as far as [wait] uses it: the registered
    (descriptor, object) pairs in the order of registration. *)
Definition selector := list (Z * loc).

(** [selector.register(obj, EVENT_READ)]: the descriptor is [obj.fileno()],
    and a descriptor is registered once. *)
Definition register (sel : selector) (obj : loc) : M selector :=
  let! fd := fileno obj in
  if existsb (fun k => fst k =? fd) sel
  then raise (KeyError "already registered")
  else ret (sel ++ [(fd, obj)]).

(** What [poll] reports as an event the selector maps to [EVENT_READ]:
    bytes to read or end of file on the read side, a read side lost for a
    descriptor that only writes, and a descriptor that is not open. *)
Definition fd_ready (w : world) (fd : Z) : bool :=
  match lookup_fd w fd with
  | None => true
  | Some d =>
      match rd d with
      | Some ch =>
          match chans w !! ch with
          | Some q =>
              match data q with
              | [] => (nwr q =? 0)%nat
              | _ => true
              end
          | None => true
          end
      | None =>
          match wr d with
          | Some ch =>
              match chans w !! ch with
              | Some q => (nrd q =? 0)%nat
              | None => true
              end
          | None => true
          end
      end
  end.

(** [selector.select(timeout)]: the ready keys at once when there are
    some; else nothing after the timeout has passed, at once for a
    timeout that is not positive, never for none. *)
Definition select (sel : selector) (timeout : option Z) : M (list (Z * loc)) := fun w =>
  match List.filter (fun k => fd_ready w (fst k)) sel with
  | k :: r => (Ret (k :: r), w)
  | [] =>
      match timeout with
      | None => (Block, w)
      | Some t =>
          if t <=? 0 then (Ret [], w)
          else (Ret [], set_clock (now w + t) (ticks w) w)
      end
  end.

Fixpoint register_all (sel : selector) (object_list : list loc) : M selector :=
  match object_list with
  | [] => ret sel
  | obj :: rest => let! sel' := register sel obj in register_all sel' rest
  end.

(** The [while True] loop of [wait]; [deadline] is read only under a
    timeout, and [return ready] returns the empty list. *)
Fixpoint wait_loop (fuel : nat) (sel : selector) (timeout : option Z) (deadline : Z)
  : M (list loc) :=
  match fuel with
  | O => wrong
  | S fuel' =>
      let! ready := select sel timeout in
      match ready with
      | _ :: _ => ret (map snd ready)
      | [] =>
          match timeout with
          | Some _ =>
              let! t := time_time in
              let timeout := deadline - t in
              if timeout <? 0 then ret (map snd ready)
              else wait_loop fuel' sel (Some timeout) deadline
          | None => wait_loop fuel' sel None deadline
          end
      end
  end.

(** [wait]: timeouts and the deadline are in the unit of the clock.  With
    nothing ready the loop turns once more for each reading at which the
    clock has not moved, so the bound below is never reached. *)
Definition wait (object_list : list loc) (timeout : option Z) : M (list loc) :=
  let! sel := register_all [] object_list in
  let! deadline :=
    match timeout with
    | Some t => let! t0 := time_time in ret (t0 + t)
    | None => ret 0
    end in
  let! w := get_world in
  wait_loop (S (S (length (ticks w)))) sel timeout deadline.

Definition _poll (self : loc) (timeout : option Z) : M bool :=
  let! r := wait [self] timeout in
  ret (match r with [] => false | _ => true end).

Definition poll (self : loc) (timeout : option Z) : M bool :=
  _check_closed self >>
  _check_readable self >>
  _poll self timeout.

(** ** Authentication *)

Definition MESSAGE_LENGTH : nat := 20.
Definition CHALLENGE : bytes := bs "#CHALLENGE#".
Definition WELCOME : bytes := bs "#WELCOME#".
Definition FAILURE : bytes := bs "#FAILURE#".

Definition bytes_eqb (x y : bytes) : bool := bool_decide (x = y).

(** [authkey] is a [bytes] by its type, so the [isinstance] test passes. *)
Definition deliver_challenge (connection : loc) (authkey : bytes) : M unit :=
  let! message := os_urandom MESSAGE_LENGTH in
  send_bytes connection (of_bytes (CHALLENGE ++ message)) 0 None >>
  let digest := hmac_md5 authkey message in
  let! response := recv_bytes connection (Some 256) in
  if bytes_eqb response digest then
    send_bytes connection (of_bytes WELCOME) 0 None
  else
    send_bytes connection (of_bytes FAILURE) 0 None >>
    raise (AuthenticationError "digest received was wrong").

Definition answer_challenge (connection : loc) (authkey : bytes) : M unit :=
  let! message := recv_bytes connection (Some 256) in
  if negb (bytes_eqb (take (length CHALLENGE) message) CHALLENGE)
  then raise (AssertionError message)
  else
    let message := drop (length CHALLENGE) message in
    let digest := hmac_md5 authkey message in
    send_bytes connection (of_bytes digest) 0 None >>
    let! response := recv_bytes connection (Some 256) in
    if negb (bytes_eqb response WELCOME)
    then raise (AuthenticationError "digest sent was rejected")
    else ret tt.

(** ** Listener, Client, Pipe *)

Definition get_listener (self : loc) : M Listener := fun w =>
  match heap w !! self with
  | Some (ListenerObj l) => (Ret l, w)
  | _ => (Wrong, w)
  end.

(** [socket.accept()] then [setblocking(True)] and [detach()]: the
    descriptor of the next completed connection and the peer's address. *)
Definition sock_accept (fd : Z) : M (Z * address) := fun w =>
  if fd <? 0 then (Raise EBADF, w) else
  match backlog w !! Z.to_nat fd with
  | None => (Raise EBADF, w)
  | Some [] => (Block, w)
  | Some ((d, peer) :: q) =>
      let s := free_fd w in
      (Ret (Z.of_nat s, peer),
       set_backlog (<[Z.to_nat fd := q]> (backlog w))
         (set_fds (<[s := d]> (fds w)) w))
  end.

(** [SocketListener.accept], on the listener object [self] holds. *)
Definition SocketListener_accept (self : loc) : M loc :=
  let! l := get_listener self in
  match _listener l with
  | None => wrong
  | Some sl =>
      let! (s, peer) := sock_accept (_socket sl) in
      modify (fun w =>
        set_heap (<[self := ListenerObj
                      (MkListener
                         (Some (MkSocketListener (_socket sl) (_address sl)
                                                 (_family sl) (Some peer)))
                         (_authkey l))]> (heap w)) w) >>
      Connection s true true
  end.

(** Truth value of [self._authkey]: [None] and [b''] are false. *)
Definition truthy (k : option bytes) : bool :=
  match k with
  | Some (_ :: _) => true
  | _ => false
  end.

Definition Listener_accept (self : loc) : M loc :=
  let! l := get_listener self in
  match _listener l with
  | None => raise (OSError "listener is closed")
  | Some _ =>
      let! c := SocketListener_accept self in
      let! l := get_listener self in
      (if truthy (_authkey l) then
         match _authkey l with
         | Some key => deliver_challenge c key >> answer_challenge c key
         | None => wrong
         end
       else ret tt) >>
      ret c
  end.

Definition address_type (a : address) : exn + string :=
  match a with
  | TupleAddr _ _ => inr "AF_INET"%string
  | StrAddr s =>
      if String.prefix "\\" s then inr "AF_PIPE"%string else inr "AF_UNIX"%string
  | OtherAddr => inl (ValueError "address type unrecognized")
  end.

Definition _validate_family (family : string) : M unit :=
  if String.eqb family "AF_PIPE" then raise (ValueError "Family AF_PIPE is not recognized.")
  else if String.eqb family "AF_UNIX" && negb has_AF_UNIX
  then raise (ValueError "Family AF_UNIX is not recognized.")
  else ret tt.

(** [socket.socket(...)], [connect(address)] and [detach()]. *)
Definition sock_connect (a : address) : M Z := fun w =>
  match servers w a with
  | None => (Raise ECONNREFUSED, w)
  | Some d =>
      let s := free_fd w in
      (Ret (Z.of_nat s), set_fds (<[s := d]> (fds w)) w)
  end.

Definition SocketClient (a : address) : M loc :=
  let! family := lift (address_type a) in
  if String.eqb family "AF_INET" || (String.eqb family "AF_UNIX" && has_AF_UNIX) then
    let! s := sock_connect a in
    Connection s true true
  else raise (AttributeError "module 'socket' has no such attribute").

(** The module does not define [PipeClient]. *)
Definition PipeClient (a : address) : M loc :=
  raise (NameError "name 'PipeClient' is not defined").

(** [family or address_type(address)]: [None] and [''] are false. *)
Definition Client (a : address) (family : option string) (authkey : option bytes) : M loc :=
  let! family :=
    match family with
    | Some (String c f) => ret (String c f)
    | _ => lift (address_type a)
    end in
  _validate_family family >>
  let! c := if String.eqb family "AF_PIPE" then PipeClient a else SocketClient a in
  match authkey with
  | Some key => answer_challenge c key >> deliver_challenge c key
  | None => ret tt
  end >>
  ret c.

Definition Pipe (duplex : bool) : M (loc * loc) :=
  if duplex then
    let! (s1, s2) := socketpair in
    let! c1 := Connection s1 true true in
    let! c2 := Connection s2 true true in
    ret (c1, c2)
  else
    let! (fd1, fd2) := os_pipe in
    let! c1 := Connection fd1 true false in
    let! c2 := Connection fd2 false true in
    ret (c1, c2).

End Connections.

(** ** Listener: the properties [address] and [last_accepted] *)

(** [self._listener._address] and [self._listener._last_accepted]; a
    closed listener holds [None], which has no such attributes. *)
Definition Listener_address (self : loc) : M address :=
  let! l := get_listener self in
  match _listener l with
  | None => raise (AttributeError "'NoneType' object has no attribute '_address'")
  | Some sl => ret (_address sl)
  end.

Definition Listener_last_accepted (self : loc) : M (option address) :=
  let! l := get_listener self in
  match _listener l with
  | None => raise (AttributeError "'NoneType' object has no attribute '_last_accepted'")
  | Some sl => ret (_last_accepted sl)
  end.

(** ** ConnectionWrapper *)

(** A connection with a serializer of the caller; [fileno], [close],
    [poll], [recv_bytes] and [send_bytes] are those of the connection. *)
Record ConnectionWrapper (Obj : Type) := MkConnectionWrapper {
  _conn : loc;
  _dumps : Obj -> exn + bytes;
  _loads : bytes -> exn + Obj
}.
Arguments MkConnectionWrapper {Obj} _ _ _.
Arguments _conn {Obj} _.
Arguments _dumps {Obj} _ _.
Arguments _loads {Obj} _ _.

Definition ConnectionWrapper_send {Obj} (self : ConnectionWrapper Obj) (obj : Obj) : M unit :=
  let! s := lift (_dumps self obj) in
  send_bytes (_conn self) (of_bytes s) 0 None.

Definition ConnectionWrapper_recv {Obj} (self : ConnectionWrapper Obj) : M Obj :=
  let! s := recv_bytes (_conn self) None in
  lift (_loads self s).

(** * reduction.py *)

Module reduction.

(** ** ForkingPickler *)

(** The reduce functions the module registers, and any other callable. *)
Inductive reducer :=
| _reduce_method
| _reduce_method_descriptor
| _reduce_partial
| _reduce_socket
| callable (name : string).

(** Types are keys by identity; they are named here.  [copyreg] is
    [copyreg.dispatch_table], which the class attribute
    [_copyreg_dispatch_table] is another name of; [_extra_reducers] is
    the one dict of the class; every pickler has a [dispatch_table] of
    its own. *)
Record state := State {
  copyreg : gmap string reducer;
  _extra_reducers : gmap string reducer;
  picklers : list (gmap string reducer)
}.

(** [ForkingPickler.__init__]: a copy of the table of [copyreg], updated
    with the extra reducers.  The result names the new pickler. *)
Definition ForkingPickler (st : state) : nat * state :=
  let dispatch_table := _extra_reducers st ∪ copyreg st in
  (length (picklers st),
   State (copyreg st) (_extra_reducers st) (picklers st ++ [dispatch_table])).

(** [ForkingPickler.register], which is the module's [register]. *)
Definition register (type : string) (reduce : reducer) (st : state) : state :=
  State (copyreg st) (<[type := reduce]> (_extra_reducers st)) (picklers st).

(** The entry of a pickler's own table for a type:
    [self.dispatch_table.get(type)].  The pickler class looks in its
    [dispatch] and at the built-in cases before it looks here, so an
    entry is what the table holds, not what pickling a value of the
    type calls. *)
Definition dispatch_table_get (st : state) (pickler : nat) (type : string) : option reducer :=
  match picklers st !! pickler with
  | Some dispatch_table => dispatch_table !! type
  | None => None
  end.

(** The types of [_C().f], [list.append] and [int.__add__]. *)
Definition MethodType : string := "method".
Definition MethodDescriptorType : string := "method_descriptor".
Definition WrapperDescriptorType : string := "wrapper_descriptor".
Definition partial : string := "functools.partial".
Definition socket : string := "socket.socket".

(** [AbstractReducer.__init__]; the module runs the same five calls when
    it is imported. *)
Definition AbstractReducer (st : state) : state :=
  register socket _reduce_socket
    (register partial _reduce_partial
       (register WrapperDescriptorType _reduce_method_descriptor
          (register MethodDescriptorType _reduce_method_descriptor
             (register MethodType _reduce_method st)))).

(** ** Descriptors over a socket *)

(** [RuntimeError_items n] is [RuntimeError('received %d items of
    ancdata' % n)]; [AssertionError n b] is the one whose message names
    the length [n] and the byte [b]. *)
Inductive exn :=
| EOFError
| OverflowError
| RuntimeError (msg : string)
| RuntimeError_items (n : nat)
| AssertionError (len_a : nat) (msg0 : byte).

(** An item of ancillary data. *)
Record cmsg := Cmsg { cmsg_level : Z; cmsg_type : Z; cmsg_data : bytes }.

Definition SOL_SOCKET : Z := 1.
Definition SCM_RIGHTS : Z := 1.

(** [array.array('i')]: items of four bytes in the byte order of the
    machine, [little] endian or not. *)
Definition itemsize : nat := 4.

Definition in_int (n : Z) : bool := (-2147483648 <=? n) && (n <=? 2147483647).

(** [array.array('i', fds)]. *)
Definition array_i (fds : list Z) : exn + list Z :=
  if forallb in_int fds then inr fds else inl OverflowError.

Definition item_bytes (little : bool) (n : Z) : bytes :=
  match struct_pack_i n with
  | inr h => if little then rev h else h
  | inl _ => []
  end.

(** The buffer of an array. *)
Definition tobytes (little : bool) (a : list Z) : bytes :=
  concat (map (item_bytes little) a).

Definition item_of_bytes (little : bool) (b0 b1 b2 b3 : byte) : Z :=
  match struct_unpack_i (if little then [b3; b2; b1; b0] else [b0; b1; b2; b3]) with
  | inr n => n
  | inl _ => 0
  end.

(** [a.frombytes(s)] on an empty array, for [s] of whole items. *)
Fixpoint frombytes (little : bool) (s : bytes) : list Z :=
  match s with
  | b0 :: b1 :: b2 :: b3 :: rest => item_of_bytes little b0 b1 b2 b3 :: frombytes little rest
  | _ => []
  end.

(** [sendfds(sock, fds)]: what it hands to [sock.sendmsg], if it gets
    there, and how it ends.  [ack] is what [sock.recv(1)] returns, which
    is asked for only where receipt is acknowledged. *)
Definition sendfds (ACKNOWLEDGE little : bool) (fds : list Z) (ack : bytes)
  : option (bytes * list cmsg) * (exn + unit) :=
  match array_i fds with
  | inl e => (None, inl e)
  | inr a =>
      let msg := [byte_of_Z (Z.of_nat (length a) mod 256)] in
      let sent := (msg, [Cmsg SOL_SOCKET SCM_RIGHTS (tobytes little a)]) in
      if ACKNOWLEDGE && negb (bool_decide (ack = ["A"%byte]))
      then (Some sent, inl (RuntimeError "did not receive acknowledgement of fd"))
      else (Some sent, inr tt)
  end.

(** [recvfds(sock, size)], given what [sock.recvmsg] returned: the bytes
    it sends to acknowledge, and how it ends.  The handler of
    [ValueError] and [IndexError] falls through to the last [raise]. *)
Definition recvfds (ACKNOWLEDGE little : bool) (received : bytes * list cmsg)
  : bytes * (exn + list Z) :=
  let '(msg, ancdata) := received in
  match msg, ancdata with
  | [], [] => ([], inl EOFError)
  | _, _ =>
      (if ACKNOWLEDGE then ["A"%byte] else [],
       match ancdata with
       | [c] =>
           if (cmsg_level c =? SOL_SOCKET) && (cmsg_type c =? SCM_RIGHTS) then
             if negb (length (cmsg_data c) mod itemsize =? 0)%nat
             then inl (RuntimeError "Invalid data received")
             else
               let a := frombytes little (cmsg_data c) in
               match msg with
               | [] => inl (RuntimeError "Invalid data received")
               | msg0 :: _ =>
                   if negb (Z.of_nat (length a) mod 256 =? Z_of_byte msg0)
                   then inl (AssertionError (length a) msg0)
                   else inr a
               end
           else inl (RuntimeError "Invalid data received")
       | _ => inl (RuntimeError_items (length ancdata))
       end)
  end.

End reduction.

(** * Vocabulary of the properties *)

(** Definitions the statements below use: readings of the wire, views of
    the world, and the sample worlds of the witnesses. *)

(** Closed facts about sample worlds, by evaluation. *)
Ltac by_evaluation :=
  cbv zeta; hnf;
  repeat match goal with |- _ /\ _ => split end;
  vm_compute; reflexivity.

(** The value of four bytes read as a big-endian unsigned 32-bit number. *)
Definition be_uint32 (h : bytes) : option Z :=
  match h with
  | [b0; b1; b2; b3] =>
      Some (Z_of_byte b0 * 16777216 + Z_of_byte b1 * 65536 + Z_of_byte b2 * 256 + Z_of_byte b3)
  | _ => None
  end.

(** The object [self] is the connection [c], open on descriptor [h],
    which the kernel knows as [d]. *)
Definition open_on (w : world) (self : loc) (c : conn) (h : Z) (d : fdesc) : Prop :=
  heap w !! self = Some (ConnObj c) /\ _handle c = Some h /\ lookup_fd w h = Some d.

(** The wire form of a payload: the packed length, then the payload. *)
Definition frame (payload : bytes) : bytes :=
  match struct_pack_i (Z.of_nat (length payload)) with
  | inr header => header ++ payload
  | inl _ => []
  end.

(** The world after some transfers on channel [ch]: its queue holds [x]
    now, and the schedule of partial transfers has moved on to [s]. *)
Definition moved (w : world) (ch : nat) (q : chan) (x : bytes) (s : list nat) : world :=
  set_sched s (set_chans (<[ch := Chan x (nwr q) (nrd q)]> (chans w)) w).

(** A declared size that [maxsize] lets through. *)
Definition fits (maxsize : option Z) (size : Z) : Prop :=
  match maxsize with
  | Some m => size <= m
  | None => True
  end.

(** Nothing open, a schedule of short transfers, a clock that stands
    still for two readings. *)
Definition w_init : world :=
  World ∅ ∅ ∅ ∅ (fun _ => None) [3; 1; 2]%nat (fun _ => "A"%byte) 0 0 [0; 0] [].

(** After [Pipe(duplex=False)]: object 0 on descriptor 0, object 1 on
    descriptor 1, channel 0 between them. *)
Definition w_pipe : world := snd (Pipe false w_init).

(** Two gibibytes of zeros. *)
Definition two_gib : bytes := repeat "000"%byte (Z.to_nat 2147483648).

(** The peer wrote [x] on the pipe of [w_pipe] and closed its end. *)
Definition w_cut (x : bytes) : world :=
  snd ((_send 1%nat x >> close 1%nat) w_pipe).

(** The duplex pair of [w_init], and a five-byte frame sent from its
    second connection to its first; the same on the one-way pipe. *)
Definition w_pair : world := snd (Pipe true w_init).
Definition w_pair_hello : world := snd (_send_bytes 1%nat (bs "hello") w_pair).
Definition w_pipe_hello : world := snd (_send_bytes 1%nat (bs "hello") w_pipe).

(** The pipe of [w_pipe] with an empty frame on it. *)
Definition w_pipe_empty : world := snd (_send_bytes 1%nat [] w_pipe).

(** The descriptor a connection object holds, if it is open. *)
Definition handle_of (w : world) (l : loc) : option Z :=
  match heap w !! l with
  | Some (ConnObj c) => _handle c
  | _ => None
  end.

(** An open connection is ready when its descriptor is. *)
Definition conn_ready (w : world) (l : loc) : bool :=
  match handle_of w l with
  | Some h => fd_ready w h
  | None => false
  end.

(** The selector key of an open connection. *)
Definition key_of (w : world) (l : loc) : Z * loc :=
  (match handle_of w l with Some h => h | None => 0 end, l).

(** Worlds that differ by the clock at most. *)
Definition same_io (w w' : world) : Prop :=
  heap w' = heap w /\ fds w' = fds w /\ chans w' = chans w /\ released w' = released w.

(** The pair of [w_pair_hello] after its second connection was closed. *)
Definition w_pair_closed : world := snd (close 1%nat w_pair_hello).

(** A connection that reads channel [ci], whose queue is [qi], and writes
    channel [co], whose queue is [qo] and still has a reader. *)
Definition duplex (w : world) (self : loc) (h : Z) (ci co : nat) (qi qo : chan) : Prop :=
  open_on w self (Conn (Some h) true true) h (FDesc (Some ci) (Some co)) /\
  ci <> co /\ chans w !! ci = Some qi /\ chans w !! co = Some qo /\ nrd qo <> 0%nat.

(** Worlds with the same objects, descriptors and sources of chance. *)
Definition same_objects (w w' : world) : Prop :=
  heap w' = heap w /\ fds w' = fds w /\ released w' = released w /\
  backlog w' = backlog w /\ entropy w' = entropy w.

(** What [accept] finds: the object [lst] is a listener on an open
    socket with key [ak], and the kernel holds a completed connection
    [d] for it. *)
Definition listening (w : world) (lst : loc) (ak : option bytes) (d : fdesc) : Prop :=
  exists sl peer pend,
    heap w !! lst = Some (ListenerObj (MkListener (Some sl) ak)) /\
    0 <= _socket sl /\
    backlog w !! Z.to_nat (_socket sl) = Some ((d, peer) :: pend).

(** The new connection object [c] on the new descriptor [fd], and
    nothing released. *)
Definition accepted (w w1 : world) (c : loc) (fd : nat) (d : fdesc) : Prop :=
  heap w !! c = None /\ fds w !! fd = None /\
  heap w1 !! c = Some (ConnObj (Conn (Some (Z.of_nat fd)) true true)) /\
  fds w1 !! fd = Some d /\
  chans w1 = chans w /\ released w1 = released w /\
  entropy w1 = entropy w /\ epos w1 = epos w.

(** The bytes queued on a channel. *)
Definition queue (w : world) (ch : nat) : option bytes :=
  option_map data (chans w !! ch).

(** A stand-in for the keyed digest, sixteen bytes long. *)
Definition toy_mac (k m : bytes) : bytes := take 16 (k ++ m ++ repeat x00 16).

(** A key, the nonce the entropy of the sample worlds gives, and a nonce
    of the peer. *)
Definition key0 : bytes := bs "secret".
Definition nonce0 : bytes := repeat "A"%byte 20.
Definition peer_nonce : bytes := bs "0123456789abcdefghij".

(** A listener (object 0) on socket 3 with key [ak]; the kernel holds a
    completed connection that reads channel 0, where the peer's messages
    [inq] wait, and writes channel 1.  A connect to a (host, port)
    address gets the same two channels. *)
Definition w_listen (ak : option bytes) (inq : bytes) : world :=
  World {[0%nat := ListenerObj
                     (MkListener
                        (Some (MkSocketListener 3 (StrAddr "/tmp/listener-0") "AF_UNIX" None))
                        ak)]}
        {[3%nat := FDesc None None]}
        (<[0%nat := Chan inq 1 1]> {[1%nat := Chan [] 1 1]})
        {[3%nat := [(FDesc (Some 0%nat) (Some 1%nat), StrAddr "@peer")]]}
        (fun a => match a with
                  | TupleAddr _ _ => Some (FDesc (Some 0%nat) (Some 1%nat))
                  | _ => None
                  end)
        [2; 5]%nat (fun _ => "A"%byte) 0 0 [] [].

(** What a peer with the same key sends to an accepting listener, and to
    a connecting client. *)
Definition peer_of_accept : bytes :=
  frame (toy_mac key0 nonce0) ++ frame (CHALLENGE ++ peer_nonce) ++ frame WELCOME.
Definition peer_of_client : bytes :=
  frame (CHALLENGE ++ peer_nonce) ++ frame WELCOME ++ frame (toy_mac key0 nonce0).

(** A peer that sends the right digest and then rejects the one it gets. *)
Definition peer_rejecting : bytes :=
  frame (toy_mac key0 nonce0) ++ frame (CHALLENGE ++ peer_nonce) ++ frame FAILURE.

(** The connection object [c], new since [w], still holds the new
    descriptor [fd] in [w'], the kernel still has it open, and nothing
    was released. *)
Definition left_open (w w' : world) (c : loc) (fd : nat) : Prop :=
  heap w !! c = None /\ fds w !! fd = None /\
  heap w' !! c = Some (ConnObj (Conn (Some (Z.of_nat fd)) true true)) /\
  is_Some (fds w' !! fd) /\
  released w' = released w /\
  closed c w' = (Ret false, w').

(** What a peer with another key sends: sixteen bytes that are not the
    digest. *)
Definition peer_wrong : bytes := frame (bs "not-the-digest!!").

(** What a peer with the empty key sends to an accepting listener, and to
    a connecting client. *)
Definition peer_of_accept_empty : bytes :=
  frame (toy_mac [] nonce0) ++ frame (CHALLENGE ++ peer_nonce) ++ frame WELCOME.
Definition peer_of_client_empty : bytes :=
  frame (CHALLENGE ++ peer_nonce) ++ frame WELCOME ++ frame (toy_mac [] nonce0).

(** ** Lifetimes *)

(** A connection that can do something. *)
Definition capable (c : conn) : Prop := _readable c || _writable c = true.

(** How a connection object may differ from what it was: it writes as
    before; it reads as before, or no more if it writes; its handle is
    the same, or cleared. *)
Definition evolves (c c' : conn) : Prop :=
  _writable c' = _writable c /\
  (_readable c' = _readable c \/ (_readable c' = false /\ _writable c = true)) /\
  (_handle c' = _handle c \/ _handle c' = None).

(** How the heap of [w'] may differ from the heap of [w]: connections
    have evolved, no object is gone, and a connection that was not there
    is capable. *)
Definition evolved (w w' : world) : Prop :=
  (forall l c, heap w !! l = Some (ConnObj c) ->
               exists c', heap w' !! l = Some (ConnObj c') /\ evolves c c') /\
  (forall l o, heap w !! l = Some o -> is_Some (heap w' !! l)) /\
  (forall l c', heap w' !! l = Some (ConnObj c') ->
                (exists c, heap w !! l = Some (ConnObj c)) \/
                (heap w !! l = None /\ capable c')).

(** Worlds with the same objects, the same open descriptors and the same
    released ones. *)
Definition quiet (w w' : world) : Prop :=
  heap w' = heap w /\ fds w' = fds w /\ released w' = released w.

(** Worlds with the same objects. *)
Definition same_heap (w w' : world) : Prop := heap w' = heap w.

(** Worlds whose listener objects are those of [w], as they were. *)
Definition listeners_kept (w w' : world) : Prop :=
  forall l x, heap w !! l = Some (ListenerObj x) -> heap w' !! l = Some (ListenerObj x).

(** A computation whose final world is always related to its first. *)
Definition keeps (R : world -> world -> Prop) {A} (m : M A) : Prop :=
  forall w, R w (snd (m w)).

(** The calls a program can make on connections. *)
Inductive call (Obj : Type) :=
| CallConnection (handle : Z) (readable writable : bool)
| CallPipe (duplex : bool)
| CallClose (self : loc)
| CallDel (self : loc)
| CallFileno (self : loc)
| CallSendBytes (self : loc) (buf : buffer) (offset : Z) (size : option Z)
| CallSend (self : loc) (obj : Obj)
| CallRecvBytes (self : loc) (maxlength : option Z)
| CallRecvBytesInto (self : loc) (buf : buffer) (offset : Z)
| CallRecv (self : loc)
| CallPoll (self : loc) (timeout : option Z)
| CallWait (object_list : list loc) (timeout : option Z)
| CallDeliverChallenge (connection : loc) (authkey : bytes)
| CallAnswerChallenge (connection : loc) (authkey : bytes)
| CallAccept (listener : loc)
| CallClient (a : address) (family : option string) (authkey : option bytes).

Section Calls.

Variable Obj : Type.
Variable dumps : Obj -> exn + bytes.
Variable loads : bytes -> exn + Obj.
Variable hmac_md5 : bytes -> bytes -> bytes.
Variable has_AF_UNIX : bool.

(** The world after a call, however the call ended. *)
Definition after (c : call Obj) (w : world) : world :=
  match c with
  | CallConnection _ h r wr => snd (Connection h r wr w)
  | CallPipe _ duplex => snd (Pipe duplex w)
  | CallClose _ self => snd (close self w)
  | CallDel _ self => snd (__del__ self w)
  | CallFileno _ self => snd (fileno self w)
  | CallSendBytes _ self buf offset size => snd (send_bytes self buf offset size w)
  | CallSend _ self obj => snd (send Obj dumps self obj w)
  | CallRecvBytes _ self maxlength => snd (recv_bytes self maxlength w)
  | CallRecvBytesInto _ self buf offset => snd (recv_bytes_into self buf offset w)
  | CallRecv _ self => snd (recv Obj loads self w)
  | CallPoll _ self timeout => snd (poll self timeout w)
  | CallWait _ objs timeout => snd (wait objs timeout w)
  | CallDeliverChallenge _ c key => snd (deliver_challenge hmac_md5 c key w)
  | CallAnswerChallenge _ c key => snd (answer_challenge hmac_md5 c key w)
  | CallAccept _ lst => snd (Listener_accept hmac_md5 lst w)
  | CallClient _ a family key => snd (Client hmac_md5 has_AF_UNIX a family key w)
  end.

(** The world after a sequence of calls. *)
Definition after_all (cs : list (call Obj)) (w : world) : world :=
  fold_left (fun w c => after c w) cs w.

(** Calls that are neither a constructor, nor [close], nor a receive
    with a maximum length (which the handshake uses). *)
Definition plain (c : call Obj) : bool :=
  match c with
  | CallFileno _ _ | CallSendBytes _ _ _ _ _ | CallSend _ _ _
  | CallRecvBytes _ _ None | CallRecvBytesInto _ _ _ _ | CallRecv _ _
  | CallPoll _ _ _ | CallWait _ _ _ => true
  | _ => false
  end.

End Calls.

Arguments plain {Obj} c.

(** Nothing is left unread on the channel [o], if there is one: for the
    channel a descriptor writes, its peer has read all it was sent; for
    the channel a descriptor reads, it has read all it was sent itself.
    The read end of a pipe writes no channel, and its write end reads
    none.  A socket that is closed with unread input makes the kernel
    answer its peer's read on the emptied stream with a reset where a
    pipe, or a socket closed with nothing unread, reports end of file;
    [os_read] reports end of file only, so the statements that conclude
    end of file on a closed stream ask for this. *)
Definition nothing_unread (w : world) (o : option nat) : Prop :=
  match o with
  | None => True
  | Some ch => exists q, chans w !! ch = Some q /\ data q = []
  end.

(** The second connection of the duplex pair of [w_pair] wrote [x] and
    was closed; the first had sent it nothing. *)
Definition w_pair_cut (x : bytes) : world :=
  snd ((_send 1%nat x >> close 1%nat) w_pair).

(** A serializer of byte strings that leaves them as they are. *)
Definition id_dumps (x : bytes) : exn + bytes := inr x.
Definition id_loads (x : bytes) : exn + bytes := inr x.

(** [send_bytes] for each byte string of a list, and [recv_bytes] so many
    times. *)
Fixpoint send_each (self : loc) (ps : list bytes) : M unit :=
  match ps with
  | [] => ret tt
  | p :: ps' => send_bytes self (of_bytes p) 0 None >> send_each self ps'
  end.
Fixpoint recv_each (self : loc) (n : nat) : M (list bytes) :=
  match n with
  | O => ret []
  | S n' =>
      let! p := recv_bytes self None in
      let! r := recv_each self n' in
      ret (p :: r)
  end.

(** [family or address_type(address)]: the family [Client] validates. *)
Definition family_of (a : address) (family : option string) : exn + string :=
  match family with
  | Some (String c f) => inr (String c f)
  | _ => address_type a
  end.

(** A family argument that is taken as given and passes
    [_validate_family]. *)
Definition passes (has_AF_UNIX : bool) (f : string) : Prop :=
  f <> EmptyString /\ f <> "AF_PIPE"%string /\
  (f = "AF_UNIX"%string -> has_AF_UNIX = true).

(** A listener that challenges a client and rejects its digest; one that
    opens with a message that is no challenge. *)
Definition peer_rejecting_client : bytes :=
  frame (CHALLENGE ++ peer_nonce) ++ frame FAILURE.
Definition peer_unexpected : bytes := frame (bs "hello") ++ frame WELCOME.

(** A client connected without a key (object 1 on descriptor 4) to a
    listener that sends [peer_unexpected]. *)
Definition w_client_unexpected : world :=
  snd (Client toy_mac true (TupleAddr "localhost" 6000) None None
         (w_listen None peer_unexpected)).

(** * Properties *)

(** ** Records and the monad *)

Lemma world_eta w :
  World (heap w) (fds w) (chans w) (backlog w) (servers w) (sched w) (entropy w)
        (epos w) (now w) (ticks w) (released w) = w.
Proof. by destruct w. Qed.

Lemma chan_eta q : Chan (data q) (nwr q) (nrd q) = q.
Proof. by destruct q. Qed.

Lemma bind_ret_eq {A B} (m : M A) (k : A -> M B) w a w' :
  m w = (Ret a, w') -> bind m k w = k a w'.
Proof. intros H. unfold bind. by rewrite H. Qed.

Lemma bind_raise_eq {A B} (m : M A) (k : A -> M B) w e w' :
  m w = (Raise e, w') -> bind m k w = (Raise e, w').
Proof. intros H. unfold bind. by rewrite H. Qed.

Lemma bind_ret_l {A B} (a : A) (k : A -> M B) w : bind (ret a) k w = k a w.
Proof. reflexivity. Qed.

Lemma get_conn_eq w self c :
  heap w !! self = Some (ConnObj c) -> get_conn self w = (Ret c, w).
Proof. intros H. unfold get_conn. by rewrite H. Qed.

(** ** struct *)

Lemma Z_of_byte_of_Z z : Z_of_byte (byte_of_Z z) = Z.land z 255.
Proof.
  unfold Z_of_byte, byte_of_Z.
  assert (Hr : 0 <= Z.land z 255 < 256).
  { change 255 with (Z.ones 8). rewrite Z.land_ones by lia.
    apply Z.mod_pos_bound. lia. }
  destruct (Byte.of_N (Z.to_N (Z.land z 255))) as [y|] eqn:E.
  - apply Byte.to_of_N in E. rewrite E. lia.
  - apply Byte.of_N_None_iff in E. lia.
Qed.

Lemma testbit_255 j : Z.testbit 255 j = (0 <=? j) && (j <? 8).
Proof.
  destruct (Z.ltb_spec j 0).
  - rewrite Z.testbit_neg_r by lia. destruct (Z.leb_spec 0 j); [lia | done].
  - change 255 with (Z.ones 8).
    destruct (Z.ltb_spec j 8).
    + rewrite Z.ones_spec_low by lia. destruct (Z.leb_spec 0 j); [done | lia].
    + rewrite Z.ones_spec_high by lia. by rewrite andb_false_r.
Qed.

(** Four bytes cut out of a 32-bit number put it together again. *)
Lemma be_join_split n :
  0 <= n < 4294967296 ->
  Z.lor (Z.lor (Z.shiftl (Z.land (Z.shiftr n 24) 255) 24)
               (Z.shiftl (Z.land (Z.shiftr n 16) 255) 16))
        (Z.lor (Z.shiftl (Z.land (Z.shiftr n 8) 255) 8) (Z.land n 255)) = n.
Proof.
  intros Hn. apply Z.bits_inj'. intros i Hi.
  rewrite !Z.lor_spec. rewrite !Z.shiftl_spec by lia.
  rewrite !Z.land_spec, !testbit_255.
  assert (Hhi : 32 <= i -> Z.testbit n i = false).
  { intros. destruct (Z.eq_dec n 0) as [->|]; [apply Z.bits_0|].
    apply Z.bits_above_log2; [lia|].
    assert (Z.log2 n < 32); [|lia].
    apply Z.log2_lt_pow2; [lia|]. change (2 ^ 32) with 4294967296. lia. }
  repeat match goal with
         | |- context [?a <=? ?c] => destruct (Z.leb_spec a c)
         | |- context [?a <? ?c] => destruct (Z.ltb_spec a c)
         end; try lia; simpl;
  rewrite ?andb_true_r, ?andb_false_r, ?orb_false_r, ?orb_false_l;
  rewrite ?Z.shiftr_spec by lia;
  try (f_equal; lia).
  symmetry. apply Hhi. lia.
Qed.

Lemma land_255_mod z : Z.land z 255 = z mod 256.
Proof. change 255 with (Z.ones 8). by rewrite Z.land_ones by lia. Qed.

(** Packing a length that fits: four bytes that both [unpack] and the
    unsigned reading give back. *)
Lemma struct_pack_unpack n :
  0 <= n <= 2147483647 ->
  exists h, struct_pack_i n = inr h /\ length h = 4%nat /\
            struct_unpack_i h = inr n /\ be_uint32 h = Some n.
Proof.
  intros Hn. unfold struct_pack_i.
  destruct (Z.ltb_spec n (-2147483648)); [lia|].
  destruct (Z.ltb_spec 2147483647 n); [lia|]. simpl.
  eexists. split; [reflexivity|]. split; [reflexivity|]. split.
  - unfold struct_unpack_i. rewrite !Z_of_byte_of_Z.
    rewrite be_join_split by lia.
    destruct (Z.ltb_spec n 2147483648); [done | lia].
  - unfold be_uint32. rewrite !Z_of_byte_of_Z, !land_255_mod.
    rewrite !Z.shiftr_div_pow2 by lia.
    change (2 ^ 24) with 16777216. change (2 ^ 16) with 65536. change (2 ^ 8) with 256.
    f_equal.
    pose proof (Z.div_mod n 256 ltac:(lia)).
    pose proof (Z.div_mod (n / 256) 256 ltac:(lia)).
    pose proof (Z.div_mod (n / 256 / 256) 256 ltac:(lia)).
    rewrite !Z.div_div in * by lia.
    change (256 * 256) with 65536 in *. change (65536 * 256) with 16777216 in *.
    assert (n / 16777216 < 256) by (apply Z.div_lt_upper_bound; lia).
    assert (0 <= n / 16777216) by (apply Z.div_pos; lia).
    rewrite (Z.mod_small (n / 16777216) 256) by lia.
    lia.
Qed.

(** A length that does not fit is refused. *)
Lemma struct_pack_too_big n :
  2147483647 < n ->
  struct_pack_i n =
    inl (StructError "'i' format requires -2147483648 <= number <= 2147483647").
Proof.
  intros Hn. unfold struct_pack_i.
  destruct (Z.ltb_spec 2147483647 n); [|lia]. by rewrite orb_true_r.
Qed.

(** ** Partial transfers *)

Lemma pick_le s a : (pick s a <= a)%nat.
Proof. destruct s; simpl; lia. Qed.

Lemma pick_pos s a : (0 < a)%nat -> (0 < pick s a)%nat.
Proof. destruct s; simpl; lia. Qed.

Lemma os_write_ok w h d ch q buf :
  lookup_fd w h = Some d -> wr d = Some ch -> chans w !! ch = Some q -> nrd q <> 0%nat ->
  os_write h buf w =
    (Ret (Z.of_nat (pick (sched w) (length buf))),
     set_sched (tl (sched w))
       (set_chans (<[ch := chan_push q (take (pick (sched w) (length buf)) buf)]> (chans w)) w)).
Proof.
  intros Hd Hw Hq Hr. unfold os_write. rewrite Hd, Hw, Hq.
  destruct (Nat.eqb_spec (nrd q) 0); [done | done].
Qed.

(** [_send] pushes the whole buffer, whatever the sizes of the writes. *)
Lemma _send_loop_ok self c h d ch fuel :
  forall buf w q,
    (length buf < fuel)%nat ->
    heap w !! self = Some (ConnObj c) -> _handle c = Some h ->
    lookup_fd w h = Some d -> wr d = Some ch ->
    chans w !! ch = Some q -> nrd q <> 0%nat ->
    exists s',
      _send_loop fuel self buf (Z.of_nat (length buf)) w =
        (Ret tt, set_sched s' (set_chans (<[ch := chan_push q buf]> (chans w)) w)).
Proof.
  induction fuel as [|fuel IH]; intros buf w q Hlen Hc Hh Hd Hw Hq Hr; [lia|].
  simpl. rewrite (bind_ret_eq _ _ _ _ _ (get_conn_eq _ _ _ Hc)).
  rewrite Hh. simpl.
  rewrite (bind_ret_eq _ _ _ _ _ (os_write_ok _ _ _ _ _ buf Hd Hw Hq Hr)).
  set (n := pick (sched w) (length buf)).
  pose proof (pick_le (sched w) (length buf)) as Hle. fold n in Hle.
  destruct (Z.eqb_spec (Z.of_nat (length buf) - Z.of_nat n) 0) as [E|E].
  - exists (tl (sched w)). unfold ret. do 4 f_equal.
    rewrite take_ge by lia. done.
  - assert (Hpos : (0 < n)%nat).
    { apply pick_pos. lia. }
    rewrite Nat2Z.id.
    replace (Z.of_nat (length buf) - Z.of_nat n) with (Z.of_nat (length (drop n buf)))
      by (rewrite length_drop; lia).
    set (w1 := set_sched _ _).
    destruct (IH (drop n buf) w1 (chan_push q (take n buf))) as [s' Hs'];
      [ rewrite length_drop; lia | exact Hc | exact Hh | exact Hd | exact Hw
      | subst w1; simpl; apply lookup_insert_eq | exact Hr | ].
    exists s'. rewrite Hs'. f_equal. subst w1. unfold set_sched, set_chans. simpl.
    f_equal. rewrite insert_insert_eq. f_equal.
    unfold chan_push. simpl. by rewrite <- app_assoc, take_drop.
Qed.

Lemma _send_ok self c h d ch buf w q :
  heap w !! self = Some (ConnObj c) -> _handle c = Some h ->
  lookup_fd w h = Some d -> wr d = Some ch ->
  chans w !! ch = Some q -> nrd q <> 0%nat ->
  exists s',
    _send self buf w =
      (Ret tt, set_sched s' (set_chans (<[ch := chan_push q buf]> (chans w)) w)).
Proof. intros. unfold _send. eapply _send_loop_ok; eauto. Qed.

Lemma os_read_ok w h d ch q n :
  lookup_fd w h = Some d -> rd d = Some ch -> chans w !! ch = Some q ->
  0 < n -> data q <> [] ->
  os_read h n w =
    (Ret (take (pick (sched w) (Nat.min (Z.to_nat n) (length (data q)))) (data q)),
     set_sched (tl (sched w))
       (set_chans
          (<[ch := chan_pop q (pick (sched w) (Nat.min (Z.to_nat n) (length (data q))))]>
             (chans w)) w)).
Proof.
  intros Hd Hrd Hq Hn Hdata. unfold os_read.
  destruct (Z.ltb_spec n 0); [lia|]. rewrite Hd, Hrd, Hq.
  destruct (Z.eqb_spec n 0); [lia|].
  destruct (data q); [done | done].
Qed.

Lemma os_read_eof w h d ch q n :
  lookup_fd w h = Some d -> rd d = Some ch -> chans w !! ch = Some q ->
  0 < n -> data q = [] -> nwr q = 0%nat ->
  os_read h n w = (Ret [], w).
Proof.
  intros Hd Hrd Hq Hn Hdata Hw. unfold os_read.
  destruct (Z.ltb_spec n 0); [lia|]. rewrite Hd, Hrd, Hq.
  destruct (Z.eqb_spec n 0); [lia|].
  by rewrite Hdata, Hw.
Qed.

Lemma os_read_block w h d ch q n :
  lookup_fd w h = Some d -> rd d = Some ch -> chans w !! ch = Some q ->
  0 < n -> data q = [] -> nwr q <> 0%nat ->
  os_read h n w = (Block, w).
Proof.
  intros Hd Hrd Hq Hn Hdata Hw. unfold os_read.
  destruct (Z.ltb_spec n 0); [lia|]. rewrite Hd, Hrd, Hq.
  destruct (Z.eqb_spec n 0); [lia|].
  rewrite Hdata. by destruct (Nat.eqb_spec (nwr q) 0).
Qed.

Lemma _recv_loop_done fuel handle size acc remaining w :
  remaining <= 0 -> _recv_loop fuel handle size acc remaining w = (Ret acc, w).
Proof.
  intros H. destruct fuel; simpl;
    (destruct (Z.gtb_spec remaining 0); [lia | done]).
Qed.

Lemma _recv_loop_step fuel handle size acc remaining w :
  0 < remaining ->
  _recv_loop (S fuel) handle size acc remaining w =
    bind (_read handle remaining) (fun chunk =>
      let n := Z.of_nat (length chunk) in
      if n =? 0 then
        if remaining =? size then raise EOFError
        else raise (OSError "got end of file during message")
      else _recv_loop fuel handle size (acc ++ chunk) (remaining - n)) w.
Proof.
  intros H. simpl. destruct (Z.gtb_spec remaining 0); [done | lia].
Qed.

Lemma recv_nothing (acc : bytes) (w : world) ch q :
  chans w !! ch = Some q ->
  (Ret acc, w) =
    (Ret (acc ++ take (Z.to_nat 0) (data q)),
     set_sched (sched w) (set_chans (<[ch := chan_pop q (Z.to_nat 0)]> (chans w)) w)).
Proof.
  intros Hq. change (Z.to_nat 0) with 0%nat.
  rewrite take_0, app_nil_r. f_equal.
  unfold chan_pop. rewrite drop_0, chan_eta, insert_id by done.
  unfold set_sched, set_chans. simpl. by rewrite world_eta.
Qed.

(** [_recv] takes exactly the bytes asked for when they are there,
    whatever the sizes of the reads. *)
Lemma _recv_loop_ok h d ch size fuel :
  forall remaining acc w q,
    0 <= remaining -> (Z.to_nat remaining <= fuel)%nat ->
    lookup_fd w h = Some d -> rd d = Some ch -> chans w !! ch = Some q ->
    remaining <= Z.of_nat (length (data q)) ->
    exists s',
      _recv_loop fuel (Some h) size acc remaining w =
        (Ret (acc ++ take (Z.to_nat remaining) (data q)),
         set_sched s'
           (set_chans (<[ch := chan_pop q (Z.to_nat remaining)]> (chans w)) w)).
Proof.
  induction fuel as [|fuel IH]; intros remaining acc w q H0 Hfuel Hd Hrd Hq Hlen.
  - assert (remaining = 0) as -> by lia.
    rewrite _recv_loop_done by lia. exists (sched w). by apply recv_nothing.
  - destruct (Z.eq_dec remaining 0) as [->|Hne].
    { rewrite _recv_loop_done by lia. exists (sched w). by apply recv_nothing. }
    rewrite _recv_loop_step by lia. simpl.
    assert (Hdata : data q <> []).
    { intros E. rewrite E in Hlen. simpl in Hlen. lia. }
    rewrite (bind_ret_eq _ _ _ _ _ (os_read_ok _ _ _ _ _ remaining Hd Hrd Hq ltac:(lia) Hdata)).
    set (k := pick (sched w) (Nat.min (Z.to_nat remaining) (length (data q)))).
    assert (Hk : (0 < k <= Nat.min (Z.to_nat remaining) (length (data q)))%nat).
    { split; [apply pick_pos; lia | apply pick_le]. }
    rewrite length_take, Nat.min_l by lia.
    destruct (Z.eqb_spec (Z.of_nat k) 0); [lia|].
    set (w1 := set_sched _ _).
    destruct (IH (remaining - Z.of_nat k) (acc ++ take k (data q)) w1 (chan_pop q k))
      as [s' Hs'];
      [ lia | lia | exact Hd | exact Hrd | subst w1; simpl; apply lookup_insert_eq
      | simpl; rewrite length_drop; lia | ].
    exists s'. rewrite Hs'. f_equal.
    + f_equal. rewrite <- app_assoc. f_equal. simpl.
      rewrite take_take_drop. f_equal. lia.
    + subst w1. unfold set_sched, set_chans. simpl. f_equal.
      rewrite insert_insert_eq. f_equal. unfold chan_pop. simpl.
      rewrite drop_drop. do 2 f_equal. lia.
Qed.

(** At end of file with nothing queued, [_recv] raises at once: [EOFError]
    when this call has read nothing so far, [OSError] otherwise. *)
Lemma _recv_loop_eof_now h d ch size fuel remaining acc w q :
  lookup_fd w h = Some d -> rd d = Some ch -> chans w !! ch = Some q ->
  data q = [] -> nwr q = 0%nat -> 0 < remaining ->
  _recv_loop (S fuel) (Some h) size acc remaining w =
    (Raise (if remaining =? size then EOFError
            else OSError "got end of file during message"), w).
Proof.
  intros Hd Hrd Hq Hdata Hw Hrem.
  rewrite _recv_loop_step by lia. simpl.
  rewrite (bind_ret_eq _ _ _ _ _ (os_read_eof _ _ _ _ _ remaining Hd Hrd Hq Hrem Hdata Hw)).
  simpl. by destruct (remaining =? size).
Qed.

(** At end of file with some bytes queued, but fewer than asked for,
    [_recv] raises [OSError]. *)
Lemma _recv_loop_truncated h d ch size fuel :
  forall remaining acc w q,
    lookup_fd w h = Some d -> rd d = Some ch -> chans w !! ch = Some q ->
    data q <> [] -> nwr q = 0%nat ->
    Z.of_nat (length (data q)) < remaining <= size ->
    (Z.to_nat remaining <= fuel)%nat ->
    exists w',
      _recv_loop fuel (Some h) size acc remaining w =
        (Raise (OSError "got end of file during message"), w').
Proof.
  induction fuel as [|fuel IH]; intros remaining acc w q Hd Hrd Hq Hdata Hw Hlen Hfuel;
    [lia|].
  rewrite _recv_loop_step by lia. simpl.
  rewrite (bind_ret_eq _ _ _ _ _ (os_read_ok _ _ _ _ _ remaining Hd Hrd Hq ltac:(lia) Hdata)).
  set (k := pick (sched w) (Nat.min (Z.to_nat remaining) (length (data q)))).
  assert (Hpos : (0 < length (data q))%nat).
  { destruct (data q); [done | simpl; lia]. }
  assert (Hk : (0 < k <= Nat.min (Z.to_nat remaining) (length (data q)))%nat).
  { split; [apply pick_pos; lia | apply pick_le]. }
  rewrite length_take, Nat.min_l by lia.
  destruct (Z.eqb_spec (Z.of_nat k) 0); [lia|].
  set (w1 := set_sched _ _).
  assert (Hq1 : chans w1 !! ch = Some (chan_pop q k))
    by (subst w1; simpl; apply lookup_insert_eq).
  destruct (decide (data (chan_pop q k) = [])) as [E|E].
  - destruct fuel as [|fuel]; [lia|].
    rewrite (_recv_loop_eof_now h d ch size fuel _ _ w1 (chan_pop q k)); try done; [|lia].
    destruct (Z.eqb_spec (remaining - Z.of_nat k) size); [lia|]. eauto.
  - apply (IH _ _ w1 (chan_pop q k)); try done; [|lia].
    simpl. rewrite length_drop. lia.
Qed.

Lemma _recv_unfold self c size w :
  heap w !! self = Some (ConnObj c) ->
  _recv self size w = _recv_loop (Z.to_nat size) (_handle c) size [] size w.
Proof. intros Hc. unfold _recv. by rewrite (bind_ret_eq _ _ _ _ _ (get_conn_eq _ _ _ Hc)). Qed.

(** ** Connections on channels *)

Lemma moved_moved w ch q x s y s' :
  moved (moved w ch q x s) ch (Chan x (nwr q) (nrd q)) y s' = moved w ch q y s'.
Proof.
  unfold moved, set_sched, set_chans. simpl. f_equal. by rewrite insert_insert_eq.
Qed.

Lemma _recv_ok self c h d ch w q pre rest size :
  open_on w self c h d -> rd d = Some ch -> chans w !! ch = Some q ->
  data q = pre ++ rest -> size = Z.of_nat (length pre) ->
  exists s', _recv self size w = (Ret pre, moved w ch q rest s').
Proof.
  intros (Hc & Hh & Hd) Hrd Hq Hdata ->.
  rewrite (_recv_unfold _ _ _ _ Hc), Hh.
  destruct (_recv_loop_ok h d ch (Z.of_nat (length pre)) (Z.to_nat (Z.of_nat (length pre)))
              (Z.of_nat (length pre)) [] w q) as [s' Hs']; try done; try lia.
  { rewrite Hdata, length_app. lia. }
  exists s'. rewrite Hs'. rewrite Nat2Z.id. unfold moved, chan_pop.
  rewrite Hdata. by rewrite take_app_length, drop_app_length.
Qed.

Lemma frame_eq payload :
  Z.of_nat (length payload) <= 2147483647 ->
  exists header,
    frame payload = header ++ payload /\ length header = 4%nat /\
    struct_pack_i (Z.of_nat (length payload)) = inr header /\
    struct_unpack_i header = inr (Z.of_nat (length payload)) /\
    be_uint32 header = Some (Z.of_nat (length payload)).
Proof.
  intros Hn.
  destruct (struct_pack_unpack (Z.of_nat (length payload))) as (h & Hp & Hl & Hu & Hb); [lia|].
  exists h. unfold frame. by rewrite Hp.
Qed.

(** [_send_bytes] appends the frame of the payload to the channel. *)
Lemma _send_bytes_ok self c h d ch w q payload :
  open_on w self c h d -> wr d = Some ch -> chans w !! ch = Some q -> nrd q <> 0%nat ->
  Z.of_nat (length payload) <= 2147483647 ->
  exists s', _send_bytes self payload w = (Ret tt, moved w ch q (data q ++ frame payload) s').
Proof.
  intros (Hc & Hh & Hd) Hw Hq Hr Hn.
  destruct (frame_eq payload Hn) as (header & Hf & Hl & Hp & _).
  unfold _send_bytes. rewrite Hp. simpl. rewrite Hf, bind_ret_l.
  destruct (Z.gtb_spec (Z.of_nat (length payload)) 16384); cbv beta iota.
  - destruct (_send_ok self c h d ch header w q) as [s1 H1]; try done.
    rewrite (bind_ret_eq _ _ _ _ _ H1).
    set (w1 := set_sched _ _).
    destruct (_send_ok self c h d ch payload w1 (chan_push q header)) as [s2 H2]; try done.
    { subst w1. simpl. apply lookup_insert_eq. }
    exists s2. rewrite H2. f_equal. subst w1. unfold moved, set_sched, set_chans. simpl.
    f_equal. rewrite insert_insert_eq. f_equal. unfold chan_push. simpl.
    by rewrite app_assoc.
  - destruct (_send_ok self c h d ch (header ++ payload) w q) as [s1 H1]; try done.
    exists s1. by rewrite H1.
Qed.

(** A payload longer than a signed 32-bit length is refused before any
    byte is written. *)
Lemma _send_bytes_too_big self payload w :
  2147483647 < Z.of_nat (length payload) ->
  _send_bytes self payload w =
    (Raise (StructError "'i' format requires -2147483648 <= number <= 2147483647"), w).
Proof.
  intros Hn. unfold _send_bytes. by rewrite (struct_pack_too_big _ Hn).
Qed.

Lemma fits_over maxsize size :
  fits maxsize size ->
  match maxsize with Some m => size >? m | None => false end = false.
Proof.
  intros Hfit. destruct maxsize as [m|]; [|done]. simpl in Hfit.
  destruct (Z.gtb_spec size m); [lia | done].
Qed.

(** [_recv_bytes] takes one frame off the channel. *)
Lemma _recv_bytes_ok self c h d ch w q payload rest maxsize :
  open_on w self c h d -> rd d = Some ch -> chans w !! ch = Some q ->
  data q = frame payload ++ rest ->
  Z.of_nat (length payload) <= 2147483647 ->
  fits maxsize (Z.of_nat (length payload)) ->
  exists s', _recv_bytes self maxsize w = (Ret (Some payload), moved w ch q rest s').
Proof.
  intros Ho Hrd Hq Hdata Hn Hfit.
  destruct (frame_eq payload Hn) as (header & Hf & Hl & _ & Hu & _).
  rewrite Hf, <- app_assoc in Hdata.
  destruct (_recv_ok self c h d ch w q header (payload ++ rest) 4 Ho Hrd Hq Hdata)
    as [s1 H1]; [lia|].
  unfold _recv_bytes. rewrite (bind_ret_eq _ _ _ _ _ H1). rewrite Hu. simpl.
  rewrite bind_ret_l.
  rewrite (fits_over _ _ Hfit).
  set (w1 := moved _ _ _ _ _).
  destruct (_recv_ok self c h d ch w1 (Chan (payload ++ rest) (nwr q) (nrd q))
              payload rest (Z.of_nat (length payload))) as [s2 H2]; try done.
  { subst w1. unfold moved. simpl. apply lookup_insert_eq. }
  rewrite (bind_ret_eq _ _ _ _ _ H2). exists s2. unfold ret. f_equal.
  subst w1. apply moved_moved.
Qed.

(** A frame that declares more than [maxsize]: only its header is read. *)
Lemma _recv_bytes_too_long self c h d ch w q header rest size m :
  open_on w self c h d -> rd d = Some ch -> chans w !! ch = Some q ->
  data q = header ++ rest -> length header = 4%nat ->
  struct_unpack_i header = inr size -> m < size ->
  exists s', _recv_bytes self (Some m) w = (Ret None, moved w ch q rest s').
Proof.
  intros Ho Hrd Hq Hdata Hl Hu Hm.
  destruct (_recv_ok self c h d ch w q header rest 4 Ho Hrd Hq Hdata)
    as [s1 H1]; [lia|].
  unfold _recv_bytes. rewrite (bind_ret_eq _ _ _ _ _ H1). rewrite Hu. simpl.
  rewrite bind_ret_l.
  destruct (Z.gtb_spec size m); [|lia]. by exists s1.
Qed.

(** ** C1: framing round trip *)

(** C1 (as amended).  On a connected pair whose channel is empty, for
    every payload of at most 2^31 - 1 bytes, [_send_bytes] puts on the
    wire four bytes that read as the big-endian length of the payload,
    followed by the payload (also when the payload is empty), and
    [_recv_bytes] without a maximum then returns exactly the payload and
    leaves the channel empty. *)
Theorem framing_round_trip w tx rx ctx crx htx hrx dtx drx ch q payload :
  open_on w tx ctx htx dtx -> wr dtx = Some ch ->
  open_on w rx crx hrx drx -> rd drx = Some ch ->
  chans w !! ch = Some q -> data q = [] -> nrd q <> 0%nat ->
  Z.of_nat (length payload) <= 2147483647 ->
  exists header w1 w2,
    _send_bytes tx payload w = (Ret tt, w1) /\
    chans w1 !! ch = Some (Chan (header ++ payload) (nwr q) (nrd q)) /\
    length header = 4%nat /\
    be_uint32 header = Some (Z.of_nat (length payload)) /\
    _recv_bytes rx None w1 = (Ret (Some payload), w2) /\
    chans w2 !! ch = Some (Chan [] (nwr q) (nrd q)).
Proof.
  intros Htx Hwr Hrx Hrd Hq Hdata Hr Hn.
  destruct (frame_eq payload Hn) as (header & Hf & Hl & _ & _ & Hb).
  destruct (_send_bytes_ok tx ctx htx dtx ch w q payload Htx Hwr Hq Hr Hn) as [s1 H1].
  rewrite Hdata in H1. simpl in H1.
  set (w1 := moved w ch q (frame payload) s1) in *.
  assert (Hq1 : chans w1 !! ch = Some (Chan (frame payload) (nwr q) (nrd q))).
  { subst w1. unfold moved. simpl. apply lookup_insert_eq. }
  destruct (_recv_bytes_ok rx crx hrx drx ch w1 (Chan (frame payload) (nwr q) (nrd q))
              payload [] None) as [s2 H2]; try done.
  { simpl. by rewrite app_nil_r. }
  exists header, w1, (moved w1 ch (Chan (frame payload) (nwr q) (nrd q)) [] s2).
  repeat split; try done.
  - by rewrite <- Hf.
  - unfold moved. simpl. apply lookup_insert_eq.
Qed.

Lemma framing_round_trip_witness :
  exists header w1 w2,
    _send_bytes 1%nat (bs "hello") w_pipe = (Ret tt, w1) /\
    chans w1 !! 0%nat = Some (Chan (header ++ bs "hello") 1 1) /\
    length header = 4%nat /\
    be_uint32 header = Some 5 /\
    _recv_bytes 0%nat None w1 = (Ret (Some (bs "hello")), w2) /\
    chans w2 !! 0%nat = Some (Chan [] 1 1).
Proof.
  apply (framing_round_trip w_pipe 1%nat 0%nat
           (Conn (Some 1) false true) (Conn (Some 0) true false) 1 0
           (FDesc None (Some 0%nat)) (FDesc (Some 0%nat) None) 0%nat (Chan [] 1 1)
           (bs "hello")).
  - by_evaluation.
  - reflexivity.
  - by_evaluation.
  - reflexivity.
  - vm_compute. reflexivity.
  - reflexivity.
  - simpl. lia.
  - vm_compute. discriminate.
Defined.

(** C1 as stated fails on a payload of 2^31 bytes: [struct.pack("!i", n)]
    refuses the length, nothing reaches the wire, and the receiver has
    nothing to read. *)
Lemma framing_round_trip_counterexample :
  _send_bytes 1%nat two_gib w_pipe =
    (Raise (StructError "'i' format requires -2147483648 <= number <= 2147483647"), w_pipe)
  /\ _recv_bytes 0%nat None w_pipe = (Block, w_pipe).
Proof.
  split.
  - apply _send_bytes_too_big. unfold two_gib. rewrite repeat_length. lia.
  - vm_compute. reflexivity.
Qed.

(** ** C2: end of stream *)




(** ** C3: frames longer than allowed *)

Lemma _check_closed_ok w self c h :
  heap w !! self = Some (ConnObj c) -> _handle c = Some h ->
  _check_closed self w = (Ret tt, w).
Proof.
  intros Hc Hh. unfold _check_closed.
  by rewrite (bind_ret_eq _ _ _ _ _ (get_conn_eq _ _ _ Hc)), Hh.
Qed.

Lemma _check_readable_ok w self c :
  heap w !! self = Some (ConnObj c) -> _readable c = true ->
  _check_readable self w = (Ret tt, w).
Proof.
  intros Hc Hr. unfold _check_readable.
  by rewrite (bind_ret_eq _ _ _ _ _ (get_conn_eq _ _ _ Hc)), Hr.
Qed.

Lemma _check_writable_ok w self c :
  heap w !! self = Some (ConnObj c) -> _writable c = true ->
  _check_writable self w = (Ret tt, w).
Proof.
  intros Hc Hr. unfold _check_writable.
  by rewrite (bind_ret_eq _ _ _ _ _ (get_conn_eq _ _ _ Hc)), Hr.
Qed.

Lemma os_close_ok w h d :
  lookup_fd w h = Some d ->
  os_close h w =
    (Ret tt,
     set_released (h :: released w)
       (set_chans (detach_end drop_writer (wr d) (detach_end drop_reader (rd d) (chans w)))
          (set_fds (delete (Z.to_nat h) (fds w)) w))).
Proof. intros Hd. unfold os_close. by rewrite Hd. Qed.

(** [close] on an open connection whose descriptor the kernel knows. *)
Lemma close_ok w self c h d :
  open_on w self c h d ->
  exists w',
    close self w = (Ret tt, w') /\
    heap w' = <[self := ConnObj (Conn None (_readable c) (_writable c))]> (heap w) /\
    fds w' = delete (Z.to_nat h) (fds w) /\
    released w' = h :: released w.
Proof.
  intros (Hc & Hh & Hd). unfold close.
  rewrite (bind_ret_eq _ _ _ _ _ (get_conn_eq _ _ _ Hc)), Hh.
  unfold try_finally, _close.
  rewrite (bind_ret_eq _ _ _ _ _ (get_conn_eq _ _ _ Hc)), Hh.
  rewrite (os_close_ok _ _ _ Hd).
  unfold set_handle.
  erewrite bind_ret_eq; [|apply get_conn_eq; simpl; exact Hc].
  unfold put_conn, modify. eexists. split; [reflexivity|]. done.
Qed.

(** C3 (as amended).  When [recv_bytes] is called with a maximum that is
    not negative on a frame that declares more, the caller gets [OSError]
    "bad message length" and no payload; a writable connection loses its
    readable flag and keeps its descriptor open, a connection that is not
    writable is closed: its handle is cleared and its descriptor released. *)
Theorem degraded_length_policy w self c h d ch q header rest size maxlength :
  open_on w self c h d -> _readable c = true ->
  rd d = Some ch -> chans w !! ch = Some q ->
  data q = header ++ rest -> length header = 4%nat ->
  struct_unpack_i header = inr size ->
  0 <= maxlength < size ->
  exists w',
    recv_bytes self (Some maxlength) w = (Raise (OSError "bad message length"), w') /\
    (_writable c = true ->
     heap w' !! self = Some (ConnObj (Conn (Some h) false true)) /\
     lookup_fd w' h = Some d /\ released w' = released w) /\
    (_writable c = false ->
     heap w' !! self = Some (ConnObj (Conn None true false)) /\
     lookup_fd w' h = None /\ released w' = h :: released w).
Proof.
  intros Ho Hread Hrd Hq Hdata Hl Hu Hm. pose proof Ho as (Hc & Hh & Hd).
  destruct (_recv_bytes_too_long self c h d ch w q header rest size maxlength)
    as [s1 H1]; try done; [lia|].
  set (w1 := moved _ _ _ _ _) in H1.
  unfold recv_bytes.
  rewrite (bind_ret_eq _ _ _ _ _ (_check_closed_ok _ _ _ _ Hc Hh)).
  rewrite (bind_ret_eq _ _ _ _ _ (_check_readable_ok _ _ _ Hc Hread)).
  destruct (Z.ltb_spec maxlength 0); [lia|].
  rewrite (bind_ret_eq _ _ _ _ _ H1).
  unfold _bad_message_length.
  erewrite bind_ret_eq; [|apply get_conn_eq; exact Hc].
  destruct (_writable c) eqn:Hwr.
  - unfold set_readable.
    erewrite (bind_ret_eq (bind _ _)).
    2:{ erewrite bind_ret_eq; [|apply get_conn_eq; exact Hc]. reflexivity. }
    eexists. split; [reflexivity|]. split; [|done]. intros _.
    rewrite Hh, Hwr. split; [simpl; apply lookup_insert_eq | done].
  - destruct (close_ok w1 self c h d Ho) as (w2 & H2 & Hheap & Hfds & Hrel).
    rewrite (bind_ret_eq _ _ _ _ _ H2).
    exists w2. split; [reflexivity|]. split; [done|]. intros _.
    rewrite Hheap, Hread, Hwr. split; [apply lookup_insert_eq|]. split; [|done].
    unfold lookup_fd in *. destruct (h <? 0); [done|].
    rewrite Hfds. apply lookup_delete_eq.
Qed.

Lemma degraded_length_policy_witness :
  (exists w',
     recv_bytes 0%nat (Some 4) w_pair_hello = (Raise (OSError "bad message length"), w') /\
     heap w' !! 0%nat = Some (ConnObj (Conn (Some 0) false true)) /\
     lookup_fd w' 0 = Some (FDesc (Some 1%nat) (Some 0%nat)) /\
     released w' = released w_pair_hello) /\
  (exists w',
     recv_bytes 0%nat (Some 4) w_pipe_hello = (Raise (OSError "bad message length"), w') /\
     heap w' !! 0%nat = Some (ConnObj (Conn None true false)) /\
     lookup_fd w' 0 = None /\
     released w' = 0 :: released w_pipe_hello).
Proof.
  split.
  - destruct (degraded_length_policy w_pair_hello 0%nat (Conn (Some 0) true true) 0
                (FDesc (Some 1%nat) (Some 0%nat)) 1%nat
                (Chan (frame (bs "hello")) 1 1)
                [x00; x00; x00; x05] (bs "hello") 5 4) as (w' & Hr & Hw & _);
      [ by_evaluation | reflexivity | reflexivity
      | vm_compute; reflexivity | reflexivity | reflexivity | reflexivity | lia | ].
    exists w'. split; [exact Hr|]. exact (Hw eq_refl).
  - destruct (degraded_length_policy w_pipe_hello 0%nat (Conn (Some 0) true false) 0
                (FDesc (Some 0%nat) None) 0%nat
                (Chan (frame (bs "hello")) 1 1)
                [x00; x00; x00; x05] (bs "hello") 5 4) as (w' & Hr & _ & Hc);
      [ by_evaluation | reflexivity | reflexivity
      | vm_compute; reflexivity | reflexivity | reflexivity | reflexivity | lia | ].
    exists w'. split; [exact Hr|]. exact (Hc eq_refl).
Defined.

(** C3 as stated fails for a frame of declared length 0 received with
    maximum 0 - 1: the negative maximum is refused with [ValueError]
    before anything is read, and the connection is left as it was. *)
Lemma degraded_length_counterexample :
  chans w_pipe_empty !! 0%nat = Some (Chan [x00; x00; x00; x00] 1 1) /\
  struct_unpack_i [x00; x00; x00; x00] = inr 0 /\
  recv_bytes 0%nat (Some (0 - 1)) w_pipe_empty =
    (Raise (ValueError "negative maxlength"), w_pipe_empty) /\
  heap w_pipe_empty !! 0%nat = Some (ConnObj (Conn (Some 0) true false)) /\
  lookup_fd w_pipe_empty 0 = Some (FDesc (Some 0%nat) None).
Proof. by_evaluation. Qed.

(** ** C10: the closed state *)

Lemma _check_closed_raises w self c :
  heap w !! self = Some (ConnObj c) -> _handle c = None ->
  _check_closed self w = (Raise (OSError "handle is closed"), w).
Proof.
  intros Hc Hh. unfold _check_closed.
  by rewrite (bind_ret_eq _ _ _ _ _ (get_conn_eq _ _ _ Hc)), Hh.
Qed.

Lemma close_closed w self c :
  heap w !! self = Some (ConnObj c) -> _handle c = None ->
  close self w = (Ret tt, w).
Proof.
  intros Hc Hh. unfold close.
  by rewrite (bind_ret_eq _ _ _ _ _ (get_conn_eq _ _ _ Hc)), Hh.
Qed.

(** Whatever [os.close] answers, [close] leaves the handle cleared, and
    releases at most the descriptor it held. *)
Lemma close_clears w self c :
  heap w !! self = Some (ConnObj c) ->
  exists r w1,
    close self w = (r, w1) /\
    heap w1 !! self = Some (ConnObj (Conn None (_readable c) (_writable c))) /\
    (released w1 = released w \/
     exists h, _handle c = Some h /\ released w1 = h :: released w).
Proof.
  intros Hc. destruct (_handle c) as [h|] eqn:Hh.
  - unfold close. rewrite (bind_ret_eq _ _ _ _ _ (get_conn_eq _ _ _ Hc)), Hh.
    unfold try_finally, _close.
    rewrite (bind_ret_eq _ _ _ _ _ (get_conn_eq _ _ _ Hc)), Hh.
    unfold os_close. destruct (lookup_fd w h) as [d|] eqn:Hd.
    + unfold set_handle.
      erewrite bind_ret_eq; [|apply get_conn_eq; simpl; exact Hc].
      unfold put_conn, modify. do 2 eexists. split; [reflexivity|].
      split; [simpl; apply lookup_insert_eq | right; eauto].
    + unfold set_handle.
      erewrite bind_ret_eq; [|apply get_conn_eq; simpl; exact Hc].
      unfold put_conn, modify. do 2 eexists. split; [reflexivity|].
      split; [simpl; apply lookup_insert_eq | left; done].
  - rewrite (close_closed _ _ _ Hc Hh). do 2 eexists. split; [reflexivity|].
    split; [|by left]. rewrite Hc. destruct c; simpl in *. by subst.
Qed.

Lemma close_again n w self c :
  heap w !! self = Some (ConnObj c) -> _handle c = None ->
  Nat.iter n (fun w' => snd (close self w')) w = w.
Proof.
  intros Hc Hh. induction n as [|n IH]; [done|].
  simpl. rewrite IH. by rewrite (close_closed _ _ _ Hc Hh).
Qed.

(** C10.  After [close], whatever the outcome of releasing the
    descriptor, the handle is cleared and at most the stored descriptor
    was released; from then on [send], [recv], [send_bytes], [recv_bytes],
    [recv_bytes_into], [poll] and [fileno] raise [OSError] "handle is
    closed" and change nothing, and [close] again (any number of times,
    and the finalizer too) returns without releasing anything. *)
Theorem closed_state_invariant
        (Obj : Type) (dumps : Obj -> exn + bytes) (loads : bytes -> exn + Obj)
        w self c :
  heap w !! self = Some (ConnObj c) ->
  exists r w1,
    close self w = (r, w1) /\
    heap w1 !! self = Some (ConnObj (Conn None (_readable c) (_writable c))) /\
    (released w1 = released w \/
     exists h, _handle c = Some h /\ released w1 = h :: released w) /\
    (forall n, Nat.iter n (fun w' => snd (close self w')) w1 = w1) /\
    forall w2 c2,
      heap w2 !! self = Some (ConnObj c2) -> _handle c2 = None ->
      (forall obj, send Obj dumps self obj w2 = (Raise (OSError "handle is closed"), w2)) /\
      recv Obj loads self w2 = (Raise (OSError "handle is closed"), w2) /\
      (forall buf offset size,
         send_bytes self buf offset size w2 = (Raise (OSError "handle is closed"), w2)) /\
      (forall maxlength,
         recv_bytes self maxlength w2 = (Raise (OSError "handle is closed"), w2)) /\
      (forall buf offset,
         recv_bytes_into self buf offset w2 = (Raise (OSError "handle is closed"), w2)) /\
      (forall timeout, poll self timeout w2 = (Raise (OSError "handle is closed"), w2)) /\
      fileno self w2 = (Raise (OSError "handle is closed"), w2) /\
      close self w2 = (Ret tt, w2) /\
      __del__ self w2 = (Ret tt, w2).
Proof.
  intros Hc. destruct (close_clears w self c Hc) as (r & w1 & Hclose & Hheap & Hrel).
  exists r, w1. split; [done|]. split; [done|]. split; [done|]. split.
  { intros n. by apply (close_again n w1 self _ Hheap). }
  intros w2 c2 Hc2 Hh2.
  pose proof (_check_closed_raises w2 self c2 Hc2 Hh2) as Hchk.
  repeat split; intros;
    try (unfold send, recv, send_bytes, recv_bytes, recv_bytes_into, poll, fileno;
         by rewrite (bind_raise_eq _ _ _ _ _ Hchk)).
  - by apply (close_closed _ _ c2).
  - unfold __del__. by rewrite (bind_ret_eq _ _ _ _ _ (get_conn_eq _ _ _ Hc2)), Hh2.
Qed.

Lemma closed_state_invariant_witness :
  exists w1,
    close 1%nat w_pipe = (Ret tt, w1) /\
    heap w1 !! 1%nat = Some (ConnObj (Conn None false true)) /\
    released w1 = [1] /\
    send_bytes 1%nat (of_bytes (bs "late")) 0 None w1 =
      (Raise (OSError "handle is closed"), w1) /\
    fileno 1%nat w1 = (Raise (OSError "handle is closed"), w1) /\
    close 1%nat w1 = (Ret tt, w1).
Proof.
  destruct (closed_state_invariant unit (fun _ => inr []) (fun _ => inr tt)
              w_pipe 1%nat (Conn (Some 1) false true))
    as (r & w1 & Hclose & Hheap & _ & _ & Hlater);
    [vm_compute; reflexivity|].
  assert (Hw1 : (r, w1) = (Ret tt, snd (close 1%nat w_pipe))).
  { rewrite <- Hclose. vm_compute. reflexivity. }
  inversion Hw1; subst r. clear Hw1.
  destruct (Hlater w1 _ Hheap eq_refl) as (_ & _ & Hsb & _ & _ & _ & Hfn & Hcl & _).
  exists w1. split; [exact Hclose|]. split; [exact Hheap|].
  split; [subst w1; vm_compute; reflexivity|].
  split; [apply Hsb|]. split; [exact Hfn | exact Hcl].
Defined.

(** ** C7: one-way pipes *)

Lemma lookup_fd_of_nat w (n : nat) : lookup_fd w (Z.of_nat n) = fds w !! n.
Proof.
  unfold lookup_fd. destruct (Z.ltb_spec (Z.of_nat n) 0); [lia|].
  by rewrite Nat2Z.id.
Qed.

Lemma fresh_insert_ne {V} (m : gmap nat V) (k : nat) (v : V) :
  fresh (dom (<[k := v]> m)) <> k.
Proof.
  intros E. pose proof (is_fresh (dom (<[k := v]> m))) as Hf.
  rewrite E in Hf. apply Hf. rewrite dom_insert_L. set_solver.
Qed.

Lemma fresh_lookup {V} (m : gmap nat V) : m !! fresh (dom m) = None.
Proof. apply not_elem_of_dom. apply is_fresh. Qed.

Lemma Connection_ok (h : nat) (r wr : bool) w :
  r || wr = true ->
  Connection (Z.of_nat h) r wr w =
    (Ret (fresh (dom (heap w))),
     set_heap (<[fresh (dom (heap w)) := ConnObj (Conn (Some (Z.of_nat h)) r wr)]> (heap w)) w).
Proof.
  intros Hrw. unfold Connection.
  destruct (Z.ltb_spec (Z.of_nat h) 0); [lia|].
  destruct r, wr; try done.
Qed.

(** C7 (as amended).  [Pipe(duplex=False)] returns two distinct
    connections over one new channel: the first is read-only, on the
    channel's read end, and the second is write-only, on its write end. *)
Theorem Pipe_one_way w :
  exists a z r s ch w',
    Pipe false w = (Ret (a, z), w') /\ a <> z /\
    heap w' !! a = Some (ConnObj (Conn (Some r) true false)) /\
    heap w' !! z = Some (ConnObj (Conn (Some s) false true)) /\
    r <> s /\
    lookup_fd w' r = Some (FDesc (Some ch) None) /\
    lookup_fd w' s = Some (FDesc None (Some ch)) /\
    chans w !! ch = None /\
    chans w' !! ch = Some (Chan [] 1 1).
Proof.
  unfold Pipe.
  set (ch := free_chan w). set (r := free_fd w).
  set (w1 := set_chans (<[ch := Chan [] 1 1]> (chans w))
               (set_fds (<[r := FDesc (Some ch) None]> (fds w)) w)).
  set (s := free_fd w1).
  set (w2 := set_fds (<[s := FDesc None (Some ch)]> (fds w1)) w1).
  assert (Hp : os_pipe w = (Ret (Z.of_nat r, Z.of_nat s), w2)) by reflexivity.
  rewrite (bind_ret_eq _ _ _ _ _ Hp).
  rewrite (bind_ret_eq _ _ _ _ _ (Connection_ok r true false w2 eq_refl)).
  set (a := fresh (dom (heap w2))).
  set (w3 := set_heap _ w2).
  rewrite (bind_ret_eq _ _ _ _ _ (Connection_ok s false true w3 eq_refl)).
  set (z := fresh (dom (heap w3))).
  assert (Hza : z <> a) by apply fresh_insert_ne.
  assert (Hsr : s <> r) by apply fresh_insert_ne.
  exists a, z, (Z.of_nat r), (Z.of_nat s), ch. eexists.
  split; [reflexivity|]. split; [done|].
  split. { simpl. rewrite lookup_insert_ne by done. apply lookup_insert_eq. }
  split. { simpl. apply lookup_insert_eq. }
  split; [lia|].
  rewrite !lookup_fd_of_nat. simpl.
  split. { rewrite lookup_insert_ne by done. apply lookup_insert_eq. }
  split. { apply lookup_insert_eq. }
  split; [apply fresh_lookup | apply lookup_insert_eq].
Qed.

(** C7 as stated fails: the first connection [Pipe(duplex=False)] returns
    is readable and not writable and holds the read end of the pipe; the
    second is writable and not readable and holds the write end. *)
Lemma Pipe_one_way_counterexample :
  Pipe false w_init = (Ret (0%nat, 1%nat), w_pipe) /\
  readable 0%nat w_pipe = (Ret true, w_pipe) /\
  writable 0%nat w_pipe = (Ret false, w_pipe) /\
  readable 1%nat w_pipe = (Ret false, w_pipe) /\
  writable 1%nat w_pipe = (Ret true, w_pipe) /\
  heap w_pipe !! 0%nat = Some (ConnObj (Conn (Some 0) true false)) /\
  lookup_fd w_pipe 0 = Some (FDesc (Some 0%nat) None) /\
  heap w_pipe !! 1%nat = Some (ConnObj (Conn (Some 1) false true)) /\
  lookup_fd w_pipe 1 = Some (FDesc None (Some 0%nat)).
Proof. by_evaluation. Qed.

(** ** C8: receiving into a buffer *)

(** The window of [m[offset // itemsize : (offset + size) // itemsize]]
    when the item size divides both and the message fits. *)
Lemma mv_window_aligned m offset size :
  1 <= itemsize m -> 0 <= offset -> 0 <= size ->
  offset + size <= itemsize m * mv_len m ->
  (itemsize m | offset) -> (itemsize m | size) ->
  mv_window m (offset / itemsize m) ((offset + size) / itemsize m) =
    (Z.to_nat offset, Z.to_nat size).
Proof.
  intros Hi Ho Hs Hfit [k Hk] [j Hj]. unfold mv_window.
  assert (E1 : offset / itemsize m = k) by (subst offset; apply Z.div_mul; lia).
  assert (E2 : (offset + size) / itemsize m = k + j).
  { subst offset size. rewrite <- Z.mul_add_distr_r. apply Z.div_mul. lia. }
  rewrite E1, E2.
  assert (0 <= k) by nia. assert (0 <= j) by nia.
  assert (k + j <= mv_len m) by nia.
  unfold clamp.
  destruct (Z.ltb_spec k 0); [lia|]. destruct (Z.ltb_spec (k + j) 0); [lia|].
  rewrite !Z.min_l by lia. f_equal; f_equal; nia.
Qed.

(** C8 (as amended).  [recv_bytes_into] refuses a negative offset with
    [ValueError] "negative offset" and an offset beyond the capacity of
    the destination with [ValueError] "offset too large", both before it
    receives: the message stays on the channel and nothing changes.
    With an offset between 0 and the capacity it receives one message;
    if the capacity is less than offset plus the size of the message it
    raises [BufferTooShort] carrying the whole payload; if the message
    fits and the item size of the destination divides the offset and the
    size (as for every buffer of bytes), the payload is written at the
    offset, the other bytes are kept, and the size of the message is
    returned. *)
Theorem recv_bytes_into_capacity w self c h d ch q payload rest buf offset :
  open_on w self c h d -> _readable c = true ->
  rd d = Some ch -> chans w !! ch = Some q ->
  data q = frame payload ++ rest ->
  Z.of_nat (length payload) <= 2147483647 ->
  1 <= itemsize buf ->
  (offset < 0 ->
   recv_bytes_into self buf offset w = (Raise (ValueError "negative offset"), w)) /\
  (itemsize buf * mv_len buf < offset ->
   recv_bytes_into self buf offset w = (Raise (ValueError "offset too large"), w)) /\
  (0 <= offset <= itemsize buf * mv_len buf ->
   itemsize buf * mv_len buf < offset + Z.of_nat (length payload) ->
   exists w', recv_bytes_into self buf offset w = (Raise (BufferTooShort payload), w')) /\
  (0 <= offset <= itemsize buf * mv_len buf ->
   offset + Z.of_nat (length payload) <= itemsize buf * mv_len buf ->
   (itemsize buf | offset) -> (itemsize buf | Z.of_nat (length payload)) ->
   exists w',
     recv_bytes_into self buf offset w =
       (Ret (Z.of_nat (length payload),
             Buffer (itemsize buf)
                    (take (Z.to_nat offset) (contents buf) ++ payload ++
                     drop (Z.to_nat offset + length payload) (contents buf))), w')).
Proof.
  intros Ho Hread Hrd Hq Hdata Hn Hi. pose proof Ho as (Hc & Hh & Hd).
  destruct (_recv_bytes_ok self c h d ch w q payload rest None) as [s1 H1]; try done.
  assert (Hcap : 0 <= itemsize buf * mv_len buf).
  { unfold mv_len. apply Z.mul_nonneg_nonneg; [lia|]. apply Z.div_pos; lia. }
  split.
  { intros Hneg. unfold recv_bytes_into.
    rewrite (bind_ret_eq _ _ _ _ _ (_check_closed_ok _ _ _ _ Hc Hh)).
    rewrite (bind_ret_eq _ _ _ _ _ (_check_readable_ok _ _ _ Hc Hread)).
    by destruct (Z.ltb_spec offset 0); [|lia]. }
  split.
  { intros Hbig. unfold recv_bytes_into.
    rewrite (bind_ret_eq _ _ _ _ _ (_check_closed_ok _ _ _ _ Hc Hh)).
    rewrite (bind_ret_eq _ _ _ _ _ (_check_readable_ok _ _ _ Hc Hread)).
    destruct (Z.ltb_spec offset 0); [lia|].
    by destruct (Z.gtb_spec offset (itemsize buf * mv_len buf)); [|lia]. }
  assert (Hrun :
            0 <= offset <= itemsize buf * mv_len buf ->
            recv_bytes_into self buf offset w =
              (if itemsize buf * mv_len buf <? offset + Z.of_nat (length payload)
               then raise (BufferTooShort payload)
               else ret (Z.of_nat (length payload),
                         readinto payload buf (offset / itemsize buf)
                                  ((offset + Z.of_nat (length payload)) / itemsize buf)))
                (moved w ch q rest s1)).
  { intros Hoff. unfold recv_bytes_into.
    rewrite (bind_ret_eq _ _ _ _ _ (_check_closed_ok _ _ _ _ Hc Hh)).
    rewrite (bind_ret_eq _ _ _ _ _ (_check_readable_ok _ _ _ Hc Hread)).
    destruct (Z.ltb_spec offset 0); [lia|].
    destruct (Z.gtb_spec offset (itemsize buf * mv_len buf)); [lia|].
    by rewrite (bind_ret_eq _ _ _ _ _ H1). }
  split.
  - intros Hoff Hshort. exists (moved w ch q rest s1). rewrite (Hrun Hoff).
    destruct (Z.ltb_spec (itemsize buf * mv_len buf) (offset + Z.of_nat (length payload)));
      [done | lia].
  - intros Hoff Hfit Hdo Hds. exists (moved w ch q rest s1). rewrite (Hrun Hoff).
    destruct (Z.ltb_spec (itemsize buf * mv_len buf) (offset + Z.of_nat (length payload)));
      [lia|].
    unfold ret, readinto.
    rewrite (mv_window_aligned buf offset (Z.of_nat (length payload))) by (done || lia).
    rewrite Nat2Z.id, Nat.min_id, firstn_all. done.
Qed.

Lemma recv_bytes_into_capacity_witness :
  (exists w', recv_bytes_into 0%nat (of_bytes (bs "abcdefgh")) 2 w_pipe_hello =
              (Ret (5, of_bytes (bs "abhelloh")), w')) /\
  (exists w', recv_bytes_into 0%nat (of_bytes (bs "abcd")) 0 w_pipe_hello =
              (Raise (BufferTooShort (bs "hello")), w')) /\
  recv_bytes_into 0%nat (of_bytes (bs "abcdefgh")) (0 - 1) w_pipe_hello =
    (Raise (ValueError "negative offset"), w_pipe_hello) /\
  recv_bytes_into 0%nat (of_bytes (bs "abcdefgh")) 9 w_pipe_hello =
    (Raise (ValueError "offset too large"), w_pipe_hello).
Proof.
  split; [|split; [|split]].
  - destruct (recv_bytes_into_capacity w_pipe_hello 0%nat (Conn (Some 0) true false) 0
                (FDesc (Some 0%nat) None) 0%nat (Chan (frame (bs "hello")) 1 1)
                (bs "hello") [] (of_bytes (bs "abcdefgh")) 2) as (_ & _ & _ & Hfit);
      [ by_evaluation | reflexivity | reflexivity
      | vm_compute; reflexivity | reflexivity | simpl; lia | simpl; lia | ].
    destruct Hfit as [w' Hw'];
      [ vm_compute; split; discriminate | vm_compute; discriminate
      | exists 2; reflexivity | exists 5; reflexivity | ].
    exists w'. exact Hw'.
  - destruct (recv_bytes_into_capacity w_pipe_hello 0%nat (Conn (Some 0) true false) 0
                (FDesc (Some 0%nat) None) 0%nat (Chan (frame (bs "hello")) 1 1)
                (bs "hello") [] (of_bytes (bs "abcd")) 0) as (_ & _ & Hshort & _);
      [ by_evaluation | reflexivity | reflexivity
      | vm_compute; reflexivity | reflexivity | simpl; lia | simpl; lia | ].
    apply Hshort; [vm_compute; split; discriminate | vm_compute; reflexivity].
  - destruct (recv_bytes_into_capacity w_pipe_hello 0%nat (Conn (Some 0) true false) 0
                (FDesc (Some 0%nat) None) 0%nat (Chan (frame (bs "hello")) 1 1)
                (bs "hello") [] (of_bytes (bs "abcdefgh")) (0 - 1)) as (Hneg & _);
      [ by_evaluation | reflexivity | reflexivity
      | vm_compute; reflexivity | reflexivity | simpl; lia | simpl; lia | ].
    apply Hneg. lia.
  - destruct (recv_bytes_into_capacity w_pipe_hello 0%nat (Conn (Some 0) true false) 0
                (FDesc (Some 0%nat) None) 0%nat (Chan (frame (bs "hello")) 1 1)
                (bs "hello") [] (of_bytes (bs "abcdefgh")) 9) as (_ & Hbig & _);
      [ by_evaluation | reflexivity | reflexivity
      | vm_compute; reflexivity | reflexivity | simpl; lia | simpl; lia | ].
    apply Hbig. vm_compute. reflexivity.
Defined.

(** C8 as stated fails when the offset is beyond the destination: the
    capacity, 4 bytes, is less than offset 5 plus the 5 bytes of the
    message waiting on the pipe, and the call raises [ValueError] "offset
    too large" without receiving the message. *)
Lemma recv_bytes_into_counterexample :
  chans w_pipe_hello !! 0%nat = Some (Chan (frame (bs "hello")) 1 1) /\
  itemsize (of_bytes (bs "abcd")) * mv_len (of_bytes (bs "abcd")) = 4 /\
  recv_bytes_into 0%nat (of_bytes (bs "abcd")) 5 w_pipe_hello =
    (Raise (ValueError "offset too large"), w_pipe_hello).
Proof. by_evaluation. Qed.

(** Outside C8 as amended: a destination of 4-byte items and a message
    whose size is no multiple of 4.  The slice
    [m[offset // itemsize : (offset + size) // itemsize]] is one item, so
    four of the five bytes are written, and 5 is returned. *)
Example recv_bytes_into_unaligned :
  fst (recv_bytes_into 0%nat (Buffer 4 (bs "abcdefgh")) 0 w_pipe_hello) =
    Ret (5, Buffer 4 (bs "hellefgh")).
Proof. vm_compute. reflexivity. Qed.

(** ** C9: wait *)

Lemma same_io_trans w1 w2 w3 : same_io w1 w2 -> same_io w2 w3 -> same_io w1 w3.
Proof. intros (?&?&?&?) (?&?&?&?). repeat split; congruence. Qed.

Lemma fd_ready_same w w' fd : same_io w w' -> fd_ready w' fd = fd_ready w fd.
Proof.
  intros (_ & Hf & Hc & _). unfold fd_ready, lookup_fd. by rewrite Hf, Hc.
Qed.

Lemma fileno_ok w l h : handle_of w l = Some h -> fileno l w = (Ret h, w).
Proof.
  unfold handle_of. intros H.
  destruct (heap w !! l) as [[c|]|] eqn:Hc; try done.
  unfold fileno.
  rewrite (bind_ret_eq _ _ _ _ _ (_check_closed_ok _ _ _ _ Hc H)).
  by rewrite (bind_ret_eq _ _ _ _ _ (get_conn_eq _ _ _ Hc)), H.
Qed.

Lemma fileno_inv w l h w' :
  fileno l w = (Ret h, w') -> w' = w /\ handle_of w l = Some h.
Proof.
  destruct (handle_of w l) as [z|] eqn:Hz.
  - rewrite (fileno_ok _ _ _ Hz). by intros [= <- <-].
  - unfold handle_of in Hz. unfold fileno.
    destruct (heap w !! l) as [[c|]|] eqn:Hc.
    + by rewrite (bind_raise_eq _ _ _ _ _ (_check_closed_raises _ _ _ Hc Hz)).
    + unfold _check_closed, bind, get_conn. by rewrite Hc.
    + unfold _check_closed, bind, get_conn. by rewrite Hc.
Qed.

Lemma register_ok w sel l h :
  handle_of w l = Some h -> ~ In h (map fst sel) ->
  register sel l w = (Ret (sel ++ [(h, l)]), w).
Proof.
  intros Hh Hnew. unfold register.
  rewrite (bind_ret_eq _ _ _ _ _ (fileno_ok _ _ _ Hh)).
  destruct (existsb (fun k => fst k =? h) sel) eqn:E; [|done].
  apply existsb_exists in E as (k & Hk & Hkh). apply Z.eqb_eq in Hkh.
  exfalso. apply Hnew. rewrite <- Hkh. by apply in_map.
Qed.

Lemma register_inv w sel l sel' w' :
  register sel l w = (Ret sel', w') ->
  w' = w /\ exists h, handle_of w l = Some h /\ sel' = sel ++ [(h, l)].
Proof.
  unfold register, bind.
  destruct (fileno l w) as [[h| | |] w1] eqn:E; try done.
  apply fileno_inv in E as [-> Hh].
  destruct (existsb _ sel); [done|]. intros [= <- <-]. eauto.
Qed.

Lemma key_of_open w l h : handle_of w l = Some h -> key_of w l = (h, l).
Proof. unfold key_of. by intros ->. Qed.

(** Registration of open connections on distinct descriptors. *)
Lemma register_all_ok w objs :
  forall sel,
    (forall l, In l objs -> exists h, handle_of w l = Some h /\ ~ In h (map fst sel)) ->
    NoDup (map (handle_of w) objs) ->
    register_all sel objs w = (Ret (sel ++ map (key_of w) objs), w).
Proof.
  induction objs as [|l objs IH]; intros sel Hopen Hnd; simpl.
  - by rewrite app_nil_r.
  - destruct (Hopen l) as (h & Hh & Hnew); [by left|].
    rewrite (bind_ret_eq _ _ _ _ _ (register_ok _ _ _ _ Hh Hnew)).
    rewrite (key_of_open _ _ _ Hh).
    rewrite IH; [by rewrite <- app_assoc | |].
    + intros l' Hl'. destruct (Hopen l') as (h' & Hh' & Hnew'); [by right|].
      exists h'. split; [done|]. rewrite map_app, in_app_iff. simpl.
      intros [?|[E|[]]]; [done|]. subst h'.
      apply NoDup_cons in Hnd as [Hnotin _]. apply Hnotin.
      rewrite list_elem_of_In, Hh, <- Hh'. by apply in_map.
    + by apply NoDup_cons in Hnd as [_ ?].
Qed.

(** What a successful registration has registered. *)
Lemma register_all_inv w objs :
  forall sel sel' w',
    register_all sel objs w = (Ret sel', w') ->
    w' = w /\ sel' = sel ++ map (key_of w) objs /\
    Forall (fun l => is_Some (handle_of w l)) objs.
Proof.
  induction objs as [|l objs IH]; intros sel sel' w'; simpl.
  - intros [= <- <-]. by rewrite app_nil_r.
  - unfold bind. destruct (register sel l w) as [[s1| | |] w1] eqn:E; try done.
    apply register_inv in E as (-> & h & Hh & ->).
    intros H. apply IH in H as (-> & -> & Hall).
    split; [done|]. split.
    + by rewrite <- app_assoc, (key_of_open _ _ _ Hh).
    + constructor; [by rewrite Hh | done].
Qed.

(** The ready keys of a registration are the ready connections. *)
Lemma ready_keys w w' objs :
  same_io w w' ->
  Forall (fun l => is_Some (handle_of w l)) objs ->
  map snd (List.filter (fun k => fd_ready w' (fst k)) (map (key_of w) objs)) =
    List.filter (conn_ready w) objs.
Proof.
  intros Hs Hall. induction Hall as [|l objs [h Hh] _ IH]; [done|].
  assert (Hr : conn_ready w l = fd_ready w h) by (unfold conn_ready; by rewrite Hh).
  cbn [map List.filter]. rewrite (key_of_open _ _ _ Hh). cbn [fst].
  rewrite (fd_ready_same _ _ _ Hs), Hr.
  destruct (fd_ready w h); cbn [map snd]; by rewrite IH.
Qed.

Lemma time_time_same w :
  exists t w', time_time w = (Ret t, w') /\ same_io w w' /\
               now w' = t /\ now w <= t /\
               ((length (ticks w') < length (ticks w))%nat \/ now w < t).
Proof.
  unfold time_time. destruct (ticks w) as [|d k] eqn:E.
  - do 2 eexists. split; [reflexivity|]. repeat split; simpl; lia.
  - do 2 eexists. split; [reflexivity|]. repeat split; simpl; lia.
Qed.

Lemma select_ready sel timeout w k r :
  List.filter (fun k => fd_ready w (fst k)) sel = k :: r ->
  select sel timeout w = (Ret (k :: r), w).
Proof. intros H. unfold select. by rewrite H. Qed.

Lemma select_poll sel t w :
  List.filter (fun k => fd_ready w (fst k)) sel = [] -> t <= 0 ->
  select sel (Some t) w = (Ret [], w).
Proof.
  intros H Ht. unfold select. rewrite H.
  destruct (Z.leb_spec t 0); [done | lia].
Qed.

(** With nothing ready, a timeout that has run out and a deadline that
    has passed, the loop of [wait] returns the empty list as soon as the
    clock has moved. *)
Lemma wait_loop_idle sel deadline fuel :
  forall w timeout,
    List.filter (fun k => fd_ready w (fst k)) sel = [] ->
    timeout <= 0 -> deadline <= now w ->
    (length (ticks w) < fuel)%nat ->
    exists w', wait_loop fuel sel (Some timeout) deadline w = (Ret [], w') /\ same_io w w'.
Proof.
  induction fuel as [|fuel IH]; intros w timeout Hidle Ht Hd Hfuel; [lia|].
  simpl. rewrite (bind_ret_eq _ _ _ _ _ (select_poll _ _ _ Hidle Ht)).
  destruct (time_time_same w) as (t0 & w1 & Ht0 & Hs & Hnow & Hle & Hprog).
  rewrite (bind_ret_eq _ _ _ _ _ Ht0).
  destruct (Z.ltb_spec (deadline - t0) 0).
  - eexists. split; [reflexivity|]. done.
  - destruct (IH w1 (deadline - t0)) as (w' & Hw' & Hs').
    + erewrite List.filter_ext; [exact Hidle|]. intros a. by apply fd_ready_same.
    + lia.
    + lia.
    + lia.
    + exists w'. split; [exact Hw'|]. eapply same_io_trans; [exact Hs | exact Hs'].
Qed.

(** Whenever the loop of [wait] returns, it returns nothing or the
    objects of the ready keys. *)
Lemma wait_loop_ret sel deadline fuel :
  forall w timeout r w',
    wait_loop fuel sel timeout deadline w = (Ret r, w') ->
    same_io w w' /\
    (r = [] \/ r = map snd (List.filter (fun k => fd_ready w (fst k)) sel)).
Proof.
  induction fuel as [|fuel IH]; intros w timeout r w'; [done|].
  simpl. unfold bind at 1. unfold select.
  destruct (List.filter (fun k => fd_ready w (fst k)) sel) as [|k ks] eqn:Hf.
  - destruct timeout as [t|]; [|done].
    assert (Hstep : forall w1, same_io w w1 ->
              (let! t0 := time_time in
               if deadline - t0 <? 0 then ret (map snd (@nil (Z * nat)))
               else wait_loop fuel sel (Some (deadline - t0)) deadline) w1 = (Ret r, w') ->
              same_io w w' /\
              (r = [] \/ r = map snd (@nil (Z * nat)))).
    { intros w1 Hs1.
      destruct (time_time_same w1) as (t0 & w2 & Ht & Hs2 & _).
      rewrite (bind_ret_eq _ _ _ _ _ Ht).
      destruct (deadline - t0 <? 0).
      - intros [= <- <-]. split; [|by left].
        eapply same_io_trans; [exact Hs1 | exact Hs2].
      - intros H. apply IH in H as [Hs3 Hr]. split.
        + eapply same_io_trans; [exact Hs1|].
          eapply same_io_trans; [exact Hs2 | exact Hs3].
        + left. destruct Hr as [->| ->]; [done|].
          erewrite List.filter_ext; [rewrite Hf; done|].
          intros a. apply fd_ready_same.
          eapply same_io_trans; [exact Hs1 | exact Hs2]. }
    destruct (t <=? 0); apply Hstep; done.
  - intros [= <- <-]. split; [done | by right].
Qed.

Lemma wait_unfold_some objs t w sel t0 w1 :
  register_all [] objs w = (Ret sel, w) -> time_time w = (Ret t0, w1) ->
  wait objs (Some t) w = wait_loop (S (S (length (ticks w1)))) sel (Some t) (t0 + t) w1.
Proof.
  intros H1 H2. unfold wait. rewrite (bind_ret_eq _ _ _ _ _ H1).
  erewrite bind_ret_eq; [|erewrite bind_ret_eq; [reflexivity | exact H2]].
  reflexivity.
Qed.

Lemma wait_unfold_none objs w sel :
  register_all [] objs w = (Ret sel, w) ->
  wait objs None w = wait_loop (S (S (length (ticks w)))) sel None 0 w.
Proof. intros H1. unfold wait. by rewrite (bind_ret_eq _ _ _ _ _ H1). Qed.

(** Whenever [wait] returns, it returns connections of the list it was
    given, each of them ready, and has changed nothing but the clock. *)
Lemma wait_ret w objs timeout r w' :
  wait objs timeout w = (Ret r, w') ->
  same_io w w' /\
  (r = [] \/ r = List.filter (conn_ready w) objs).
Proof.
  destruct (register_all [] objs w) as [[sel| | |] w0] eqn:Hreg;
    try (unfold wait, bind at 1; by rewrite Hreg).
  pose proof Hreg as Hreg'.
  apply register_all_inv in Hreg' as (-> & -> & Hall). simpl in Hreg.
  assert (Hloop : forall deadline w1 fuel,
            same_io w w1 ->
            wait_loop fuel (map (key_of w) objs) timeout deadline w1 = (Ret r, w') ->
            same_io w w' /\ (r = [] \/ r = List.filter (conn_ready w) objs)).
  { intros deadline w1 fuel Hs1 H. apply wait_loop_ret in H as [Hs2 Hr].
    split; [eapply same_io_trans; [exact Hs1 | exact Hs2] |].
    destruct Hr as [->| ->]; [by left | right]. by apply ready_keys. }
  destruct timeout as [t|].
  - destruct (time_time_same w) as (t0 & w1 & Ht & Hs & _).
    rewrite (wait_unfold_some _ _ _ _ _ _ Hreg Ht). by apply Hloop.
  - rewrite (wait_unfold_none _ _ _ Hreg). by apply Hloop.
Qed.




(** ** The handshake *)

Lemma mv_slice_all x :
  mv_slice (of_bytes x) 0 (0 + (mv_len (of_bytes x) - 0)) = x.
Proof.
  unfold mv_slice, mv_window, mv_len, of_bytes, clamp. simpl.
  rewrite Z.div_1_r. replace (0 + (Z.of_nat (length x) - 0)) with (Z.of_nat (length x)) by lia.
  destruct (Z.ltb_spec (Z.of_nat (length x)) 0); [lia|].
  rewrite Z.min_id, Z.min_l by lia. simpl.
  rewrite Z.mul_1_r, Z.max_r, Z.sub_0_r, Nat2Z.id by lia.
  by rewrite firstn_all.
Qed.

(** [send_bytes(payload)] on a writable connection is [_send_bytes]. *)
Lemma send_bytes_ok w self c h d ch q payload :
  open_on w self c h d -> _writable c = true ->
  wr d = Some ch -> chans w !! ch = Some q -> nrd q <> 0%nat ->
  Z.of_nat (length payload) <= 2147483647 ->
  exists s',
    send_bytes self (of_bytes payload) 0 None w =
      (Ret tt, moved w ch q (data q ++ frame payload) s').
Proof.
  intros Ho Hwr Hw Hq Hr Hn. pose proof Ho as (Hc & Hh & Hd).
  destruct (_send_bytes_ok self c h d ch w q payload Ho Hw Hq Hr Hn) as [s' Hs'].
  exists s'. rewrite <- Hs'. unfold send_bytes.
  rewrite (bind_ret_eq _ _ _ _ _ (_check_closed_ok _ _ _ _ Hc Hh)).
  rewrite (bind_ret_eq _ _ _ _ _ (_check_writable_ok _ _ _ Hc Hwr)).
  change (itemsize (of_bytes payload) >? 1) with false. cbv iota.
  change (0 <? 0) with false. cbv iota.
  destruct (Z.ltb_spec (mv_len (of_bytes payload)) 0).
  { unfold mv_len, of_bytes in *. simpl in *. rewrite Z.div_1_r in *. lia. }
  by rewrite mv_slice_all.
Qed.

(** [recv_bytes(m)] on a readable connection takes one frame that fits. *)
Lemma recv_bytes_ok w self c h d ch q payload rest m :
  open_on w self c h d -> _readable c = true ->
  rd d = Some ch -> chans w !! ch = Some q ->
  data q = frame payload ++ rest ->
  Z.of_nat (length payload) <= m -> m <= 2147483647 ->
  exists s',
    recv_bytes self (Some m) w = (Ret payload, moved w ch q rest s').
Proof.
  intros Ho Hread Hrd Hq Hdata Hm Hmax. pose proof Ho as (Hc & Hh & Hd).
  destruct (_recv_bytes_ok self c h d ch w q payload rest (Some m)) as [s' Hs'];
    try done; [lia|].
  exists s'. unfold recv_bytes.
  rewrite (bind_ret_eq _ _ _ _ _ (_check_closed_ok _ _ _ _ Hc Hh)).
  rewrite (bind_ret_eq _ _ _ _ _ (_check_readable_ok _ _ _ Hc Hread)).
  destruct (Z.ltb_spec m 0); [lia|].
  by rewrite (bind_ret_eq _ _ _ _ _ Hs').
Qed.

Lemma same_objects_trans w1 w2 w3 :
  same_objects w1 w2 -> same_objects w2 w3 -> same_objects w1 w3.
Proof. intros (?&?&?&?&?) (?&?&?&?&?). repeat split; congruence. Qed.

Lemma duplex_send w self h ci co qi qo payload :
  duplex w self h ci co qi qo ->
  Z.of_nat (length payload) <= 2147483647 ->
  exists w',
    send_bytes self (of_bytes payload) 0 None w = (Ret tt, w') /\
    duplex w' self h ci co qi (Chan (data qo ++ frame payload) (nwr qo) (nrd qo)) /\
    same_objects w w' /\ epos w' = epos w.
Proof.
  intros (Ho & Hne & Hqi & Hqo & Hr) Hn.
  destruct (send_bytes_ok w self _ h _ co qo payload Ho eq_refl eq_refl Hqo Hr Hn)
    as [s' Hs'].
  eexists. split; [exact Hs'|]. split; [|done].
  split; [done|]. split; [done|]. unfold moved. simpl.
  split; [by rewrite lookup_insert_ne|]. split; [apply lookup_insert_eq | done].
Qed.

Lemma duplex_recv w self h ci co qi qo payload rest m :
  duplex w self h ci co qi qo ->
  data qi = frame payload ++ rest ->
  Z.of_nat (length payload) <= m -> m <= 2147483647 ->
  exists w',
    recv_bytes self (Some m) w = (Ret payload, w') /\
    duplex w' self h ci co (Chan rest (nwr qi) (nrd qi)) qo /\
    same_objects w w' /\ epos w' = epos w.
Proof.
  intros (Ho & Hne & Hqi & Hqo & Hr) Hdata Hm Hmax.
  destruct (recv_bytes_ok w self _ h _ ci qi payload rest m Ho eq_refl eq_refl Hqi Hdata Hm Hmax)
    as [s' Hs'].
  eexists. split; [exact Hs'|]. split; [|done].
  split; [done|]. split; [done|]. unfold moved. simpl.
  split; [apply lookup_insert_eq|]. split; [by rewrite lookup_insert_ne | done].
Qed.

Lemma duplex_out_eq w self h ci co qi qo x y :
  x = y ->
  duplex w self h ci co qi (Chan x (nwr qo) (nrd qo)) ->
  duplex w self h ci co qi (Chan y (nwr qo) (nrd qo)).
Proof. by intros ->. Qed.

Section Handshake.

Variable hmac_md5 : bytes -> bytes -> bytes.

(** The challenger's side, when the reply is a frame of at most 256
    bytes: the challenge goes out first, then the verdict on the reply. *)
Lemma deliver_challenge_spec key w self h ci co qi qo reply rest :
  duplex w self h ci co qi qo ->
  data qi = frame reply ++ rest -> Z.of_nat (length reply) <= 256 ->
  let nonce := map (entropy w) (seq (epos w) MESSAGE_LENGTH) in
  let ok := bool_decide (reply = hmac_md5 key nonce) in
  exists w',
    deliver_challenge hmac_md5 self key w =
      (if ok then Ret tt else Raise (AuthenticationError "digest received was wrong"), w') /\
    duplex w' self h ci co (Chan rest (nwr qi) (nrd qi))
      (Chan (data qo ++ frame (CHALLENGE ++ nonce) ++ frame (if ok then WELCOME else FAILURE))
            (nwr qo) (nrd qo)) /\
    same_objects w w' /\ epos w' = (epos w + MESSAGE_LENGTH)%nat.
Proof.
  intros Hd Hdata Hlen nonce ok. unfold deliver_challenge.
  rewrite (bind_ret_eq _ _ _ _ _ (eq_refl : os_urandom MESSAGE_LENGTH w = (Ret nonce, _))).
  set (w0 := set_epos _ w).
  assert (Hd0 : duplex w0 self h ci co qi qo) by exact Hd.
  assert (Hn : Z.of_nat (length (CHALLENGE ++ nonce)) <= 2147483647).
  { subst nonce. rewrite length_app, length_map, length_seq. vm_compute. discriminate. }
  destruct (duplex_send w0 self h ci co qi qo _ Hd0 Hn) as (w1 & H1 & Hd1 & Hs1 & He1).
  rewrite (bind_ret_eq _ _ _ _ _ H1).
  destruct (duplex_recv w1 self h ci co qi _ reply rest 256 Hd1 Hdata Hlen ltac:(lia))
    as (w2 & H2 & Hd2 & Hs2 & He2).
  rewrite (bind_ret_eq _ _ _ _ _ H2). unfold bytes_eqb. fold ok.
  assert (Hso : same_objects w w2).
  { eapply same_objects_trans; [|exact Hs2].
    eapply same_objects_trans; [|exact Hs1]. done. }
  destruct ok.
  - destruct (duplex_send w2 self h ci co _ _ WELCOME Hd2 ltac:(vm_compute; discriminate))
      as (w3 & H3 & Hd3 & Hs3 & He3).
    exists w3. split; [exact H3|]. split.
    + eapply duplex_out_eq; [|exact Hd3]. simpl. by rewrite <- app_assoc.
    + split; [eapply same_objects_trans; [exact Hso | exact Hs3] |].
      rewrite He3, He2, He1. done.
  - destruct (duplex_send w2 self h ci co _ _ FAILURE Hd2 ltac:(vm_compute; discriminate))
      as (w3 & H3 & Hd3 & Hs3 & He3).
    exists w3. rewrite (bind_ret_eq _ _ _ _ _ H3). split; [reflexivity|]. split.
    + eapply duplex_out_eq; [|exact Hd3]. simpl. by rewrite <- app_assoc.
    + split; [eapply same_objects_trans; [exact Hso | exact Hs3] |].
      rewrite He3, He2, He1. done.
Qed.

(** The answering side, when the challenge and the verdict are frames of
    at most 256 bytes: the digest of what follows the tag goes out. *)
Lemma answer_challenge_spec key w self h ci co qi qo message verdict rest :
  duplex w self h ci co qi qo ->
  data qi = frame (CHALLENGE ++ message) ++ frame verdict ++ rest ->
  Z.of_nat (length (CHALLENGE ++ message)) <= 256 ->
  Z.of_nat (length verdict) <= 256 ->
  Z.of_nat (length (hmac_md5 key message)) <= 2147483647 ->
  let ok := bool_decide (verdict = WELCOME) in
  exists w',
    answer_challenge hmac_md5 self key w =
      (if ok then Ret tt else Raise (AuthenticationError "digest sent was rejected"), w') /\
    duplex w' self h ci co (Chan rest (nwr qi) (nrd qi))
      (Chan (data qo ++ frame (hmac_md5 key message)) (nwr qo) (nrd qo)) /\
    same_objects w w' /\ epos w' = epos w.
Proof.
  intros Hd Hdata Hlc Hlv Hld ok. unfold answer_challenge.
  destruct (duplex_recv w self h ci co qi qo _ _ 256 Hd Hdata Hlc ltac:(lia))
    as (w1 & H1 & Hd1 & Hs1 & He1).
  rewrite (bind_ret_eq _ _ _ _ _ H1).
  rewrite take_app_length, drop_app_length.
  unfold bytes_eqb. rewrite bool_decide_eq_true_2 by done. cbn [negb].
  destruct (duplex_send w1 self h ci co _ qo _ Hd1 Hld) as (w2 & H2 & Hd2 & Hs2 & He2).
  rewrite (bind_ret_eq _ _ _ _ _ H2).
  destruct (duplex_recv w2 self h ci co _ _ verdict rest 256 Hd2 eq_refl Hlv ltac:(lia))
    as (w3 & H3 & Hd3 & Hs3 & He3).
  rewrite (bind_ret_eq _ _ _ _ _ H3). fold ok.
  exists w3. split; [by destruct ok|]. split; [exact Hd3|]. split.
  - eapply same_objects_trans; [|exact Hs3].
    eapply same_objects_trans; [exact Hs1 | exact Hs2].
  - by rewrite He3, He2, He1.
Qed.

End Handshake.

(** A frame that declares more than the maximum, on a writable
    connection: [OSError], the header is gone, the rest stays queued and
    the connection reads no more. *)
Lemma duplex_recv_rejects w self h ci co qi qo header rest size m :
  duplex w self h ci co qi qo ->
  data qi = header ++ rest -> length header = 4%nat ->
  struct_unpack_i header = inr size -> 0 <= m < size ->
  exists w',
    recv_bytes self (Some m) w = (Raise (OSError "bad message length"), w') /\
    chans w' !! co = Some qo /\
    heap w' !! self = Some (ConnObj (Conn (Some h) false true)) /\
    lookup_fd w' h = Some (FDesc (Some ci) (Some co)) /\
    released w' = released w.
Proof.
  intros (Ho & Hne & Hqi & Hqo & Hr) Hdata Hl Hu Hm. pose proof Ho as (Hc & Hh & Hd).
  destruct (_recv_bytes_too_long self _ h _ ci w qi header rest size m Ho eq_refl Hqi Hdata Hl Hu)
    as [s1 H1]; [lia|].
  unfold recv_bytes.
  rewrite (bind_ret_eq _ _ _ _ _ (_check_closed_ok _ _ _ _ Hc Hh)).
  rewrite (bind_ret_eq _ _ _ _ _ (_check_readable_ok _ _ _ Hc eq_refl)).
  destruct (Z.ltb_spec m 0); [lia|].
  rewrite (bind_ret_eq _ _ _ _ _ H1).
  unfold _bad_message_length.
  erewrite bind_ret_eq; [|apply get_conn_eq; exact Hc]. simpl.
  unfold set_readable.
  erewrite (bind_ret_eq (bind _ _)).
  2:{ erewrite bind_ret_eq; [|apply get_conn_eq; exact Hc]. reflexivity. }
  eexists. split; [reflexivity|]. simpl.
  split; [by rewrite lookup_insert_ne|]. split; [apply lookup_insert_eq | done].
Qed.

Section Pairing.

Variable hmac_md5 : bytes -> bytes -> bytes.
Variable has_AF_UNIX : bool.

Lemma Listener_accept_socket w lst ak d :
  listening w lst ak d ->
  exists c fd w1,
    accepted w w1 c fd d /\
    Listener_accept hmac_md5 lst w =
      ((if truthy ak then
          match ak with
          | Some key => deliver_challenge hmac_md5 c key >> answer_challenge hmac_md5 c key
          | None => wrong
          end
        else ret tt) >> ret c) w1.
Proof.
  intros (sl & peer & pend & Hl & Hs & Hb).
  set (fd := free_fd w).
  set (l1 := ListenerObj (MkListener
               (Some (MkSocketListener (_socket sl) (_address sl) (_family sl) (Some peer))) ak)).
  set (w0 := set_heap (<[lst := l1]> (heap w))
               (set_backlog (<[Z.to_nat (_socket sl) := pend]> (backlog w))
                  (set_fds (<[fd := d]> (fds w)) w))).
  set (c := fresh (dom (heap w0))).
  set (w1 := set_heap (<[c := ConnObj (Conn (Some (Z.of_nat fd)) true true)]> (heap w0)) w0).
  assert (Hcl : c <> lst) by apply fresh_insert_ne.
  assert (Hgl : get_listener lst w = (Ret (MkListener (Some sl) ak), w))
    by (unfold get_listener; by rewrite Hl).
  assert (Hsa : sock_accept (_socket sl) w =
                (Ret (Z.of_nat fd, peer),
                 set_backlog (<[Z.to_nat (_socket sl) := pend]> (backlog w))
                   (set_fds (<[fd := d]> (fds w)) w))).
  { unfold sock_accept. destruct (Z.ltb_spec (_socket sl) 0); [lia|]. by rewrite Hb. }
  assert (Hacc : SocketListener_accept lst w = (Ret c, w1)).
  { unfold SocketListener_accept. rewrite (bind_ret_eq _ _ _ _ _ Hgl). simpl.
    rewrite (bind_ret_eq _ _ _ _ _ Hsa).
    unfold modify. unfold bind at 1.
    by rewrite (Connection_ok fd true true _ eq_refl). }
  assert (Hgl1 : get_listener lst w1 =
                 (Ret (MkListener
                         (Some (MkSocketListener (_socket sl) (_address sl) (_family sl)
                                                 (Some peer))) ak), w1)).
  { unfold get_listener. subst w1. simpl.
    rewrite lookup_insert_ne by done. subst w0. simpl. by rewrite lookup_insert_eq. }
  exists c, fd, w1. split.
  - assert (Hfresh : heap w0 !! c = None) by apply fresh_lookup.
    subst w0. simpl in Hfresh. rewrite lookup_insert_ne in Hfresh by done.
    repeat split; try done.
    + apply fresh_lookup.
    + subst w1. simpl. apply lookup_insert_eq.
    + subst w1. simpl. apply lookup_insert_eq.
  - unfold Listener_accept. rewrite (bind_ret_eq _ _ _ _ _ Hgl). simpl.
    rewrite (bind_ret_eq _ _ _ _ _ Hacc).
    by rewrite (bind_ret_eq _ _ _ _ _ Hgl1).
Qed.

Lemma accepted_duplex w w1 c fd ci co qi qo :
  accepted w w1 c fd (FDesc (Some ci) (Some co)) ->
  ci <> co -> chans w !! ci = Some qi -> chans w !! co = Some qo -> nrd qo <> 0%nat ->
  duplex w1 c (Z.of_nat fd) ci co qi qo.
Proof.
  intros (_ & _ & Hc & Hfd & Hch & _) Hne Hqi Hqo Hr.
  unfold duplex, open_on. rewrite lookup_fd_of_nat, Hch. done.
Qed.

(** What [Client] finds for a (host, port) address with a server behind
    it: a new connection object on a new descriptor. *)
Lemma Client_connect w host port d ak :
  servers w (TupleAddr host port) = Some d ->
  exists c fd w1,
    accepted w w1 c fd d /\
    Client hmac_md5 has_AF_UNIX (TupleAddr host port) None ak w =
      (match ak with
       | Some key => answer_challenge hmac_md5 c key >> deliver_challenge hmac_md5 c key
       | None => ret tt
       end >> ret c) w1.
Proof.
  intros Hsrv.
  set (fd := free_fd w).
  set (w0 := set_fds (<[fd := d]> (fds w)) w).
  set (c := fresh (dom (heap w0))).
  set (w1 := set_heap (<[c := ConnObj (Conn (Some (Z.of_nat fd)) true true)]> (heap w0)) w0).
  assert (Hcon : SocketClient has_AF_UNIX (TupleAddr host port) w = (Ret c, w1)).
  { unfold SocketClient. simpl. rewrite bind_ret_l. simpl.
    erewrite bind_ret_eq; [|unfold sock_connect; rewrite Hsrv; reflexivity].
    by rewrite (Connection_ok fd true true _ eq_refl). }
  exists c, fd, w1. split.
  - repeat split; try done.
    + apply (fresh_lookup (heap w)).
    + apply fresh_lookup.
    + subst w1. simpl. apply lookup_insert_eq.
    + subst w1 w0. simpl. apply lookup_insert_eq.
  - unfold Client. simpl. rewrite bind_ret_l. simpl.
    unfold _validate_family. simpl. rewrite bind_ret_l.
    by rewrite (bind_ret_eq _ _ _ _ _ Hcon).
Qed.

End Pairing.

(** ** C6: the handshake protocol *)

Lemma duplex_queues w self h ci co qi qo :
  duplex w self h ci co qi qo ->
  queue w ci = Some (data qi) /\ queue w co = Some (data qo).
Proof. intros (_ & _ & Hqi & Hqo & _). unfold queue. by rewrite Hqi, Hqo. Qed.

(** C6.  On a connection that reads channel [ci] and writes channel [co]:
    the challenger sends the challenge tag followed by a 20-byte nonce,
    reads a reply of at most 256 bytes, and sends WELCOME if the reply is
    the digest of the nonce under the key, else sends FAILURE and raises
    [AuthenticationError]; a reply that declares more than 256 bytes is
    refused after the challenge alone was sent.  [Listener.accept] with a
    key delivers its challenge and verdict and then answers the peer's
    challenge; [Client] with a key answers first and then delivers. *)
Theorem handshake_protocol
        (hmac_md5 : bytes -> bytes -> bytes) (has_AF_UNIX : bool)
        key w ci co qi qo :
  ci <> co -> chans w !! ci = Some qi -> chans w !! co = Some qo -> nrd qo <> 0%nat ->
  (forall k m, length (hmac_md5 k m) = 16%nat) ->
  let nonce := map (entropy w) (seq (epos w) MESSAGE_LENGTH) in
  length nonce = 20%nat /\
  (forall self h,
     duplex w self h ci co qi qo ->
     (forall reply rest,
        data qi = frame reply ++ rest -> Z.of_nat (length reply) <= 256 ->
        exists w',
          deliver_challenge hmac_md5 self key w =
            (if bool_decide (reply = hmac_md5 key nonce) then Ret tt
             else Raise (AuthenticationError "digest received was wrong"), w') /\
          queue w' co =
            Some (data qo ++ frame (CHALLENGE ++ nonce) ++
                  frame (if bool_decide (reply = hmac_md5 key nonce)
                         then WELCOME else FAILURE))) /\
     (forall header rest size,
        data qi = header ++ rest -> length header = 4%nat ->
        struct_unpack_i header = inr size -> 256 < size ->
        exists w',
          deliver_challenge hmac_md5 self key w =
            (Raise (OSError "bad message length"), w') /\
          queue w' co = Some (data qo ++ frame (CHALLENGE ++ nonce)))) /\
  (forall lst message rest,
     key <> [] ->
     listening w lst (Some key) (FDesc (Some ci) (Some co)) ->
     data qi = frame (hmac_md5 key nonce) ++ frame (CHALLENGE ++ message) ++
               frame WELCOME ++ rest ->
     Z.of_nat (length (CHALLENGE ++ message)) <= 256 ->
     exists c w',
       Listener_accept hmac_md5 lst w = (Ret c, w') /\ heap w !! c = None /\
       queue w' ci = Some rest /\
       queue w' co =
         Some (data qo ++ frame (CHALLENGE ++ nonce) ++ frame WELCOME ++
               frame (hmac_md5 key message))) /\
  (forall host port message rest,
     servers w (TupleAddr host port) = Some (FDesc (Some ci) (Some co)) ->
     data qi = frame (CHALLENGE ++ message) ++ frame WELCOME ++
               frame (hmac_md5 key nonce) ++ rest ->
     Z.of_nat (length (CHALLENGE ++ message)) <= 256 ->
     exists c w',
       Client hmac_md5 has_AF_UNIX (TupleAddr host port) None (Some key) w = (Ret c, w') /\
       heap w !! c = None /\
       queue w' ci = Some rest /\
       queue w' co =
         Some (data qo ++ frame (hmac_md5 key message) ++
               frame (CHALLENGE ++ nonce) ++ frame WELCOME)).
Proof.
  intros Hne Hqi Hqo Hr Hmac nonce.
  assert (Hdig : forall k m, Z.of_nat (length (hmac_md5 k m)) <= 256)
    by (intros; rewrite Hmac; lia).
  split; [subst nonce; by rewrite length_map, length_seq|].
  split; [|split].
  - intros self h Hd. split.
    + intros reply rest Hdata Hlen.
      pose proof (deliver_challenge_spec hmac_md5 key w self h ci co qi qo reply rest
                    Hd Hdata Hlen) as H.
      cbv zeta in H. destruct H as (w' & Hrun & Hd' & _).
      exists w'. split; [exact Hrun|]. by apply duplex_queues in Hd' as [_ ?].
    + intros header rest size Hdata Hl Hu Hsize.
      unfold deliver_challenge.
      rewrite (bind_ret_eq _ _ _ _ _ (eq_refl : os_urandom MESSAGE_LENGTH w = (Ret nonce, _))).
      set (w0 := set_epos _ w).
      assert (Hd0 : duplex w0 self h ci co qi qo) by exact Hd.
      assert (Hn : Z.of_nat (length (CHALLENGE ++ nonce)) <= 2147483647).
      { subst nonce. rewrite length_app, length_map, length_seq. vm_compute. discriminate. }
      destruct (duplex_send w0 self h ci co qi qo _ Hd0 Hn) as (w1 & H1 & Hd1 & _).
      rewrite (bind_ret_eq _ _ _ _ _ H1).
      destruct (duplex_recv_rejects w1 self h ci co qi _ header rest size 256 Hd1 Hdata Hl Hu)
        as (w2 & H2 & Hq2 & _); [lia|].
      exists w2. rewrite (bind_raise_eq _ _ _ _ _ H2). split; [done|].
      unfold queue. by rewrite Hq2.
  - intros lst message rest Hkey Hlst Hdata Hlen.
    destruct (Listener_accept_socket hmac_md5 w lst (Some key) _ Hlst)
      as (c & fd & w1 & Hacc & Hrun).
    pose proof (accepted_duplex w w1 c fd ci co qi qo Hacc Hne Hqi Hqo Hr) as Hd1.
    pose proof Hacc as (Hnew & _ & _ & _ & _ & _ & Hent & Hep).
    pose proof (deliver_challenge_spec hmac_md5 key w1 c _ ci co qi qo _ _
                  Hd1 Hdata (Hdig _ _)) as H.
    cbv zeta in H. rewrite Hent, Hep in H. fold nonce in H.
    rewrite bool_decide_eq_true_2 in H by done.
    destruct H as (w2 & H2 & Hd2 & _).
    pose proof (answer_challenge_spec hmac_md5 key w2 c _ ci co _ _ message WELCOME rest
                  Hd2 eq_refl Hlen ltac:(vm_compute; discriminate)
                  ltac:(rewrite Hmac; lia)) as H.
    cbv zeta in H. rewrite bool_decide_eq_true_2 in H by done.
    destruct H as (w3 & H3 & Hd3 & _).
    exists c, w3. rewrite Hrun. destruct key as [|k ks]; [done|]. cbn [truthy].
    split.
    { erewrite bind_ret_eq; [reflexivity|].
      erewrite bind_ret_eq; [exact H3 | exact H2]. }
    split; [done|].
    apply duplex_queues in Hd3 as [Hi Ho]. split; [exact Hi|].
    rewrite Ho. simpl. by rewrite <- !app_assoc.
  - intros host port message rest Hsrv Hdata Hlen.
    destruct (Client_connect hmac_md5 has_AF_UNIX w host port _ (Some key) Hsrv)
      as (c & fd & w1 & Hacc & Hrun).
    pose proof (accepted_duplex w w1 c fd ci co qi qo Hacc Hne Hqi Hqo Hr) as Hd1.
    pose proof Hacc as (Hnew & _ & _ & _ & _ & _ & Hent & Hep).
    pose proof (answer_challenge_spec hmac_md5 key w1 c _ ci co qi qo message WELCOME _
                  Hd1 Hdata Hlen ltac:(vm_compute; discriminate)
                  ltac:(rewrite Hmac; lia)) as H.
    cbv zeta in H. rewrite bool_decide_eq_true_2 in H by done.
    destruct H as (w2 & H2 & Hd2 & (_ & _ & _ & _ & Hent2) & Hep2).
    pose proof (deliver_challenge_spec hmac_md5 key w2 c _ ci co _ _ _ rest
                  Hd2 eq_refl (Hdig _ _)) as H.
    cbv zeta in H. rewrite Hent2, Hep2, Hent, Hep in H. fold nonce in H.
    rewrite bool_decide_eq_true_2 in H by done.
    destruct H as (w3 & H3 & Hd3 & _).
    exists c, w3. rewrite Hrun.
    split.
    { erewrite bind_ret_eq; [reflexivity|].
      erewrite bind_ret_eq; [exact H3 | exact H2]. }
    split; [done|].
    apply duplex_queues in Hd3 as [Hi Ho]. split; [exact Hi|].
    rewrite Ho. simpl. by rewrite <- !app_assoc.
Qed.

Lemma toy_mac_length k m : length (toy_mac k m) = 16%nat.
Proof.
  unfold toy_mac. rewrite length_take, !length_app, repeat_length. lia.
Qed.

Lemma handshake_protocol_witness :
  (exists c w',
     Listener_accept toy_mac 0%nat (w_listen (Some key0) peer_of_accept) = (Ret c, w') /\
     queue w' 0%nat = Some [] /\
     queue w' 1%nat =
       Some (frame (CHALLENGE ++ nonce0) ++ frame WELCOME ++ frame (toy_mac key0 peer_nonce))) /\
  (exists c w',
     Client toy_mac true (TupleAddr "localhost" 6000) None (Some key0)
            (w_listen None peer_of_client) = (Ret c, w') /\
     queue w' 0%nat = Some [] /\
     queue w' 1%nat =
       Some (frame (toy_mac key0 peer_nonce) ++ frame (CHALLENGE ++ nonce0) ++ frame WELCOME)).
Proof.
  split.
  - destruct (handshake_protocol toy_mac true key0 (w_listen (Some key0) peer_of_accept)
                0%nat 1%nat (Chan peer_of_accept 1 1) (Chan [] 1 1))
      as (_ & _ & Hacc & _);
      [ discriminate | vm_compute; reflexivity | vm_compute; reflexivity | discriminate
      | apply toy_mac_length | ].
    destruct (Hacc 0%nat peer_nonce []) as (c & w' & Hrun & _ & Hi & Ho).
    + discriminate.
    + do 3 eexists. split; [vm_compute; reflexivity|]. split; [|vm_compute; reflexivity].
      vm_compute. discriminate.
    + vm_compute. reflexivity.
    + vm_compute. discriminate.
    + exists c, w'. split; [exact Hrun|]. split; [exact Hi | exact Ho].
  - destruct (handshake_protocol toy_mac true key0 (w_listen None peer_of_client)
                0%nat 1%nat (Chan peer_of_client 1 1) (Chan [] 1 1))
      as (_ & _ & _ & Hcli);
      [ discriminate | vm_compute; reflexivity | vm_compute; reflexivity | discriminate
      | apply toy_mac_length | ].
    destruct (Hcli "localhost"%string 6000 peer_nonce []) as (c & w' & Hrun & _ & Hi & Ho).
    + reflexivity.
    + vm_compute. reflexivity.
    + vm_compute. discriminate.
    + exists c, w'. split; [exact Hrun|]. split; [exact Hi | exact Ho].
Defined.

(** ** C4: a failed handshake in accept *)

Lemma accepted_left_open w w1 w' c fd d :
  accepted w w1 c fd d -> same_objects w1 w' -> left_open w w' c fd.
Proof.
  intros (Hnew & Hfd & Hc & Hd & _ & Hrel & _) (Hheap & Hfds & Hrel' & _).
  unfold left_open. rewrite Hheap, Hfds, Hrel', Hrel, Hc, Hd.
  repeat split; try done.
  unfold closed. erewrite bind_ret_eq; [|apply get_conn_eq; by rewrite Hheap]. done.
Qed.

(** C4 (as amended).  When [Listener.accept] runs the handshake and it
    fails, because the peer's digest is wrong or because the peer rejects
    the digest sent, accept raises [AuthenticationError] and does not
    close the new connection: when the error propagates its handle is
    still set and its descriptor still open, and nothing was released. *)
Theorem accept_failure_leaves_open
        (hmac_md5 : bytes -> bytes -> bytes) key w lst ci co qi qo :
  key <> [] ->
  listening w lst (Some key) (FDesc (Some ci) (Some co)) ->
  ci <> co -> chans w !! ci = Some qi -> chans w !! co = Some qo -> nrd qo <> 0%nat ->
  (forall k m, length (hmac_md5 k m) = 16%nat) ->
  let nonce := map (entropy w) (seq (epos w) MESSAGE_LENGTH) in
  (forall reply rest,
     data qi = frame reply ++ rest -> Z.of_nat (length reply) <= 256 ->
     reply <> hmac_md5 key nonce ->
     exists c fd w',
       Listener_accept hmac_md5 lst w =
         (Raise (AuthenticationError "digest received was wrong"), w') /\
       left_open w w' c fd) /\
  (forall message verdict rest,
     data qi = frame (hmac_md5 key nonce) ++ frame (CHALLENGE ++ message) ++
               frame verdict ++ rest ->
     Z.of_nat (length (CHALLENGE ++ message)) <= 256 ->
     Z.of_nat (length verdict) <= 256 ->
     verdict <> WELCOME ->
     exists c fd w',
       Listener_accept hmac_md5 lst w =
         (Raise (AuthenticationError "digest sent was rejected"), w') /\
       left_open w w' c fd).
Proof.
  intros Hkey Hlst Hne Hqi Hqo Hr Hmac nonce.
  destruct (Listener_accept_socket hmac_md5 w lst (Some key) _ Hlst)
    as (c & fd & w1 & Hacc & Hrun).
  pose proof (accepted_duplex w w1 c fd ci co qi qo Hacc Hne Hqi Hqo Hr) as Hd1.
  pose proof Hacc as (Hnew & _ & _ & _ & _ & _ & Hent & Hep).
  destruct key as [|k ks]; [done|]. cbn [truthy] in Hrun.
  split.
  - intros reply rest Hdata Hlen Hwrong.
    pose proof (deliver_challenge_spec hmac_md5 (k :: ks) w1 c _ ci co qi qo _ _
                  Hd1 Hdata Hlen) as H.
    cbv zeta in H. rewrite Hent, Hep in H. fold nonce in H.
    rewrite bool_decide_eq_false_2 in H by done.
    destruct H as (w2 & H2 & _ & Hs2 & _).
    exists c, fd, w2. rewrite Hrun. split.
    + erewrite bind_raise_eq; [reflexivity|].
      erewrite bind_raise_eq; [reflexivity | exact H2].
    + by apply (accepted_left_open w w1 w2 c fd _ Hacc).
  - intros message verdict rest Hdata Hlc Hlv Hrej.
    pose proof (deliver_challenge_spec hmac_md5 (k :: ks) w1 c _ ci co qi qo _ _
                  Hd1 Hdata ltac:(rewrite Hmac; lia)) as H.
    cbv zeta in H. rewrite Hent, Hep in H. fold nonce in H.
    rewrite bool_decide_eq_true_2 in H by done.
    destruct H as (w2 & H2 & Hd2 & Hs2 & _).
    pose proof (answer_challenge_spec hmac_md5 (k :: ks) w2 c _ ci co _ _ message verdict rest
                  Hd2 eq_refl Hlc Hlv ltac:(rewrite Hmac; lia)) as H.
    cbv zeta in H. rewrite bool_decide_eq_false_2 in H by done.
    destruct H as (w3 & H3 & _ & Hs3 & _).
    exists c, fd, w3. rewrite Hrun. split.
    + erewrite bind_raise_eq; [reflexivity|].
      erewrite bind_ret_eq; [exact H3 | exact H2].
    + apply (accepted_left_open w w1 w3 c fd _ Hacc).
      eapply same_objects_trans; [exact Hs2 | exact Hs3].
Qed.

Lemma accept_failure_leaves_open_witness :
  (exists c fd w',
     Listener_accept toy_mac 0%nat (w_listen (Some key0) peer_wrong) =
       (Raise (AuthenticationError "digest received was wrong"), w') /\
     left_open (w_listen (Some key0) peer_wrong) w' c fd) /\
  (exists c fd w',
     Listener_accept toy_mac 0%nat (w_listen (Some key0) peer_rejecting) =
       (Raise (AuthenticationError "digest sent was rejected"), w') /\
     left_open (w_listen (Some key0) peer_rejecting) w' c fd).
Proof.
  split.
  - destruct (accept_failure_leaves_open toy_mac key0 (w_listen (Some key0) peer_wrong)
                0%nat 0%nat 1%nat (Chan peer_wrong 1 1) (Chan [] 1 1))
      as [Hwrong _].
    + discriminate.
    + do 3 eexists. split; [vm_compute; reflexivity|]. split; [|vm_compute; reflexivity].
      vm_compute. discriminate.
    + discriminate.
    + vm_compute. reflexivity.
    + vm_compute. reflexivity.
    + discriminate.
    + apply toy_mac_length.
    + apply (Hwrong (bs "not-the-digest!!") []).
      * vm_compute. reflexivity.
      * vm_compute. discriminate.
      * vm_compute. discriminate.
  - destruct (accept_failure_leaves_open toy_mac key0 (w_listen (Some key0) peer_rejecting)
                0%nat 0%nat 1%nat (Chan peer_rejecting 1 1) (Chan [] 1 1))
      as [_ Hrej].
    + discriminate.
    + do 3 eexists. split; [vm_compute; reflexivity|]. split; [|vm_compute; reflexivity].
      vm_compute. discriminate.
    + discriminate.
    + vm_compute. reflexivity.
    + vm_compute. reflexivity.
    + discriminate.
    + apply toy_mac_length.
    + apply (Hrej peer_nonce FAILURE []).
      * vm_compute. reflexivity.
      * vm_compute. discriminate.
      * vm_compute. discriminate.
      * vm_compute. discriminate.
Defined.

(** C4 as stated fails: the peer's digest is wrong, accept raises
    [AuthenticationError], and the connection it had created (object 1,
    on the new descriptor 4) is not closed: its handle is set, the
    descriptor is open and [os.close] was never called. *)
Lemma accept_failure_counterexample :
  let w := w_listen (Some key0) peer_wrong in
  let w' := snd (Listener_accept toy_mac 0%nat w) in
  fst (Listener_accept toy_mac 0%nat w) =
    Raise (AuthenticationError "digest received was wrong") /\
  heap w !! 1%nat = None /\ lookup_fd w 4 = None /\
  heap w' !! 1%nat = Some (ConnObj (Conn (Some 4) true true)) /\
  closed 1%nat w' = (Ret false, w') /\
  lookup_fd w' 4 = Some (FDesc (Some 0%nat) (Some 1%nat)) /\
  released w' = [].
Proof. by_evaluation. Qed.

(** ** C5: when the handshake runs *)

(** C5 at the empty key.  [Listener.accept] tests the truth value of the
    key, and [b''] is false: it returns the connection without sending a
    challenge, drawing a nonce or reading what the peer sent.  [Client]
    tests the key against [None]: with the same empty key it answers the
    challenge and delivers its own before it returns. *)
Lemma empty_key_handshake :
  let w := w_listen (Some []) peer_of_accept_empty in
  let w' := snd (Listener_accept toy_mac 0%nat w) in
  let v := w_listen (Some []) peer_of_client_empty in
  let v' := snd (Client toy_mac true (TupleAddr "localhost" 6000) None (Some []) v) in
  fst (Listener_accept toy_mac 0%nat w) = Ret 1%nat /\
  queue w' 1%nat = Some [] /\
  queue w' 0%nat = Some peer_of_accept_empty /\
  epos w' = epos w /\
  fst (Client toy_mac true (TupleAddr "localhost" 6000) None (Some []) v) = Ret 1%nat /\
  queue v' 1%nat =
    Some (frame (toy_mac [] peer_nonce) ++ frame (CHALLENGE ++ nonce0) ++ frame WELCOME) /\
  queue v' 0%nat = Some [] /\
  epos v' = (epos v + 20)%nat.
Proof. by_evaluation. Qed.

(** Without a key neither side touches the connection: nothing is sent,
    nothing is read and no nonce is drawn. *)
Lemma no_key_no_handshake :
  let w := w_listen None peer_of_accept in
  let w' := snd (Listener_accept toy_mac 0%nat w) in
  let v' := snd (Client toy_mac true (TupleAddr "localhost" 6000) None None w) in
  fst (Listener_accept toy_mac 0%nat w) = Ret 1%nat /\
  queue w' 1%nat = Some [] /\ queue w' 0%nat = Some peer_of_accept /\ epos w' = epos w /\
  fst (Client toy_mac true (TupleAddr "localhost" 6000) None None w) = Ret 1%nat /\
  queue v' 1%nat = Some [] /\ queue v' 0%nat = Some peer_of_accept /\ epos v' = epos w.
Proof. by_evaluation. Qed.

(** * Further properties *)

(** ** Relations a computation keeps *)

Section Keeps.

Variable R : world -> world -> Prop.
Hypothesis R_refl : forall w, R w w.
Hypothesis R_trans : forall w1 w2 w3, R w1 w2 -> R w2 w3 -> R w1 w3.

Lemma keeps_ret {A} (a : A) : keeps R (ret a).
Proof. intros w. apply R_refl. Qed.

Lemma keeps_raise {A} e : keeps R (@raise A e).
Proof. intros w. apply R_refl. Qed.

Lemma keeps_wrong {A} : keeps R (@wrong A).
Proof. intros w. apply R_refl. Qed.

Lemma keeps_lift {A} (r : exn + A) : keeps R (lift r).
Proof. destruct r; [apply keeps_raise | apply keeps_ret]. Qed.

Lemma keeps_bind {A B} (m : M A) (k : A -> M B) :
  keeps R m -> (forall a, keeps R (k a)) -> keeps R (bind m k).
Proof.
  intros Hm Hk w. unfold bind. specialize (Hm w).
  destruct (m w) as [[a|e| |] w1]; simpl in *; try done.
  eapply R_trans; [exact Hm | apply Hk].
Qed.

Lemma keeps_try_finally {A} (body : M A) (fin : M unit) :
  keeps R body -> keeps R fin -> keeps R (try_finally body fin).
Proof.
  intros Hb Hf w. unfold try_finally. specialize (Hb w).
  destruct (body w) as [[a|e| |] w1]; simpl in *; try done.
  - specialize (Hf w1). destruct (fin w1) as [[[]|e'| |] w2]; simpl in *;
      eapply R_trans; eauto.
  - specialize (Hf w1). destruct (fin w1) as [[[]|e'| |] w2]; simpl in *;
      eapply R_trans; eauto.
Qed.

End Keeps.

Lemma quiet_refl w : quiet w w.
Proof. done. Qed.

Lemma quiet_trans w1 w2 w3 : quiet w1 w2 -> quiet w2 w3 -> quiet w1 w3.
Proof. intros (?&?&?) (?&?&?). repeat split; congruence. Qed.

Lemma evolves_refl c : evolves c c.
Proof. unfold evolves. auto. Qed.

Lemma evolves_trans c1 c2 c3 : evolves c1 c2 -> evolves c2 c3 -> evolves c1 c3.
Proof.
  intros (Hw1 & Hr1 & Hh1) (Hw2 & Hr2 & Hh2). unfold evolves.
  split; [congruence|]. split.
  - destruct Hr1 as [E1|[E1 W1]], Hr2 as [E2|[E2 W2]];
      [left; congruence | right; split; congruence | right; split; congruence
      | right; split; congruence].
  - destruct Hh1 as [E1|E1], Hh2 as [E2|E2];
      [left; congruence | by right | right; congruence | by right].
Qed.

Lemma evolves_capable c c' : evolves c c' -> capable c -> capable c'.
Proof.
  unfold evolves, capable. intros (Hw & Hr & _) Hc.
  destruct Hr as [E|[E W]]; rewrite Hw, E; [done|].
  rewrite W. done.
Qed.

Lemma evolved_refl w : evolved w w.
Proof.
  repeat split.
  - intros l c H. exists c. split; [done | apply evolves_refl].
  - intros l o H. by rewrite H.
  - intros l c' H. left. eauto.
Qed.

Lemma evolved_trans w1 w2 w3 : evolved w1 w2 -> evolved w2 w3 -> evolved w1 w3.
Proof.
  intros (A1 & B1 & C1) (A2 & B2 & C2). repeat split.
  - intros l c H. destruct (A1 l c H) as (c' & H' & E1).
    destruct (A2 l c' H') as (c'' & H'' & E2).
    exists c''. split; [done | by eapply evolves_trans].
  - intros l o H. destruct (B1 l o H) as [o' H']. by apply (B2 l o').
  - intros l c'' H''. destruct (C2 l c'' H'') as [[c' H']|[Hnone Hcap]].
    + destruct (C1 l c' H') as [[c H]|[Hnone Hcap]]; [left; eauto|].
      right. split; [done|].
      destruct (A2 l c' H') as (c2 & H2 & E2).
      rewrite H'' in H2. injection H2 as <-. by eapply evolves_capable.
    + right. split; [|done].
      destruct (heap w1 !! l) as [o|] eqn:E; [|done].
      destruct (B1 l o E) as [o' H']. by rewrite Hnone in H'.
Qed.

Lemma quiet_evolved w w' : quiet w w' -> evolved w w'.
Proof.
  intros (Hh & _). unfold evolved. rewrite Hh. apply (evolved_refl w).
Qed.

(** Only the heap matters to [evolved]. *)
Lemma evolved_heap w w1 w2 : heap w2 = heap w1 -> evolved w w1 -> evolved w w2.
Proof. intros Hh. unfold evolved. by rewrite Hh. Qed.

(** A connection object replaced by an evolved one. *)
Lemma evolved_put w w' l c c' :
  heap w !! l = Some (ConnObj c) -> evolves c c' ->
  heap w' = <[l := ConnObj c']> (heap w) -> evolved w w'.
Proof.
  intros Hl He Hh. unfold evolved. rewrite Hh. repeat split.
  - intros l0 c0 H0. destruct (decide (l0 = l)) as [->|Hne].
    + rewrite lookup_insert_eq. rewrite Hl in H0. injection H0 as <-. eauto.
    + rewrite lookup_insert_ne by done. exists c0. split; [done | apply evolves_refl].
  - intros l0 o H0. destruct (decide (l0 = l)) as [->|Hne].
    + by rewrite lookup_insert_eq.
    + rewrite lookup_insert_ne by done. by rewrite H0.
  - intros l0 c0 H0. destruct (decide (l0 = l)) as [->|Hne]; [left; eauto|].
    rewrite lookup_insert_ne in H0 by done. left. eauto.
Qed.

(** A capable connection object at a new place. *)
Lemma evolved_new w w' l c' :
  heap w !! l = None -> capable c' ->
  heap w' = <[l := ConnObj c']> (heap w) -> evolved w w'.
Proof.
  intros Hl Hc Hh. unfold evolved. rewrite Hh. repeat split.
  - intros l0 c0 H0. assert (l0 <> l) by congruence.
    rewrite lookup_insert_ne by done. exists c0. split; [done | apply evolves_refl].
  - intros l0 o H0. assert (l0 <> l) by congruence.
    rewrite lookup_insert_ne by done. by rewrite H0.
  - intros l0 c0 H0. destruct (decide (l0 = l)) as [->|Hne].
    + rewrite lookup_insert_eq in H0. injection H0 as <-. by right.
    + rewrite lookup_insert_ne in H0 by done. left. eauto.
Qed.

(** A listener object replaced by a listener object. *)
Lemma evolved_listener w w' l o o' :
  heap w !! l = Some (ListenerObj o) ->
  heap w' = <[l := ListenerObj o']> (heap w) -> evolved w w'.
Proof.
  intros Hl Hh. unfold evolved. rewrite Hh. repeat split.
  - intros l0 c0 H0. assert (l0 <> l) by congruence.
    rewrite lookup_insert_ne by done. exists c0. split; [done | apply evolves_refl].
  - intros l0 o0 H0. destruct (decide (l0 = l)) as [->|Hne].
    + by rewrite lookup_insert_eq.
    + rewrite lookup_insert_ne by done. by rewrite H0.
  - intros l0 c0 H0. destruct (decide (l0 = l)) as [->|Hne].
    + by rewrite lookup_insert_eq in H0.
    + rewrite lookup_insert_ne in H0 by done. left. eauto.
Qed.

Lemma q_bind {A B} (m : M A) (k : A -> M B) :
  keeps quiet m -> (forall a, keeps quiet (k a)) -> keeps quiet (bind m k).
Proof. apply keeps_bind; first [apply quiet_refl | apply quiet_trans]. Qed.

Lemma q_ret {A} (a : A) : keeps quiet (ret a).
Proof. apply keeps_ret, quiet_refl. Qed.

Lemma q_raise {A} e : keeps quiet (@raise A e).
Proof. apply keeps_raise, quiet_refl. Qed.

Lemma q_wrong {A} : keeps quiet (@wrong A).
Proof. apply keeps_wrong, quiet_refl. Qed.

Lemma q_lift {A} (r : exn + A) : keeps quiet (lift r).
Proof. apply keeps_lift, quiet_refl. Qed.

Create HintDb quiet.
#[local] Hint Resolve q_ret q_raise q_wrong q_lift : quiet.

(** A computation whose final world has the heap, descriptors and log
    of the first one on the face of it. *)
Ltac quiet_prim := intros ?; hnf; repeat case_match; done.

(** A computation put together from quiet ones. *)
Ltac quiet_auto :=
  repeat first
    [ match goal with |- keeps _ (bind _ _) => apply q_bind; [|intros ?] end
    | solve [auto with quiet nocore]
    | case_match ].

Lemma q_get_conn self : keeps quiet (get_conn self).
Proof. unfold get_conn. quiet_prim. Qed.

Lemma q_get_world : keeps quiet get_world.
Proof. quiet_prim. Qed.

Lemma q_os_write fd buf : keeps quiet (os_write fd buf).
Proof. unfold os_write. quiet_prim. Qed.

Lemma q_os_read fd n : keeps quiet (os_read fd n).
Proof. unfold os_read. quiet_prim. Qed.

Lemma q_os_urandom n : keeps quiet (os_urandom n).
Proof. unfold os_urandom. quiet_prim. Qed.

Lemma q_time_time : keeps quiet time_time.
Proof. unfold time_time. quiet_prim. Qed.

Lemma q_select sel timeout : keeps quiet (select sel timeout).
Proof. unfold select. quiet_prim. Qed.

#[local] Hint Resolve q_get_conn q_get_world q_os_write q_os_read q_os_urandom
  q_time_time q_select : quiet.

Lemma q__write h buf : keeps quiet (_write h buf).
Proof. unfold _write. quiet_auto. Qed.

Lemma q__read h n : keeps quiet (_read h n).
Proof. unfold _read. quiet_auto. Qed.

#[local] Hint Resolve q__write q__read : quiet.

Lemma q__send_loop fuel : forall self buf remaining,
  keeps quiet (_send_loop fuel self buf remaining).
Proof.
  induction fuel as [|fuel IH]; intros self buf remaining; simpl.
  - apply q_wrong.
  - quiet_auto; try apply IH.
Qed.

Lemma q__send self buf : keeps quiet (_send self buf).
Proof. apply q__send_loop. Qed.

Lemma q__recv_loop fuel : forall handle size buf remaining,
  keeps quiet (_recv_loop fuel handle size buf remaining).
Proof.
  induction fuel as [|fuel IH]; intros handle size buf remaining; simpl.
  - quiet_auto.
  - quiet_auto; try apply IH.
Qed.

Lemma q__recv self size : keeps quiet (_recv self size).
Proof. unfold _recv. quiet_auto; try apply q__recv_loop. Qed.

#[local] Hint Resolve q__send q__recv : quiet.

Lemma q__send_bytes self buf : keeps quiet (_send_bytes self buf).
Proof. unfold _send_bytes. quiet_auto. Qed.

Lemma q__recv_bytes self maxsize : keeps quiet (_recv_bytes self maxsize).
Proof. unfold _recv_bytes. quiet_auto. Qed.

Lemma q__check_closed self : keeps quiet (_check_closed self).
Proof. unfold _check_closed. quiet_auto. Qed.

Lemma q__check_readable self : keeps quiet (_check_readable self).
Proof. unfold _check_readable. quiet_auto. Qed.

Lemma q__check_writable self : keeps quiet (_check_writable self).
Proof. unfold _check_writable. quiet_auto. Qed.

#[local] Hint Resolve q__send_bytes q__recv_bytes q__check_closed q__check_readable
  q__check_writable : quiet.

Lemma q_fileno self : keeps quiet (fileno self).
Proof. unfold fileno. quiet_auto. Qed.

#[local] Hint Resolve q_fileno : quiet.

Lemma q_register sel obj : keeps quiet (register sel obj).
Proof. unfold register. quiet_auto. Qed.

#[local] Hint Resolve q_register : quiet.

Lemma q_register_all objs : forall sel, keeps quiet (register_all sel objs).
Proof.
  induction objs as [|obj objs IH]; intros sel; simpl; quiet_auto; try apply IH.
Qed.

Lemma q_wait_loop fuel : forall sel timeout deadline,
  keeps quiet (wait_loop fuel sel timeout deadline).
Proof.
  induction fuel as [|fuel IH]; intros sel timeout deadline; simpl.
  - apply q_wrong.
  - quiet_auto; try apply IH.
Qed.

#[local] Hint Resolve q_register_all q_wait_loop : quiet.

Lemma q_wait objs timeout : keeps quiet (wait objs timeout).
Proof. unfold wait. quiet_auto. Qed.

#[local] Hint Resolve q_wait : quiet.

Lemma q_poll self timeout : keeps quiet (poll self timeout).
Proof. unfold poll, _poll. quiet_auto. Qed.

Lemma q_send_bytes self buf offset size : keeps quiet (send_bytes self buf offset size).
Proof. unfold send_bytes. quiet_auto. Qed.

(** Without a maximum, [_recv_bytes] never answers "too long". *)
Lemma _recv_bytes_None_some self w v w' :
  _recv_bytes self None w = (Ret v, w') -> exists x, v = Some x.
Proof.
  unfold _recv_bytes, bind.
  destruct (_recv self 4 w) as [[hd|e| |] w1]; try done.
  destruct (lift (struct_unpack_i hd) w1) as [[size|e| |] w2]; try done.
  destruct (_recv self size w2) as [[x|e| |] w3]; try done.
  intros [= <- _]. eauto.
Qed.

Lemma q_recv_bytes_None self : keeps quiet (recv_bytes self None).
Proof.
  unfold recv_bytes.
  apply q_bind; [auto with quiet nocore | intros _].
  apply q_bind; [auto with quiet nocore | intros _]. cbv iota.
  intros w. unfold bind.
  pose proof (q__recv_bytes self None w) as Hq.
  destruct (_recv_bytes self None w) as [[[v|]|e| |] w1] eqn:E; try done.
  apply _recv_bytes_None_some in E as [x [=]].
Qed.

Lemma q_recv_bytes_into self buf offset : keeps quiet (recv_bytes_into self buf offset).
Proof. unfold recv_bytes_into. quiet_auto. Qed.

Lemma q_send (Obj : Type) (dumps : Obj -> exn + bytes) self obj :
  keeps quiet (send Obj dumps self obj).
Proof. unfold send. quiet_auto. Qed.

Lemma q_recv (Obj : Type) (loads : bytes -> exn + Obj) self :
  keeps quiet (recv Obj loads self).
Proof. unfold recv. quiet_auto. Qed.

Lemma same_heap_refl w : same_heap w w.
Proof. done. Qed.

Lemma same_heap_trans w1 w2 w3 : same_heap w1 w2 -> same_heap w2 w3 -> same_heap w1 w3.
Proof. unfold same_heap. congruence. Qed.

Lemma quiet_same_heap w w' : quiet w w' -> same_heap w w'.
Proof. by intros (? & _). Qed.

Lemma same_heap_evolved w w' : same_heap w w' -> evolved w w'.
Proof. intros H. apply (evolved_heap w w); [done | apply evolved_refl]. Qed.

Lemma h_of_q {A} (m : M A) : keeps quiet m -> keeps same_heap m.
Proof. intros H w. apply quiet_same_heap, H. Qed.

Lemma e_of_h {A} (m : M A) : keeps same_heap m -> keeps evolved m.
Proof. intros H w. apply same_heap_evolved, H. Qed.

Lemma e_of_q {A} (m : M A) : keeps quiet m -> keeps evolved m.
Proof. intros H. by apply e_of_h, h_of_q. Qed.

Ltac same_heap_prim := intros ?; hnf; repeat case_match; done.

Lemma h_os_close fd : keeps same_heap (os_close fd).
Proof. unfold os_close. same_heap_prim. Qed.

Lemma h_os_pipe : keeps same_heap os_pipe.
Proof. unfold os_pipe. same_heap_prim. Qed.

Lemma h_socketpair : keeps same_heap socketpair.
Proof. unfold socketpair. same_heap_prim. Qed.

Lemma h_sock_accept fd : keeps same_heap (sock_accept fd).
Proof. unfold sock_accept. same_heap_prim. Qed.

Lemma h_sock_connect a : keeps same_heap (sock_connect a).
Proof. unfold sock_connect. same_heap_prim. Qed.

Lemma h_get_listener self : keeps same_heap (get_listener self).
Proof. unfold get_listener. same_heap_prim. Qed.

Lemma e_bind {A B} (m : M A) (k : A -> M B) :
  keeps evolved m -> (forall a, keeps evolved (k a)) -> keeps evolved (bind m k).
Proof. apply keeps_bind; first [apply evolved_refl | apply evolved_trans]. Qed.

Lemma e_ret {A} (a : A) : keeps evolved (ret a).
Proof. apply keeps_ret, evolved_refl. Qed.

Lemma e_raise {A} e : keeps evolved (@raise A e).
Proof. apply keeps_raise, evolved_refl. Qed.

Lemma e_wrong {A} : keeps evolved (@wrong A).
Proof. apply keeps_wrong, evolved_refl. Qed.

Lemma e_lift {A} (r : exn + A) : keeps evolved (lift r).
Proof. apply keeps_lift, evolved_refl. Qed.

Lemma e_try_finally {A} (body : M A) (fin : M unit) :
  keeps evolved body -> keeps evolved fin -> keeps evolved (try_finally body fin).
Proof. apply keeps_try_finally; first [apply evolved_refl | apply evolved_trans]. Qed.

Create HintDb evolved.
#[local] Hint Resolve e_ret e_raise e_wrong e_lift : evolved.

(** A computation put together from ones that keep [evolved]. *)
Ltac evolved_auto :=
  repeat first
    [ match goal with |- keeps _ (bind _ _) => apply e_bind; [|intros ?] end
    | match goal with
      | |- keeps _ (try_finally _ _) => apply e_try_finally
      end
    | solve [auto with evolved nocore]
    | solve [apply e_of_q; auto with quiet nocore]
    | solve [apply e_of_h; auto using h_os_close, h_os_pipe, h_socketpair, h_sock_accept,
                                      h_sock_connect, h_get_listener]
    | case_match ].

Lemma e__close self : keeps evolved (_close self).
Proof. unfold _close. evolved_auto. Qed.

Lemma e_set_handle_None self : keeps evolved (set_handle self None).
Proof.
  intros w. unfold set_handle, bind, get_conn.
  destruct (heap w !! self) as [[c|l]|] eqn:Hc; simpl; try apply evolved_refl.
  eapply evolved_put; [exact Hc | | reflexivity].
  unfold evolves. simpl. auto.
Qed.

#[local] Hint Resolve e__close e_set_handle_None : evolved.

Lemma e___del__ self : keeps evolved (__del__ self).
Proof. unfold __del__. evolved_auto. Qed.

Lemma e_close self : keeps evolved (close self).
Proof. unfold close. evolved_auto. Qed.

#[local] Hint Resolve e___del__ e_close : evolved.

Lemma e__bad_message_length {A} self : keeps evolved (@_bad_message_length A self).
Proof.
  intros w. unfold _bad_message_length. unfold bind at 1. unfold get_conn.
  destruct (heap w !! self) as [[c|l]|] eqn:Hc; simpl; try apply evolved_refl.
  destruct (_writable c) eqn:Hw.
  - unfold set_readable, bind, get_conn. rewrite Hc. simpl.
    eapply evolved_put; [exact Hc | | reflexivity].
    unfold evolves. simpl. auto.
  - apply (e_bind (close self) (fun _ => raise (OSError "bad message length")));
      [apply e_close | intros _; apply e_raise].
Qed.

#[local] Hint Resolve e__bad_message_length : evolved.

Lemma e_recv_bytes self maxlength : keeps evolved (recv_bytes self maxlength).
Proof. unfold recv_bytes. evolved_auto. Qed.

Lemma e_send_bytes self buf offset size : keeps evolved (send_bytes self buf offset size).
Proof. apply e_of_q, q_send_bytes. Qed.

#[local] Hint Resolve e_recv_bytes e_send_bytes : evolved.

Lemma e_deliver_challenge hmac_md5 connection authkey :
  keeps evolved (deliver_challenge hmac_md5 connection authkey).
Proof. unfold deliver_challenge. evolved_auto. Qed.

Lemma e_answer_challenge hmac_md5 connection authkey :
  keeps evolved (answer_challenge hmac_md5 connection authkey).
Proof. unfold answer_challenge. evolved_auto. Qed.

#[local] Hint Resolve e_deliver_challenge e_answer_challenge : evolved.

Lemma e_new_conn c : capable c -> keeps evolved (new_object (ConnObj c)).
Proof.
  intros Hc w. unfold new_object. simpl.
  eapply evolved_new; [apply fresh_lookup | exact Hc | reflexivity].
Qed.

Lemma e_Connection handle r wr : keeps evolved (Connection handle r wr).
Proof.
  unfold Connection. destruct (handle <? 0); [apply e_raise|].
  destruct r, wr; simpl; try apply e_raise; by apply e_new_conn.
Qed.

#[local] Hint Resolve e_Connection : evolved.

Lemma e_Pipe duplex : keeps evolved (Pipe duplex).
Proof. unfold Pipe. evolved_auto. Qed.

Lemma e_SocketListener_accept self : keeps evolved (SocketListener_accept self).
Proof.
  intros w. unfold SocketListener_accept. unfold bind at 1. unfold get_listener.
  destruct (heap w !! self) as [[c|l]|] eqn:Hl; simpl; try apply evolved_refl.
  destruct (_listener l) as [sl|]; [|apply evolved_refl].
  unfold bind at 1.
  pose proof (h_sock_accept (_socket sl) w) as Hacc.
  destruct (sock_accept (_socket sl) w) as [[[s peer]|e| |] w1]; simpl in Hacc;
    try by apply same_heap_evolved.
  unfold bind, modify. simpl.
  eapply evolved_trans; [|apply e_Connection].
  eapply evolved_listener; [exact Hl|]. simpl. by rewrite Hacc.
Qed.

#[local] Hint Resolve e_SocketListener_accept : evolved.

Lemma e_Listener_accept hmac_md5 self : keeps evolved (Listener_accept hmac_md5 self).
Proof. unfold Listener_accept. evolved_auto. Qed.

Lemma e_Client hmac_md5 has_AF_UNIX a family authkey :
  keeps evolved (Client hmac_md5 has_AF_UNIX a family authkey).
Proof.
  unfold Client, _validate_family, SocketClient, PipeClient. evolved_auto.
Qed.

(** ** Lifetimes of connection objects *)

Section Lifetimes.

Variable Obj : Type.
Variable dumps : Obj -> exn + bytes.
Variable loads : bytes -> exn + Obj.
Variable hmac_md5 : bytes -> bytes -> bytes.
Variable has_AF_UNIX : bool.

Local Abbreviation after := (after Obj dumps loads hmac_md5 has_AF_UNIX).
Local Abbreviation after_all := (after_all Obj dumps loads hmac_md5 has_AF_UNIX).

Lemma after_evolved c w : evolved w (after c w).
Proof.
  destruct c; simpl.
  - apply e_Connection.
  - apply e_Pipe.
  - apply e_close.
  - apply e___del__.
  - apply e_of_q, q_fileno.
  - apply e_send_bytes.
  - apply e_of_q, q_send.
  - apply e_recv_bytes.
  - apply e_of_q, q_recv_bytes_into.
  - apply e_of_q, q_recv.
  - apply e_of_q, q_poll.
  - apply e_of_q, q_wait.
  - apply e_deliver_challenge.
  - apply e_answer_challenge.
  - apply e_Listener_accept.
  - apply e_Client.
Qed.

Lemma after_all_evolved cs : forall w, evolved w (after_all cs w).
Proof.
  induction cs as [|c cs IH]; intros w; simpl.
  - apply evolved_refl.
  - eapply evolved_trans; [apply after_evolved | apply IH].
Qed.

Lemma after_plain c w : plain c = true -> quiet w (after c w).
Proof.
  destruct c; simpl; try discriminate; intros Hp.
  - apply q_fileno.
  - apply q_send_bytes.
  - apply q_send.
  - destruct maxlength; [discriminate | apply q_recv_bytes_None].
  - apply q_recv_bytes_into.
  - apply q_recv.
  - apply q_poll.
  - apply q_wait.
Qed.

Lemma after_all_plain cs : forall w, forallb plain cs = true -> quiet w (after_all cs w).
Proof.
  induction cs as [|c cs IH]; intros w; simpl.
  - intros _. apply quiet_refl.
  - intros [Hc Hcs]%andb_prop.
    eapply quiet_trans; [by apply after_plain | by apply IH].
Qed.

(** X1. Whatever is called afterwards, and however the calls end, a
    connection object stays a connection object: it writes if and only
    if it did, it does not gain the ability to read, its handle is the
    one it had or none, and if it could read or write it still can do
    one of the two. *)
Theorem connection_lifetime cs w l c :
  heap w !! l = Some (ConnObj c) ->
  exists c',
    heap (after_all cs w) !! l = Some (ConnObj c') /\
    _writable c' = _writable c /\
    (_readable c' = true -> _readable c = true) /\
    (forall h, _handle c' = Some h -> _handle c = Some h) /\
    (_readable c || _writable c = true -> _readable c' || _writable c' = true).
Proof.
  intros Hl.
  destruct (after_all_evolved cs w) as (Hc & _ & _).
  destruct (Hc l c Hl) as (c' & Hl' & Hev).
  exists c'. split; [done|].
  pose proof (evolves_capable _ _ Hev) as Hcap.
  destruct Hev as (Hw & Hr & Hh).
  repeat match goal with |- _ /\ _ => split end; try done.
  - intros Hr'. destruct Hr as [<-|[Hr _]]; congruence.
  - intros h Hh'. destruct Hh as [<-|Hh]; congruence.
Qed.

(** X2. A connection object that any sequence of calls has created can
    read or write, whatever else was called on it since. *)
Theorem created_connections_capable cs w l c' :
  heap w !! l = None ->
  heap (after_all cs w) !! l = Some (ConnObj c') ->
  _readable c' || _writable c' = true.
Proof.
  intros Hl Hl'.
  destruct (after_all_evolved cs w) as (_ & _ & Hn).
  destruct (Hn l c' Hl') as [(c & Hc)|(_ & Hcap)]; [congruence | done].
Qed.

(** X3. [fileno], [send_bytes], [send], [recv_bytes] without a maximum
    length, [recv_bytes_into], [recv], [poll] and [wait] change no object,
    close no descriptor and release none, whatever they find on the wire
    and however they end. *)
Theorem plain_calls_keep_objects cs w :
  forallb plain cs = true ->
  heap (after_all cs w) = heap w /\
  fds (after_all cs w) = fds w /\
  released (after_all cs w) = released w.
Proof. intros H. by apply after_all_plain. Qed.

End Lifetimes.

Lemma connection_lifetime_witness :
  exists c',
    heap (after_all bytes id_dumps id_loads toy_mac true
            [CallRecvBytes bytes 0%nat (Some 4); CallClose bytes 0%nat] w_pair_hello) !! 0%nat =
      Some (ConnObj c') /\
    _writable c' = true /\
    (_readable c' = true -> true = true) /\
    (forall h, _handle c' = Some h -> Some 0 = Some h) /\
    (true = true -> _readable c' || _writable c' = true).
Proof.
  apply (connection_lifetime bytes id_dumps id_loads toy_mac true
           [CallRecvBytes bytes 0%nat (Some 4); CallClose bytes 0%nat]
           w_pair_hello 0%nat (Conn (Some 0) true true)).
  vm_compute. reflexivity.
Defined.

Lemma created_connections_capable_witness :
  _readable (Conn (Some 0) false true) || _writable (Conn (Some 0) false true) = true.
Proof.
  apply (created_connections_capable bytes id_dumps id_loads toy_mac true
           [CallPipe bytes true;
            CallSendBytes bytes 1%nat (of_bytes (bs "hello")) 0 None;
            CallRecvBytes bytes 0%nat (Some 4)]
           w_init 0%nat (Conn (Some 0) false true)).
  - vm_compute. reflexivity.
  - vm_compute. reflexivity.
Defined.

Lemma plain_calls_keep_objects_witness :
  heap (after_all bytes id_dumps id_loads toy_mac true
          [CallRecv bytes 0%nat; CallPoll bytes 0%nat (Some 0)] (w_cut [x00; x00])) =
    heap (w_cut [x00; x00]) /\
  fds (after_all bytes id_dumps id_loads toy_mac true
         [CallRecv bytes 0%nat; CallPoll bytes 0%nat (Some 0)] (w_cut [x00; x00])) =
    fds (w_cut [x00; x00]) /\
  released (after_all bytes id_dumps id_loads toy_mac true
              [CallRecv bytes 0%nat; CallPoll bytes 0%nat (Some 0)] (w_cut [x00; x00])) =
    released (w_cut [x00; x00]).
Proof.
  apply (plain_calls_keep_objects bytes id_dumps id_loads toy_mac true
           [CallRecv bytes 0%nat; CallPoll bytes 0%nat (Some 0)] (w_cut [x00; x00])).
  reflexivity.
Defined.

(** ** Sending a part of a buffer *)

(** A slice of a buffer of one-byte items. *)
Lemma mv_slice_bytes m offset size :
  itemsize m = 1 -> 0 <= offset -> 0 <= size ->
  offset + size <= Z.of_nat (length (contents m)) ->
  mv_slice m offset (offset + size) =
    take (Z.to_nat size) (drop (Z.to_nat offset) (contents m)).
Proof.
  intros Hi Ho Hs Hn.
  unfold mv_slice, mv_window, mv_len, clamp. rewrite Hi, Z.div_1_r.
  destruct (Z.ltb_spec offset 0); [lia|].
  destruct (Z.ltb_spec (offset + size) 0); [lia|].
  rewrite !Z.min_l by lia. rewrite !Z.mul_1_r.
  rewrite Z.max_r by lia. by replace (offset + size - offset) with size by lia.
Qed.

(** The buffer [send_bytes] slices: the bytes themselves. *)
Lemma send_bytes_view buf :
  1 <= itemsize buf ->
  let m := if itemsize buf >? 1 then of_bytes (contents buf) else buf in
  itemsize m = 1 /\ contents m = contents buf /\
  mv_len m = Z.of_nat (length (contents buf)).
Proof.
  intros Hi. unfold mv_len.
  destruct (Z.gtb_spec (itemsize buf) 1); simpl.
  - by rewrite Z.div_1_r.
  - assert (itemsize buf = 1) as -> by lia. by rewrite Z.div_1_r.
Qed.

(** X4. [send_bytes(buf, offset, size)] counts [offset] and [size] in
    bytes, whatever the size of the buffer's items.  It refuses a window
    that does not lie in the buffer with [ValueError] before anything is
    written.  A window in the buffer of at most 2^31-1 bytes is sent as
    one frame that holds exactly its bytes; a longer one is refused by
    the packing of the header, and nothing is written either. *)
Theorem send_bytes_window w self c h d ch q buf offset :
  open_on w self c h d -> _writable c = true ->
  wr d = Some ch -> chans w !! ch = Some q -> nrd q <> 0%nat ->
  1 <= itemsize buf ->
  let n := Z.of_nat (length (contents buf)) in
  let too_big :=
    StructError "'i' format requires -2147483648 <= number <= 2147483647" in
  (forall size, offset < 0 ->
     send_bytes self buf offset size w = (Raise (ValueError "offset is negative"), w)) /\
  (forall size, n < offset ->
     send_bytes self buf offset size w = (Raise (ValueError "buffer length < offset"), w)) /\
  (forall size, 0 <= offset <= n -> size < 0 ->
     send_bytes self buf offset (Some size) w = (Raise (ValueError "size is negative"), w)) /\
  (forall size, 0 <= offset <= n -> n < offset + size ->
     0 <= size ->
     send_bytes self buf offset (Some size) w =
       (Raise (ValueError "buffer length < offset + size"), w)) /\
  (forall size, 0 <= offset -> 0 <= size <= 2147483647 -> offset + size <= n ->
     exists s',
       send_bytes self buf offset (Some size) w =
         (Ret tt,
          moved w ch q
            (data q ++ frame (take (Z.to_nat size) (drop (Z.to_nat offset) (contents buf))))
            s')) /\
  (forall size, 0 <= offset -> 2147483647 < size -> offset + size <= n ->
     send_bytes self buf offset (Some size) w = (Raise too_big, w)) /\
  (0 <= offset <= n -> n - offset <= 2147483647 ->
   exists s',
     send_bytes self buf offset None w =
       (Ret tt, moved w ch q (data q ++ frame (drop (Z.to_nat offset) (contents buf))) s')) /\
  (0 <= offset <= n -> 2147483647 < n - offset ->
   send_bytes self buf offset None w = (Raise too_big, w)).
Proof.
  intros Ho Hwr Hw Hq Hr Hi n too_big. pose proof Ho as (Hc & Hh & Hd).
  destruct (send_bytes_view buf Hi) as (Hi1 & Hcont & Hlen).
  assert (forall size,
            send_bytes self buf offset size w =
              let m := if itemsize buf >? 1 then of_bytes (contents buf) else buf in
              (if offset <? 0 then raise (ValueError "offset is negative")
               else if mv_len m <? offset then raise (ValueError "buffer length < offset")
               else
                 match size with
                 | None => _send_bytes self (mv_slice m offset (offset + (mv_len m - offset)))
                 | Some size =>
                     if size <? 0 then raise (ValueError "size is negative")
                     else if offset + size >? mv_len m
                     then raise (ValueError "buffer length < offset + size")
                     else _send_bytes self (mv_slice m offset (offset + size))
                 end) w) as Hsend.
  { intros size. unfold send_bytes.
    rewrite (bind_ret_eq _ _ _ _ _ (_check_closed_ok _ _ _ _ Hc Hh)).
    by rewrite (bind_ret_eq _ _ _ _ _ (_check_writable_ok _ _ _ Hc Hwr)). }
  cbv zeta in Hsend, Hi1, Hcont, Hlen.
  set (m := if itemsize buf >? 1 then of_bytes (contents buf) else buf) in *.
  fold n in Hlen.
  assert (Hsome : forall size, 0 <= offset -> 0 <= size -> offset + size <= n ->
            send_bytes self buf offset (Some size) w =
              _send_bytes self (take (Z.to_nat size) (drop (Z.to_nat offset) (contents buf))) w).
  { intros size Hoff Hpos Hfit. rewrite Hsend, Hlen.
    destruct (Z.ltb_spec offset 0); [lia|].
    destruct (Z.ltb_spec n offset); [lia|].
    destruct (Z.ltb_spec size 0); [lia|].
    destruct (Z.gtb_spec (offset + size) n); [lia|].
    by rewrite mv_slice_bytes, Hcont by (rewrite ?Hcont; fold n; lia || done). }
  assert (Hnone : 0 <= offset <= n ->
            send_bytes self buf offset None w =
              _send_bytes self (drop (Z.to_nat offset) (contents buf)) w).
  { intros Hoff. rewrite Hsend, Hlen.
    destruct (Z.ltb_spec offset 0); [lia|].
    destruct (Z.ltb_spec n offset); [lia|].
    rewrite mv_slice_bytes, Hcont by (rewrite ?Hcont; fold n; lia || done).
    by rewrite take_ge by (rewrite length_drop; lia). }
  repeat match goal with |- _ /\ _ => split end.
  - intros size Hneg. rewrite Hsend.
    by destruct (Z.ltb_spec offset 0); [|lia].
  - intros size Hbig. rewrite Hsend, Hlen.
    destruct (Z.ltb_spec offset 0); [lia|].
    by destruct (Z.ltb_spec n offset); [|lia].
  - intros size Hoff Hneg. rewrite Hsend, Hlen.
    destruct (Z.ltb_spec offset 0); [lia|].
    destruct (Z.ltb_spec n offset); [lia|].
    by destruct (Z.ltb_spec size 0); [|lia].
  - intros size Hoff Hbig Hpos. rewrite Hsend, Hlen.
    destruct (Z.ltb_spec offset 0); [lia|].
    destruct (Z.ltb_spec n offset); [lia|].
    destruct (Z.ltb_spec size 0); [lia|].
    by destruct (Z.gtb_spec (offset + size) n); [|lia].
  - intros size Hoff Hpos Hfit. rewrite Hsome by lia.
    apply (_send_bytes_ok self c h d ch w q); try done.
    rewrite length_take, length_drop. lia.
  - intros size Hoff Hbig Hfit. rewrite Hsome by lia.
    apply _send_bytes_too_big.
    rewrite length_take, length_drop. unfold n in Hfit. lia.
  - intros Hoff Hfit. rewrite Hnone by done.
    apply (_send_bytes_ok self c h d ch w q); try done.
    rewrite length_drop. unfold n in Hfit. lia.
  - intros Hoff Hbig. rewrite Hnone by done.
    apply _send_bytes_too_big.
    rewrite length_drop. unfold n in Hoff, Hbig. lia.
Qed.

Lemma send_bytes_window_witness :
  (exists s',
     send_bytes 1%nat (Buffer 4 (bs "abcdefgh")) 2 (Some 3) w_pipe =
       (Ret tt, moved w_pipe 0%nat (Chan [] 1 1) (frame (bs "cde")) s')) /\
  send_bytes 1%nat (of_bytes two_gib) 0 None w_pipe =
    (Raise (StructError "'i' format requires -2147483648 <= number <= 2147483647"), w_pipe).
Proof.
  split.
  - destruct (send_bytes_window w_pipe 1%nat (Conn (Some 1) false true) 1
                (FDesc None (Some 0%nat)) 0%nat (Chan [] 1 1)
                (Buffer 4 (bs "abcdefgh")) 2) as (_ & _ & _ & _ & Hsend & _);
      [ by_evaluation | reflexivity | reflexivity | vm_compute; reflexivity
      | simpl; lia | simpl; lia | ].
    apply (Hsend 3); simpl; lia.
  - assert (Hlen : Z.of_nat (length (contents (of_bytes two_gib))) = 2147483648).
    { unfold of_bytes, two_gib. cbn [contents]. rewrite repeat_length. lia. }
    destruct (send_bytes_window w_pipe 1%nat (Conn (Some 1) false true) 1
                (FDesc None (Some 0%nat)) 0%nat (Chan [] 1 1)
                (of_bytes two_gib) 0) as (_ & _ & _ & _ & _ & _ & _ & Hbig);
      [ by_evaluation | reflexivity | reflexivity | vm_compute; reflexivity
      | discriminate | unfold of_bytes; cbn [itemsize]; lia | ].
    apply Hbig; rewrite Hlen; lia.
Defined.

(** ** One-way connections *)

Lemma _check_readable_raises w self c :
  heap w !! self = Some (ConnObj c) -> _readable c = false ->
  _check_readable self w = (Raise (OSError "connection is write-only"), w).
Proof.
  intros Hc Hr. unfold _check_readable.
  rewrite (bind_ret_eq _ _ _ _ _ (get_conn_eq _ _ _ Hc)). by rewrite Hr.
Qed.

Lemma _check_writable_raises w self c :
  heap w !! self = Some (ConnObj c) -> _writable c = false ->
  _check_writable self w = (Raise (OSError "connection is read-only"), w).
Proof.
  intros Hc Hr. unfold _check_writable.
  rewrite (bind_ret_eq _ _ _ _ _ (get_conn_eq _ _ _ Hc)). by rewrite Hr.
Qed.

(** X5. An open connection that does not write refuses [send] and
    [send_bytes], and one that does not read refuses [recv],
    [recv_bytes], [recv_bytes_into] and [poll]; nothing is written, read
    or changed. *)
Theorem direction_enforced
        (Obj : Type) (dumps : Obj -> exn + bytes) (loads : bytes -> exn + Obj)
        w self c h :
  heap w !! self = Some (ConnObj c) -> _handle c = Some h ->
  (_writable c = false ->
   (forall obj, send Obj dumps self obj w = (Raise (OSError "connection is read-only"), w)) /\
   (forall buf offset size,
      send_bytes self buf offset size w = (Raise (OSError "connection is read-only"), w))) /\
  (_readable c = false ->
   recv Obj loads self w = (Raise (OSError "connection is write-only"), w) /\
   (forall maxlength,
      recv_bytes self maxlength w = (Raise (OSError "connection is write-only"), w)) /\
   (forall buf offset,
      recv_bytes_into self buf offset w = (Raise (OSError "connection is write-only"), w)) /\
   (forall timeout, poll self timeout w = (Raise (OSError "connection is write-only"), w))).
Proof.
  intros Hc Hh.
  pose proof (_check_closed_ok _ _ _ _ Hc Hh) as Hopen.
  split.
  - intros Hw. pose proof (_check_writable_raises _ _ _ Hc Hw) as Hno.
    split; intros; unfold send, send_bytes;
      rewrite (bind_ret_eq _ _ _ _ _ Hopen); by rewrite (bind_raise_eq _ _ _ _ _ Hno).
  - intros Hr. pose proof (_check_readable_raises _ _ _ Hc Hr) as Hno.
    repeat match goal with |- _ /\ _ => split end;
      intros; unfold recv, recv_bytes, recv_bytes_into, poll;
      rewrite (bind_ret_eq _ _ _ _ _ Hopen); by rewrite (bind_raise_eq _ _ _ _ _ Hno).
Qed.

Lemma direction_enforced_witness :
  send_bytes 0%nat (of_bytes (bs "x")) 0 None w_pipe =
    (Raise (OSError "connection is read-only"), w_pipe) /\
  recv_bytes 1%nat None w_pipe = (Raise (OSError "connection is write-only"), w_pipe) /\
  poll 1%nat (Some 0) w_pipe = (Raise (OSError "connection is write-only"), w_pipe).
Proof.
  split.
  - destruct (direction_enforced bytes id_dumps id_loads w_pipe 0%nat
                (Conn (Some 0) true false) 0) as [Hw _];
      [ vm_compute; reflexivity | reflexivity | ].
    destruct (Hw eq_refl) as [_ Hsend]. apply Hsend.
  - destruct (direction_enforced bytes id_dumps id_loads w_pipe 1%nat
                (Conn (Some 1) false true) 1) as [_ Hr];
      [ vm_compute; reflexivity | reflexivity | ].
    destruct (Hr eq_refl) as (_ & Hrecv & _ & Hpoll).
    split; [apply Hrecv | apply Hpoll].
Defined.

(** ** Objects and sequences of messages *)

Lemma moved_id w ch q : chans w !! ch = Some q -> moved w ch q (data q) (sched w) = w.
Proof.
  intros Hq. unfold moved. rewrite chan_eta, insert_id by done. by destruct w.
Qed.

Lemma open_on_moved w ch q x s self c h d :
  open_on w self c h d -> open_on (moved w ch q x s) self c h d.
Proof. done. Qed.

Lemma chans_moved w ch q x s :
  chans (moved w ch q x s) !! ch = Some (Chan x (nwr q) (nrd q)).
Proof. unfold moved. simpl. apply lookup_insert_eq. Qed.

(** [recv_bytes()] on a readable connection takes one frame. *)
Lemma recv_bytes_None_ok w self c h d ch q payload rest :
  open_on w self c h d -> _readable c = true ->
  rd d = Some ch -> chans w !! ch = Some q ->
  data q = frame payload ++ rest ->
  Z.of_nat (length payload) <= 2147483647 ->
  exists s',
    recv_bytes self None w = (Ret payload, moved w ch q rest s').
Proof.
  intros Ho Hread Hrd Hq Hdata Hmax. pose proof Ho as (Hc & Hh & Hd).
  destruct (_recv_bytes_ok self c h d ch w q payload rest None) as [s' Hs']; try done.
  exists s'. unfold recv_bytes.
  rewrite (bind_ret_eq _ _ _ _ _ (_check_closed_ok _ _ _ _ Hc Hh)).
  rewrite (bind_ret_eq _ _ _ _ _ (_check_readable_ok _ _ _ Hc Hread)).
  by rewrite (bind_ret_eq _ _ _ _ _ Hs').
Qed.

Lemma send_each_ok tx c h d ch ps :
  forall w q,
    open_on w tx c h d -> _writable c = true ->
    wr d = Some ch -> chans w !! ch = Some q -> nrd q <> 0%nat ->
    Forall (fun p => Z.of_nat (length p) <= 2147483647) ps ->
    exists s',
      send_each tx ps w = (Ret tt, moved w ch q (data q ++ concat (map frame ps)) s').
Proof.
  induction ps as [|p ps IH]; intros w q Ho Hwr Hw Hq Hr Hps; simpl.
  - exists (sched w). by rewrite app_nil_r, moved_id.
  - apply Forall_cons in Hps as [Hp Hps].
    destruct (send_bytes_ok w tx c h d ch q p Ho Hwr Hw Hq Hr Hp) as [s1 H1].
    rewrite (bind_ret_eq _ _ _ _ _ H1).
    destruct (IH (moved w ch q (data q ++ frame p) s1)
                 (Chan (data q ++ frame p) (nwr q) (nrd q))) as [s2 H2]; try done.
    { apply chans_moved. }
    exists s2. rewrite H2, moved_moved. simpl. by rewrite <- app_assoc.
Qed.

Lemma recv_each_ok rx c h d ch ps :
  forall w q rest,
    open_on w rx c h d -> _readable c = true ->
    rd d = Some ch -> chans w !! ch = Some q ->
    data q = concat (map frame ps) ++ rest ->
    Forall (fun p => Z.of_nat (length p) <= 2147483647) ps ->
    exists s',
      recv_each rx (length ps) w = (Ret ps, moved w ch q rest s').
Proof.
  induction ps as [|p ps IH]; intros w q rest Ho Hrd Hr Hq Hdata Hps; simpl.
  - exists (sched w). simpl in Hdata. by rewrite <- Hdata, moved_id.
  - apply Forall_cons in Hps as [Hp Hps].
    simpl in Hdata. rewrite <- app_assoc in Hdata.
    destruct (recv_bytes_None_ok w rx c h d ch q p _ Ho Hrd Hr Hq Hdata Hp) as [s1 H1].
    rewrite (bind_ret_eq _ _ _ _ _ H1).
    destruct (IH (moved w ch q (concat (map frame ps) ++ rest) s1)
                 (Chan (concat (map frame ps) ++ rest) (nwr q) (nrd q)) rest)
      as [s2 H2]; try done.
    { apply chans_moved. }
    exists s2. rewrite (bind_ret_eq _ _ _ _ _ H2), moved_moved. done.
Qed.

(** X6. Messages arrive whole and in the order they were sent: after
    [send_bytes] of each of a list of byte strings on one end, so many
    [recv_bytes] on the other end return the list, and leave the channel
    empty. *)
Theorem messages_in_order w tx rx ctx crx htx hrx dtx drx ch q ps :
  open_on w tx ctx htx dtx -> _writable ctx = true -> wr dtx = Some ch ->
  open_on w rx crx hrx drx -> _readable crx = true -> rd drx = Some ch ->
  chans w !! ch = Some q -> data q = [] -> nrd q <> 0%nat ->
  Forall (fun p => Z.of_nat (length p) <= 2147483647) ps ->
  exists w1 w2,
    send_each tx ps w = (Ret tt, w1) /\
    queue w1 ch = Some (concat (map frame ps)) /\
    recv_each rx (length ps) w1 = (Ret ps, w2) /\
    queue w2 ch = Some [].
Proof.
  intros Htx Hwr Hw Hrx Hread Hrd Hq Hdata Hr Hps.
  destruct (send_each_ok tx ctx htx dtx ch ps w q) as [s1 H1]; try done.
  rewrite Hdata in H1. simpl in H1.
  destruct (recv_each_ok rx crx hrx drx ch ps
              (moved w ch q (concat (map frame ps)) s1)
              (Chan (concat (map frame ps)) (nwr q) (nrd q)) []) as [s2 H2]; try done.
  { apply chans_moved. }
  { simpl. by rewrite app_nil_r. }
  eexists _, _. split; [exact H1|].
  split; [unfold queue; by rewrite chans_moved|].
  split; [exact H2|].
  unfold queue. by rewrite chans_moved.
Qed.

Lemma messages_in_order_witness :
  exists w1 w2,
    send_each 1%nat [bs "one"; []; bs "three"] w_pipe = (Ret tt, w1) /\
    queue w1 0%nat = Some (concat (map frame [bs "one"; []; bs "three"])) /\
    recv_each 0%nat 3 w1 = (Ret [bs "one"; []; bs "three"], w2) /\
    queue w2 0%nat = Some [].
Proof.
  apply (messages_in_order w_pipe 1%nat 0%nat
           (Conn (Some 1) false true) (Conn (Some 0) true false) 1 0
           (FDesc None (Some 0%nat)) (FDesc (Some 0%nat) None) 0%nat (Chan [] 1 1)
           [bs "one"; []; bs "three"]);
    [ by_evaluation | reflexivity | reflexivity
    | by_evaluation | reflexivity | reflexivity
    | vm_compute; reflexivity | reflexivity | simpl; lia | ].
  repeat constructor; simpl; lia.
Defined.

Section Objects.

Variable Obj : Type.
Variable dumps : Obj -> exn + bytes.
Variable loads : bytes -> exn + Obj.

(** [send(obj)] on a writable connection sends the serialized object as
    one frame. *)
Lemma send_ok w self c h d ch q obj s :
  open_on w self c h d -> _writable c = true ->
  wr d = Some ch -> chans w !! ch = Some q -> nrd q <> 0%nat ->
  dumps obj = inr s -> Z.of_nat (length s) <= 2147483647 ->
  exists s', send Obj dumps self obj w = (Ret tt, moved w ch q (data q ++ frame s) s').
Proof.
  intros Ho Hwr Hw Hq Hr Hs Hn. pose proof Ho as (Hc & Hh & Hd).
  destruct (_send_bytes_ok self c h d ch w q s Ho Hw Hq Hr Hn) as [s' Hs'].
  exists s'. rewrite <- Hs'. unfold send.
  rewrite (bind_ret_eq _ _ _ _ _ (_check_closed_ok _ _ _ _ Hc Hh)).
  rewrite (bind_ret_eq _ _ _ _ _ (_check_writable_ok _ _ _ Hc Hwr)).
  by rewrite Hs.
Qed.

(** [recv()] on a readable connection takes one frame and decodes it. *)
Lemma recv_ok w self c h d ch q payload rest :
  open_on w self c h d -> _readable c = true ->
  rd d = Some ch -> chans w !! ch = Some q ->
  data q = frame payload ++ rest ->
  Z.of_nat (length payload) <= 2147483647 ->
  exists s',
    recv Obj loads self w =
      (match loads payload with inr o => Ret o | inl e => Raise e end,
       moved w ch q rest s').
Proof.
  intros Ho Hread Hrd Hq Hdata Hmax. pose proof Ho as (Hc & Hh & Hd).
  destruct (_recv_bytes_ok self c h d ch w q payload rest None) as [s' Hs']; try done.
  exists s'. unfold recv.
  rewrite (bind_ret_eq _ _ _ _ _ (_check_closed_ok _ _ _ _ Hc Hh)).
  rewrite (bind_ret_eq _ _ _ _ _ (_check_readable_ok _ _ _ Hc Hread)).
  rewrite (bind_ret_eq _ _ _ _ _ Hs'). by destruct (loads payload).
Qed.

(** X7. [send(obj)] serializes before it writes: when the serializer
    fails, its error is raised and nothing is written; else the
    serialized object travels as one frame, and [recv()] on the other
    end answers what the deserializer makes of exactly these bytes (its
    error, if it fails), and leaves the channel empty. *)
Theorem object_round_trip w tx rx ctx crx htx hrx dtx drx ch q obj :
  open_on w tx ctx htx dtx -> _writable ctx = true -> wr dtx = Some ch ->
  open_on w rx crx hrx drx -> _readable crx = true -> rd drx = Some ch ->
  chans w !! ch = Some q -> data q = [] -> nrd q <> 0%nat ->
  match dumps obj with
  | inl e => send Obj dumps tx obj w = (Raise e, w)
  | inr s =>
      Z.of_nat (length s) <= 2147483647 ->
      exists w1 w2,
        send Obj dumps tx obj w = (Ret tt, w1) /\
        queue w1 ch = Some (frame s) /\
        recv Obj loads rx w1 =
          (match loads s with inr o => Ret o | inl e => Raise e end, w2) /\
        queue w2 ch = Some []
  end.
Proof.
  intros Htx Hwr Hw Hrx Hread Hrd Hq Hdata Hr.
  destruct (dumps obj) as [e|s] eqn:Hs.
  - pose proof Htx as (Hc & Hh & Hd). unfold send.
    rewrite (bind_ret_eq _ _ _ _ _ (_check_closed_ok _ _ _ _ Hc Hh)).
    rewrite (bind_ret_eq _ _ _ _ _ (_check_writable_ok _ _ _ Hc Hwr)).
    by rewrite Hs.
  - intros Hn.
    destruct (send_ok w tx ctx htx dtx ch q obj s) as [s1 H1]; try done.
    rewrite Hdata in H1. simpl in H1.
    destruct (recv_ok (moved w ch q (frame s) s1) rx crx hrx drx ch
                (Chan (frame s) (nwr q) (nrd q)) s []) as [s2 H2]; try done.
    { apply chans_moved. }
    { simpl. by rewrite app_nil_r. }
    eexists _, _. split; [exact H1|].
    split; [unfold queue; by rewrite chans_moved|].
    split; [exact H2|].
    unfold queue. by rewrite chans_moved.
Qed.

End Objects.

Lemma object_round_trip_witness :
  exists w1 w2,
    send bytes id_dumps 1%nat (bs "object") w_pipe = (Ret tt, w1) /\
    queue w1 0%nat = Some (frame (bs "object")) /\
    recv bytes id_loads 0%nat w1 = (Ret (bs "object"), w2) /\
    queue w2 0%nat = Some [].
Proof.
  apply (object_round_trip bytes id_dumps id_loads w_pipe 1%nat 0%nat
           (Conn (Some 1) false true) (Conn (Some 0) true false) 1 0
           (FDesc None (Some 0%nat)) (FDesc (Some 0%nat) None) 0%nat (Chan [] 1 1)
           (bs "object"));
    [ by_evaluation | reflexivity | reflexivity
    | by_evaluation | reflexivity | reflexivity
    | vm_compute; reflexivity | reflexivity | simpl; lia | simpl; lia ].
Defined.

(** ** Declared lengths *)

(** X8. A header that declares a negative length is no error: [recv_bytes]
    answers the empty message, with or without a maximum length, and
    takes the four bytes of the header only; what follows them is read as
    the next header. *)
Theorem negative_length_header w self c h d ch q header rest size maxlength :
  open_on w self c h d -> _readable c = true ->
  rd d = Some ch -> chans w !! ch = Some q ->
  data q = header ++ rest -> length header = 4%nat ->
  struct_unpack_i header = inr size -> size < 0 ->
  match maxlength with Some m => 0 <= m | None => True end ->
  exists s', recv_bytes self maxlength w = (Ret [], moved w ch q rest s').
Proof.
  intros Ho Hread Hrd Hq Hdata Hl Hu Hneg Hm. pose proof Ho as (Hc & Hh & Hd).
  destruct (_recv_ok self c h d ch w q header rest 4 Ho Hrd Hq Hdata) as [s1 H1];
    [by rewrite Hl|].
  assert (_recv_bytes self maxlength w = (Ret (Some []), moved w ch q rest s1)) as Hrecv.
  { unfold _recv_bytes.
    rewrite (bind_ret_eq _ _ _ _ _ H1). rewrite Hu. unfold lift. rewrite bind_ret_l.
    assert (match maxlength with Some m => size >? m | None => false end = false) as ->.
    { destruct maxlength as [m|]; [|done]. by destruct (Z.gtb_spec size m); [lia|]. }
    erewrite bind_ret_eq; [reflexivity|].
    rewrite (_recv_unfold self c size (moved w ch q rest s1) Hc).
    by rewrite _recv_loop_done by lia. }
  exists s1. unfold recv_bytes.
  rewrite (bind_ret_eq _ _ _ _ _ (_check_closed_ok _ _ _ _ Hc Hh)).
  rewrite (bind_ret_eq _ _ _ _ _ (_check_readable_ok _ _ _ Hc Hread)).
  assert (match maxlength with Some m => m <? 0 | None => false end = false) as ->.
  { destruct maxlength as [m|]; [|done]. by destruct (Z.ltb_spec m 0); [lia|]. }
  by rewrite (bind_ret_eq _ _ _ _ _ Hrecv).
Qed.

Lemma negative_length_header_witness :
  exists s',
    recv_bytes 0%nat (Some 10) (w_cut [xff; xff; xff; xff; x41]) =
      (Ret [], moved (w_cut [xff; xff; xff; xff; x41]) 0%nat
                 (Chan [xff; xff; xff; xff; x41] 0 1) [x41] s').
Proof.
  apply (negative_length_header (w_cut [xff; xff; xff; xff; x41]) 0%nat
           (Conn (Some 0) true false) 0 (FDesc (Some 0%nat) None) 0%nat
           (Chan [xff; xff; xff; xff; x41] 0 1) [xff; xff; xff; xff] [x41] (0 - 1)
           (Some 10));
    [ by_evaluation | reflexivity | reflexivity | vm_compute; reflexivity
    | reflexivity | reflexivity | vm_compute; reflexivity | lia | lia ].
Defined.

(** ** After a message that was too long *)

Lemma recv_bytes_write_only w self c h maxlength :
  heap w !! self = Some (ConnObj c) -> _handle c = Some h -> _readable c = false ->
  recv_bytes self maxlength w = (Raise (OSError "connection is write-only"), w).
Proof.
  intros Hc Hh Hr. unfold recv_bytes.
  rewrite (bind_ret_eq _ _ _ _ _ (_check_closed_ok _ _ _ _ Hc Hh)).
  by rewrite (bind_raise_eq _ _ _ _ _ (_check_readable_raises _ _ _ Hc Hr)).
Qed.

Lemma poll_write_only w self c h timeout :
  heap w !! self = Some (ConnObj c) -> _handle c = Some h -> _readable c = false ->
  poll self timeout w = (Raise (OSError "connection is write-only"), w).
Proof.
  intros Hc Hh Hr. unfold poll.
  rewrite (bind_ret_eq _ _ _ _ _ (_check_closed_ok _ _ _ _ Hc Hh)).
  by rewrite (bind_raise_eq _ _ _ _ _ (_check_readable_raises _ _ _ Hc Hr)).
Qed.

(** The world a read-write connection is left in by a message longer
    than the maximum. *)
Lemma duplex_rejected_world w self h ci co qi qo header rest size m :
  duplex w self h ci co qi qo ->
  data qi = header ++ rest -> length header = 4%nat ->
  struct_unpack_i header = inr size -> 0 <= m < size ->
  exists s',
    recv_bytes self (Some m) w =
      (Raise (OSError "bad message length"),
       set_heap (<[self := ConnObj (Conn (Some h) false true)]> (heap w))
                (moved w ci qi rest s')).
Proof.
  intros (Ho & Hne & Hqi & Hqo & Hr) Hdata Hl Hu Hm. pose proof Ho as (Hc & Hh & Hd).
  destruct (_recv_bytes_too_long self _ h _ ci w qi header rest size m Ho eq_refl Hqi Hdata Hl Hu)
    as [s1 H1]; [lia|].
  exists s1. unfold recv_bytes.
  rewrite (bind_ret_eq _ _ _ _ _ (_check_closed_ok _ _ _ _ Hc Hh)).
  rewrite (bind_ret_eq _ _ _ _ _ (_check_readable_ok _ _ _ Hc eq_refl)).
  destruct (Z.ltb_spec m 0); [lia|].
  rewrite (bind_ret_eq _ _ _ _ _ H1).
  unfold _bad_message_length.
  erewrite bind_ret_eq; [|apply get_conn_eq; exact Hc]. simpl.
  unfold set_readable.
  erewrite (bind_ret_eq (bind _ _)).
  2:{ erewrite bind_ret_eq; [|apply get_conn_eq; exact Hc]. reflexivity. }
  reflexivity.
Qed.

(** X9. A read-write connection that has refused a message longer than
    the maximum has taken the header and left the body in the channel;
    from then on every [recv_bytes] and [poll] on it is refused as on a
    write-only connection, and [send_bytes] works as before. *)
Theorem reading_disabled_after_bad_length w self h ci co qi qo header rest size m :
  duplex w self h ci co qi qo ->
  data qi = header ++ rest -> length header = 4%nat ->
  struct_unpack_i header = inr size -> 0 <= m < size ->
  exists w',
    recv_bytes self (Some m) w = (Raise (OSError "bad message length"), w') /\
    queue w' ci = Some rest /\
    (forall maxlength,
       recv_bytes self maxlength w' = (Raise (OSError "connection is write-only"), w')) /\
    (forall timeout,
       poll self timeout w' = (Raise (OSError "connection is write-only"), w')) /\
    (forall payload,
       Z.of_nat (length payload) <= 2147483647 ->
       exists w'',
         send_bytes self (of_bytes payload) 0 None w' = (Ret tt, w'') /\
         queue w'' co = Some (data qo ++ frame payload)).
Proof.
  intros Hdup Hdata Hl Hu Hm.
  destruct (duplex_rejected_world w self h ci co qi qo header rest size m) as [s1 H1];
    try done.
  destruct Hdup as ((Hc & Hh & Hd) & Hne & Hqi & Hqo & Hr).
  set (w' := set_heap _ _) in H1.
  assert (Hc' : heap w' !! self = Some (ConnObj (Conn (Some h) false true))).
  { subst w'. simpl. apply lookup_insert_eq. }
  assert (Hco : chans w' !! co = Some qo).
  { subst w'. unfold moved. simpl. by rewrite lookup_insert_ne. }
  exists w'. split; [exact H1|].
  split; [subst w'; unfold queue, moved; simpl; by rewrite lookup_insert_eq|].
  split; [intros; by eapply recv_bytes_write_only|].
  split; [intros; by eapply poll_write_only|].
  intros payload Hn.
  destruct (send_bytes_ok w' self (Conn (Some h) false true) h
              (FDesc (Some ci) (Some co)) co qo payload) as [s2 H2]; try done.
  eexists. split; [exact H2|].
  unfold queue. by rewrite chans_moved.
Qed.

Lemma reading_disabled_after_bad_length_witness :
  exists w',
    recv_bytes 0%nat (Some 4) w_pair_hello = (Raise (OSError "bad message length"), w') /\
    queue w' 1%nat = Some (bs "hello") /\
    (forall maxlength,
       recv_bytes 0%nat maxlength w' = (Raise (OSError "connection is write-only"), w')) /\
    (forall timeout,
       poll 0%nat timeout w' = (Raise (OSError "connection is write-only"), w')) /\
    (forall payload,
       Z.of_nat (length payload) <= 2147483647 ->
       exists w'',
         send_bytes 0%nat (of_bytes payload) 0 None w' = (Ret tt, w'') /\
         queue w'' 0%nat = Some ([] ++ frame payload)).
Proof.
  apply (reading_disabled_after_bad_length w_pair_hello 0%nat 0 1%nat 0%nat
           (Chan (frame (bs "hello")) 1 1) (Chan [] 1 1)
           [x00; x00; x00; x05] (bs "hello") 5 4);
    [ | reflexivity | reflexivity | reflexivity | lia ].
  unfold duplex, open_on.
  repeat match goal with |- _ /\ _ => split end;
    try (vm_compute; reflexivity); discriminate.
Defined.

(** ** Waiting with and without a timeout *)

Lemma wait_loop_S fuel sel timeout deadline w :
  wait_loop (S fuel) sel timeout deadline w =
    bind (select sel timeout) (fun ready =>
      match ready with
      | _ :: _ => ret (map snd ready)
      | [] =>
          match timeout with
          | Some _ =>
              let! t := time_time in
              let timeout := deadline - t in
              if timeout <? 0 then ret (map snd ready)
              else wait_loop fuel sel (Some timeout) deadline
          | None => wait_loop fuel sel None deadline
          end
      end) w.
Proof. reflexivity. Qed.

Lemma wait_registers w objs :
  (forall l, In l objs -> is_Some (handle_of w l)) ->
  NoDup (map (handle_of w) objs) ->
  register_all [] objs w = (Ret (map (key_of w) objs), w) /\
  Forall (fun l => is_Some (handle_of w l)) objs.
Proof.
  intros Hopen Hnd. split.
  - apply (register_all_ok w objs []); [|done].
    intros l Hl. destruct (Hopen l Hl) as [h Hh]. exists h. split; [done | by intros []].
  - apply Forall_forall. intros l Hl. apply Hopen. by apply list_elem_of_In.
Qed.

Lemma select_sleep sel t w :
  List.filter (fun k => fd_ready w (fst k)) sel = [] -> 0 < t ->
  select sel (Some t) w = (Ret [], set_clock (now w + t) (ticks w) w).
Proof.
  intros H Ht. unfold select. rewrite H.
  destruct (Z.leb_spec t 0); [lia | done].
Qed.

Lemma select_block sel w :
  List.filter (fun k => fd_ready w (fst k)) sel = [] ->
  select sel None w = (Block, w).
Proof. intros H. unfold select. by rewrite H. Qed.

(** [wait_loop_idle], with the clock. *)
Lemma wait_loop_idle_clock sel deadline fuel :
  forall w timeout,
    List.filter (fun k => fd_ready w (fst k)) sel = [] ->
    timeout <= 0 -> deadline <= now w ->
    (length (ticks w) < fuel)%nat ->
    exists w', wait_loop fuel sel (Some timeout) deadline w = (Ret [], w') /\
               same_io w w' /\ now w <= now w'.
Proof.
  induction fuel as [|fuel IH]; intros w timeout Hidle Ht Hd Hfuel; [lia|].
  rewrite wait_loop_S. rewrite (bind_ret_eq _ _ _ _ _ (select_poll _ _ _ Hidle Ht)).
  destruct (time_time_same w) as (t0 & w1 & Ht0 & Hs & Hnow & Hle & Hprog).
  rewrite (bind_ret_eq _ _ _ _ _ Ht0). cbv zeta.
  destruct (Z.ltb_spec (deadline - t0) 0).
  - eexists. split; [reflexivity|]. split; [done | lia].
  - destruct (IH w1 (deadline - t0)) as (w' & Hw' & Hs' & Hn').
    + erewrite List.filter_ext; [exact Hidle|]. intros a. by apply fd_ready_same.
    + lia.
    + lia.
    + lia.
    + exists w'. split; [exact Hw'|].
      split; [eapply same_io_trans; [exact Hs | exact Hs'] | lia].
Qed.

(** With nothing ready, the loop of [wait] returns the empty list once
    the timeout has passed. *)
Lemma wait_loop_timeout sel deadline fuel w t :
  List.filter (fun k => fd_ready w (fst k)) sel = [] ->
  deadline <= now w + Z.max 0 t ->
  (length (ticks w) < fuel)%nat ->
  exists w', wait_loop (S fuel) sel (Some t) deadline w = (Ret [], w') /\
             same_io w w' /\ now w + Z.max 0 t <= now w'.
Proof.
  intros Hidle Hd Hfuel. rewrite wait_loop_S.
  destruct (Z.leb_spec t 0) as [Ht|Ht].
  - rewrite (bind_ret_eq _ _ _ _ _ (select_poll _ _ _ Hidle Ht)).
    destruct (time_time_same w) as (t0 & w1 & Ht0 & Hs & Hnow & Hle & Hprog).
    rewrite (bind_ret_eq _ _ _ _ _ Ht0). cbv zeta.
    destruct (Z.ltb_spec (deadline - t0) 0).
    + eexists. split; [reflexivity|]. split; [done | lia].
    + destruct (wait_loop_idle_clock sel deadline fuel w1 (deadline - t0))
        as (w' & Hw' & Hs' & Hn'); try lia.
      { erewrite List.filter_ext; [exact Hidle|]. intros a. by apply fd_ready_same. }
      exists w'. split; [exact Hw'|].
      split; [eapply same_io_trans; [exact Hs | exact Hs'] | lia].
  - rewrite (bind_ret_eq _ _ _ _ _ (select_sleep _ _ _ Hidle Ht)).
    set (w0 := set_clock (now w + t) (ticks w) w).
    assert (Hs0 : same_io w w0) by done.
    destruct (time_time_same w0) as (t0 & w1 & Ht0 & Hs & Hnow & Hle & Hprog).
    rewrite (bind_ret_eq _ _ _ _ _ Ht0). cbv zeta.
    simpl in Hle, Hprog.
    assert (Hs1 : same_io w w1) by (eapply same_io_trans; [exact Hs0 | exact Hs]).
    destruct (Z.ltb_spec (deadline - t0) 0).
    + eexists. split; [reflexivity|]. split; [done | lia].
    + destruct (wait_loop_idle_clock sel deadline fuel w1 (deadline - t0))
        as (w' & Hw' & Hs' & Hn'); try lia.
      { erewrite List.filter_ext; [exact Hidle|]. intros a. by apply fd_ready_same. }
      exists w'. split; [exact Hw'|].
      split; [eapply same_io_trans; [exact Hs1 | exact Hs'] | lia].
Qed.

Lemma ready_keys_nil w w' objs :
  same_io w w' ->
  Forall (fun l => is_Some (handle_of w l)) objs ->
  List.filter (conn_ready w) objs = [] ->
  List.filter (fun k => fd_ready w' (fst k)) (map (key_of w) objs) = [].
Proof.
  intros Hs Hall Hnil. pose proof (ready_keys w w' objs Hs Hall) as Hk.
  rewrite Hnil in Hk. by apply map_eq_nil in Hk.
Qed.

(** When a connection of the list is ready, [wait] returns the ready
    ones, whatever the timeout. *)
Lemma wait_ready_any w objs timeout :
  (forall l, In l objs -> is_Some (handle_of w l)) ->
  NoDup (map (handle_of w) objs) ->
  List.filter (conn_ready w) objs <> [] ->
  exists w',
    wait objs timeout w = (Ret (List.filter (conn_ready w) objs), w') /\ same_io w w'.
Proof.
  intros Hopen Hnd Hready.
  destruct (wait_registers w objs Hopen Hnd) as [Hreg Hall].
  assert (Hstep : forall w1 fuel deadline,
            same_io w w1 ->
            wait_loop (S fuel) (map (key_of w) objs) timeout deadline w1 =
              (Ret (List.filter (conn_ready w) objs), w1)).
  { intros w1 fuel deadline Hs.
    pose proof (ready_keys w w1 objs Hs Hall) as Hkeys.
    destruct (List.filter (fun k => fd_ready w1 (fst k)) (map (key_of w) objs))
      as [|k ks] eqn:Hf; [by rewrite <- Hkeys in Hready|].
    rewrite wait_loop_S, (bind_ret_eq _ _ _ _ _ (select_ready _ _ _ _ _ Hf)).
    by rewrite <- Hkeys. }
  destruct timeout as [t|].
  - destruct (time_time_same w) as (t0 & w1 & Ht & Hs & _).
    rewrite (wait_unfold_some _ _ _ _ _ _ Hreg Ht). exists w1. by rewrite Hstep.
  - rewrite (wait_unfold_none _ _ _ Hreg). exists w. by rewrite Hstep.
Qed.

(** When none is ready, [wait] without a timeout does not return. *)
Lemma wait_idle_none w objs :
  (forall l, In l objs -> is_Some (handle_of w l)) ->
  NoDup (map (handle_of w) objs) ->
  List.filter (conn_ready w) objs = [] ->
  wait objs None w = (Block, w).
Proof.
  intros Hopen Hnd Hidle.
  destruct (wait_registers w objs Hopen Hnd) as [Hreg Hall].
  rewrite (wait_unfold_none _ _ _ Hreg), wait_loop_S.
  unfold bind. by rewrite select_block by (by apply ready_keys_nil).
Qed.

(** When none is ready, [wait] with a timeout returns the empty list
    when the timeout has passed. *)
Lemma wait_idle_some w objs t :
  (forall l, In l objs -> is_Some (handle_of w l)) ->
  NoDup (map (handle_of w) objs) ->
  List.filter (conn_ready w) objs = [] ->
  exists w',
    wait objs (Some t) w = (Ret [], w') /\ same_io w w' /\ now w + Z.max 0 t <= now w'.
Proof.
  intros Hopen Hnd Hidle.
  destruct (wait_registers w objs Hopen Hnd) as [Hreg Hall].
  destruct (time_time_same w) as (t0 & w1 & Ht & Hs & Hnow & Hle & _).
  rewrite (wait_unfold_some _ _ _ _ _ _ Hreg Ht).
  destruct (wait_loop_timeout (map (key_of w) objs) (t0 + t) (S (length (ticks w1))) w1 t)
    as (w' & Hw' & Hs' & Hn'); [by apply ready_keys_nil | lia | lia |].
  exists w'. split; [exact Hw'|].
  split; [eapply same_io_trans; [exact Hs | exact Hs'] | lia].
Qed.



(** Readiness of a connection that reads a channel: bytes are queued, or
    no writer is left. *)
Lemma conn_ready_read w self c h d ch q :
  open_on w self c h d -> rd d = Some ch -> chans w !! ch = Some q ->
  conn_ready w self = match data q with [] => (nwr q =? 0)%nat | _ => true end.
Proof.
  intros (Hc & Hh & Hd) Hrd Hq.
  unfold conn_ready, handle_of, fd_ready. by rewrite Hc, Hh, Hd, Hrd, Hq.
Qed.

Lemma poll_unfold w self c h timeout :
  heap w !! self = Some (ConnObj c) -> _handle c = Some h -> _readable c = true ->
  poll self timeout w =
    bind (wait [self] timeout) (fun r => ret (match r with [] => false | _ => true end)) w.
Proof.
  intros Hc Hh Hr. unfold poll.
  rewrite (bind_ret_eq _ _ _ _ _ (_check_closed_ok _ _ _ _ Hc Hh)).
  by rewrite (bind_ret_eq _ _ _ _ _ (_check_readable_ok _ _ _ Hc Hr)).
Qed.



(** ** Client *)

(** X12. [Client] refuses the family [AF_PIPE], given or read off the
    address, before it opens anything: the call of [PipeClient], which
    the module does not define, is never reached. *)
Theorem Client_refuses_pipes
        (hmac_md5 : bytes -> bytes -> bytes) (has_AF_UNIX : bool)
        a family authkey w :
  family_of a family = inr "AF_PIPE"%string ->
  Client hmac_md5 has_AF_UNIX a family authkey w =
    (Raise (ValueError "Family AF_PIPE is not recognized."), w).
Proof.
  intros Hf. unfold Client.
  assert (match family with
          | Some (String c f) => ret (String c f)
          | _ => lift (address_type a)
          end w = (Ret "AF_PIPE"%string, w)) as Hfam.
  { unfold family_of in Hf. destruct family as [[|c f]|].
    - by rewrite Hf.
    - assert (String c f = "AF_PIPE"%string) as -> by congruence. done.
    - by rewrite Hf. }
  by rewrite (bind_ret_eq _ _ _ _ _ Hfam).
Qed.

Lemma Client_refuses_pipes_witness :
  Client toy_mac true (StrAddr "\\.\pipe\pyc-1-0-x") None (Some key0) (w_listen None []) =
    (Raise (ValueError "Family AF_PIPE is not recognized."), w_listen None []) /\
  Client toy_mac true (TupleAddr "localhost" 6000) (Some "AF_PIPE"%string) None
         (w_listen None []) =
    (Raise (ValueError "Family AF_PIPE is not recognized."), w_listen None []).
Proof.
  split.
  - apply (Client_refuses_pipes toy_mac true (StrAddr "\\.\pipe\pyc-1-0-x") None
             (Some key0) (w_listen None [])).
    reflexivity.
  - apply (Client_refuses_pipes toy_mac true (TupleAddr "localhost" 6000)
             (Some "AF_PIPE"%string) None (w_listen None [])).
    reflexivity.
Defined.

(** X13. The [family] argument of [Client] is validated and then not
    used: the family of the socket is read off the address, so two
    families that pass the validation give the same call. *)
Theorem Client_family_unused
        (hmac_md5 : bytes -> bytes -> bytes) (has_AF_UNIX : bool)
        a f1 f2 authkey w :
  passes has_AF_UNIX f1 -> passes has_AF_UNIX f2 ->
  Client hmac_md5 has_AF_UNIX a (Some f1) authkey w =
    Client hmac_md5 has_AF_UNIX a (Some f2) authkey w.
Proof.
  assert (forall f, passes has_AF_UNIX f ->
            Client hmac_md5 has_AF_UNIX a (Some f) authkey w =
              (let! c := SocketClient has_AF_UNIX a in
               match authkey with
               | Some key => answer_challenge hmac_md5 c key >> deliver_challenge hmac_md5 c key
               | None => ret tt
               end >> ret c) w) as Hpass.
  { intros f (Hne & Hpipe & Hunix). unfold Client.
    destruct f as [|c f]; [done|]. rewrite bind_ret_l.
    unfold _validate_family.
    apply String.eqb_neq in Hpipe. rewrite Hpipe.
    destruct (String.eqb_spec (String c f) "AF_UNIX") as [E|E].
    - rewrite (Hunix E). simpl. by rewrite bind_ret_l.
    - simpl. by rewrite bind_ret_l. }
  intros H1 H2. by rewrite !Hpass.
Qed.

Lemma Client_family_unused_witness :
  Client toy_mac true (TupleAddr "localhost" 6000) (Some "AF_UNIX"%string) None
         (w_listen None []) =
    Client toy_mac true (TupleAddr "localhost" 6000) (Some "AF_INET"%string) None
           (w_listen None []).
Proof.
  apply (Client_family_unused toy_mac true (TupleAddr "localhost" 6000)
           "AF_UNIX"%string "AF_INET"%string None (w_listen None []));
    (split; [discriminate | split; [discriminate | reflexivity]]).
Defined.

(** X14. When the handshake of [Client] fails, the error is raised and
    the new connection object is not closed: its descriptor stays open
    and is not released. *)
Theorem Client_failure_leaves_open
        (hmac_md5 : bytes -> bytes -> bytes) (has_AF_UNIX : bool)
        key w host port ci co qi qo :
  servers w (TupleAddr host port) = Some (FDesc (Some ci) (Some co)) ->
  ci <> co -> chans w !! ci = Some qi -> chans w !! co = Some qo -> nrd qo <> 0%nat ->
  (forall k m, length (hmac_md5 k m) = 16%nat) ->
  let nonce := map (entropy w) (seq (epos w) MESSAGE_LENGTH) in
  (forall message verdict rest,
     data qi = frame (CHALLENGE ++ message) ++ frame verdict ++ rest ->
     Z.of_nat (length (CHALLENGE ++ message)) <= 256 ->
     Z.of_nat (length verdict) <= 256 ->
     verdict <> WELCOME ->
     exists c fd w',
       Client hmac_md5 has_AF_UNIX (TupleAddr host port) None (Some key) w =
         (Raise (AuthenticationError "digest sent was rejected"), w') /\
       left_open w w' c fd) /\
  (forall message reply rest,
     data qi = frame (CHALLENGE ++ message) ++ frame WELCOME ++ frame reply ++ rest ->
     Z.of_nat (length (CHALLENGE ++ message)) <= 256 ->
     Z.of_nat (length reply) <= 256 ->
     reply <> hmac_md5 key nonce ->
     exists c fd w',
       Client hmac_md5 has_AF_UNIX (TupleAddr host port) None (Some key) w =
         (Raise (AuthenticationError "digest received was wrong"), w') /\
       left_open w w' c fd).
Proof.
  intros Hsrv Hne Hqi Hqo Hr Hmac nonce.
  destruct (Client_connect hmac_md5 has_AF_UNIX w host port _ (Some key) Hsrv)
    as (c & fd & w1 & Hacc & Hrun).
  pose proof (accepted_duplex w w1 c fd ci co qi qo Hacc Hne Hqi Hqo Hr) as Hd1.
  pose proof Hacc as (Hnew & _ & _ & _ & _ & _ & Hent & Hep).
  split.
  - intros message verdict rest Hdata Hlc Hlv Hrej.
    pose proof (answer_challenge_spec hmac_md5 key w1 c _ ci co _ _ message verdict rest
                  Hd1 Hdata Hlc Hlv ltac:(rewrite Hmac; lia)) as H.
    cbv zeta in H. rewrite bool_decide_eq_false_2 in H by done.
    destruct H as (w2 & H2 & _ & Hs2 & _).
    exists c, fd, w2. rewrite Hrun. split.
    + erewrite bind_raise_eq; [reflexivity|].
      erewrite bind_raise_eq; [reflexivity | exact H2].
    + by apply (accepted_left_open w w1 w2 c fd _ Hacc).
  - intros message reply rest Hdata Hlc Hlr Hwrong.
    pose proof (answer_challenge_spec hmac_md5 key w1 c _ ci co _ _ message WELCOME
                  (frame reply ++ rest)
                  Hd1 Hdata Hlc ltac:(simpl; lia) ltac:(rewrite Hmac; lia)) as H.
    cbv zeta in H. rewrite bool_decide_eq_true_2 in H by done.
    destruct H as (w2 & H2 & Hd2 & Hs2 & Hep2).
    pose proof Hs2 as (_ & _ & _ & _ & Hent2).
    pose proof (deliver_challenge_spec hmac_md5 key w2 c _ ci co _ _ reply rest
                  Hd2 eq_refl Hlr) as H.
    cbv zeta in H. rewrite Hent2, Hep2, Hent, Hep in H. fold nonce in H.
    rewrite bool_decide_eq_false_2 in H by done.
    destruct H as (w3 & H3 & _ & Hs3 & _).
    exists c, fd, w3. rewrite Hrun. split.
    + erewrite bind_raise_eq; [reflexivity|].
      erewrite bind_ret_eq; [exact H3 | exact H2].
    + apply (accepted_left_open w w1 w3 c fd _ Hacc).
      eapply same_objects_trans; [exact Hs2 | exact Hs3].
Qed.

Lemma Client_failure_leaves_open_witness :
  exists c fd w',
    Client toy_mac true (TupleAddr "localhost" 6000) None (Some key0)
           (w_listen None peer_rejecting_client) =
      (Raise (AuthenticationError "digest sent was rejected"), w') /\
    left_open (w_listen None peer_rejecting_client) w' c fd.
Proof.
  destruct (Client_failure_leaves_open toy_mac true key0 (w_listen None peer_rejecting_client)
              "localhost"%string 6000 0%nat 1%nat (Chan peer_rejecting_client 1 1) (Chan [] 1 1))
    as [Hrej _];
    [ reflexivity | discriminate | vm_compute; reflexivity | vm_compute; reflexivity
    | discriminate | apply toy_mac_length | ].
  apply (Hrej peer_nonce FAILURE []).
  - vm_compute. reflexivity.
  - vm_compute. discriminate.
  - vm_compute. discriminate.
  - vm_compute. discriminate.
Defined.

(** ** A message that is no challenge *)

(** X15. When the first message [answer_challenge] receives does not
    start with the challenge tag, it raises [AssertionError] with the
    message (assertions being on): it has taken that message from the
    channel, sends no digest, and leaves the connection open. *)
Theorem answer_challenge_unexpected
        (hmac_md5 : bytes -> bytes -> bytes)
        key w self h ci co qi qo message rest :
  duplex w self h ci co qi qo ->
  data qi = frame message ++ rest -> Z.of_nat (length message) <= 256 ->
  take (length CHALLENGE) message <> CHALLENGE ->
  exists w',
    answer_challenge hmac_md5 self key w = (Raise (AssertionError message), w') /\
    queue w' ci = Some rest /\ queue w' co = Some (data qo) /\
    heap w' = heap w /\ fds w' = fds w /\ released w' = released w.
Proof.
  intros Hd Hdata Hlen Htag.
  destruct (duplex_recv w self h ci co qi qo message rest 256 Hd Hdata Hlen)
    as (w' & Hrecv & Hd' & (Hheap & Hfds & Hrel & _) & _); [lia|].
  exists w'. split.
  - unfold answer_challenge. rewrite (bind_ret_eq _ _ _ _ _ Hrecv).
    unfold bytes_eqb. by rewrite bool_decide_eq_false_2.
  - destruct (duplex_queues _ _ _ _ _ _ _ Hd') as [Hi Ho]. simpl in Hi.
    by rewrite Hi, Ho.
Qed.

Lemma answer_challenge_unexpected_witness :
  exists w',
    answer_challenge toy_mac 1%nat key0 w_client_unexpected =
      (Raise (AssertionError (bs "hello")), w') /\
    queue w' 0%nat = Some (frame WELCOME) /\ queue w' 1%nat = Some [] /\
    heap w' = heap w_client_unexpected /\ fds w' = fds w_client_unexpected /\
    released w' = released w_client_unexpected.
Proof.
  apply (answer_challenge_unexpected toy_mac key0 w_client_unexpected
           1%nat 4 0%nat 1%nat (Chan peer_unexpected 1 1) (Chan [] 1 1)
           (bs "hello") (frame WELCOME));
    [ | reflexivity | simpl; lia | vm_compute; discriminate ].
  unfold duplex, open_on.
  repeat match goal with |- _ /\ _ => split end;
    try (vm_compute; reflexivity); discriminate.
Defined.

(** ** Two-way pipes *)

(** X16. [Pipe(True)] returns two new connection objects that read and
    write, on two new descriptors and two new, empty channels: each
    reads the channel the other writes, so that a message sent on
    either end is what the other end receives. *)
Theorem Pipe_duplex w :
  exists a z s1 s2 c12 c21 w',
    Pipe true w = (Ret (a, z), w') /\
    a <> z /\ s1 <> s2 /\
    heap w !! a = None /\ heap w !! z = None /\
    chans w !! c12 = None /\ chans w !! c21 = None /\
    duplex w' a s1 c21 c12 (Chan [] 1 1) (Chan [] 1 1) /\
    duplex w' z s2 c12 c21 (Chan [] 1 1) (Chan [] 1 1) /\
    forall payload,
      Z.of_nat (length payload) <= 2147483647 ->
      (exists w1 w2,
         send_bytes a (of_bytes payload) 0 None w' = (Ret tt, w1) /\
         recv_bytes z None w1 = (Ret payload, w2)) /\
      (exists w1 w2,
         send_bytes z (of_bytes payload) 0 None w' = (Ret tt, w1) /\
         recv_bytes a None w1 = (Ret payload, w2)).
Proof.
  unfold Pipe.
  set (c12 := free_chan w).
  set (w0 := set_chans (<[c12 := Chan [] 1 1]> (chans w)) w).
  set (c21 := free_chan w0). set (s1 := free_fd w0).
  set (w1 := set_chans (<[c21 := Chan [] 1 1]> (chans w0))
               (set_fds (<[s1 := FDesc (Some c21) (Some c12)]> (fds w0)) w0)).
  set (s2 := free_fd w1).
  set (w2 := set_fds (<[s2 := FDesc (Some c12) (Some c21)]> (fds w1)) w1).
  assert (Hp : socketpair w = (Ret (Z.of_nat s1, Z.of_nat s2), w2)) by reflexivity.
  rewrite (bind_ret_eq _ _ _ _ _ Hp).
  rewrite (bind_ret_eq _ _ _ _ _ (Connection_ok s1 true true w2 eq_refl)).
  set (a := fresh (dom (heap w2))).
  set (w3 := set_heap _ w2).
  rewrite (bind_ret_eq _ _ _ _ _ (Connection_ok s2 true true w3 eq_refl)).
  set (z := fresh (dom (heap w3))).
  set (w4 := set_heap _ w3).
  assert (Hza : z <> a) by apply fresh_insert_ne.
  assert (Hs : s2 <> s1) by apply fresh_insert_ne.
  assert (Hc : c21 <> c12) by apply fresh_insert_ne.
  assert (Ha : heap w !! a = None) by apply fresh_lookup.
  assert (Hz : heap w !! z = None).
  { pose proof (fresh_lookup (heap w3)) as H. fold z in H. simpl in H.
    by rewrite lookup_insert_ne in H. }
  assert (H12 : chans w !! c12 = None) by apply fresh_lookup.
  assert (H21 : chans w !! c21 = None).
  { pose proof (fresh_lookup (chans w0)) as H. fold (free_chan w0) in H. fold c21 in H.
    simpl in H. by rewrite lookup_insert_ne in H. }
  assert (Hda : duplex w4 a (Z.of_nat s1) c21 c12 (Chan [] 1 1) (Chan [] 1 1)).
  { unfold duplex, open_on. rewrite lookup_fd_of_nat. simpl.
    repeat match goal with |- _ /\ _ => split end; try done.
    - rewrite lookup_insert_ne by done. apply lookup_insert_eq.
    - rewrite lookup_insert_ne by done. apply lookup_insert_eq.
    - apply lookup_insert_eq.
    - rewrite lookup_insert_ne by done. apply lookup_insert_eq. }
  assert (Hdz : duplex w4 z (Z.of_nat s2) c12 c21 (Chan [] 1 1) (Chan [] 1 1)).
  { unfold duplex, open_on. rewrite lookup_fd_of_nat. simpl.
    repeat match goal with |- _ /\ _ => split end; try done.
    - apply lookup_insert_eq.
    - apply lookup_insert_eq.
    - rewrite lookup_insert_ne by done. apply lookup_insert_eq.
    - apply lookup_insert_eq. }
  exists a, z, (Z.of_nat s1), (Z.of_nat s2), c12, c21, w4.
  split; [reflexivity|].
  split; [done|]. split; [lia|].
  do 4 (split; [done|]). split; [exact Hda|]. split; [exact Hdz|].
  intros payload Hn.
  destruct Hda as (Hoa & _ & Hia & Hqa & Hra).
  destruct Hdz as (Hoz & _ & Hiz & Hqz & Hrz).
  split.
  - destruct (send_bytes_ok w4 a _ _ _ c12 _ payload Hoa eq_refl eq_refl Hqa Hra Hn)
      as [t1 H1].
    destruct (recv_bytes_None_ok (moved w4 c12 (Chan [] 1 1) ([] ++ frame payload) t1)
                z _ _ _ c12 (Chan (frame payload) 1 1) payload [] Hoz eq_refl eq_refl)
      as [t2 H2]; [apply chans_moved | simpl; by rewrite app_nil_r | done |].
    eexists _, _. split; [exact H1 | exact H2].
  - destruct (send_bytes_ok w4 z _ _ _ c21 _ payload Hoz eq_refl eq_refl Hqz Hrz Hn)
      as [t1 H1].
    destruct (recv_bytes_None_ok (moved w4 c21 (Chan [] 1 1) ([] ++ frame payload) t1)
                a _ _ _ c21 (Chan (frame payload) 1 1) payload [] Hoa eq_refl eq_refl)
      as [t2 H2]; [apply chans_moved | simpl; by rewrite app_nil_r | done |].
    eexists _, _. split; [exact H1 | exact H2].
Qed.

(** ** Closing the sending end *)

(** The world [close] leaves. *)
Lemma close_exact w self c h d :
  open_on w self c h d ->
  close self w =
    (Ret tt,
     set_heap (<[self := ConnObj (Conn None (_readable c) (_writable c))]> (heap w))
       (set_released (h :: released w)
          (set_chans (detach_end drop_writer (wr d) (detach_end drop_reader (rd d) (chans w)))
             (set_fds (delete (Z.to_nat h) (fds w)) w)))).
Proof.
  intros (Hc & Hh & Hd). unfold close.
  rewrite (bind_ret_eq _ _ _ _ _ (get_conn_eq _ _ _ Hc)), Hh.
  unfold try_finally, _close.
  rewrite (bind_ret_eq _ _ _ _ _ (get_conn_eq _ _ _ Hc)), Hh.
  rewrite (os_close_ok _ _ _ Hd).
  unfold set_handle.
  erewrite bind_ret_eq; [|apply get_conn_eq; simpl; exact Hc].
  reflexivity.
Qed.

(** End of file before any byte of a header. *)
Lemma recv_bytes_eof w self c h d ch q maxlength :
  open_on w self c h d -> _readable c = true ->
  rd d = Some ch -> chans w !! ch = Some q ->
  data q = [] -> nwr q = 0%nat ->
  match maxlength with Some m => 0 <= m | None => True end ->
  recv_bytes self maxlength w = (Raise EOFError, w).
Proof.
  intros Ho Hread Hrd Hq Hdata Hw Hm. pose proof Ho as (Hc & Hh & Hd).
  unfold recv_bytes.
  rewrite (bind_ret_eq _ _ _ _ _ (_check_closed_ok _ _ _ _ Hc Hh)).
  rewrite (bind_ret_eq _ _ _ _ _ (_check_readable_ok _ _ _ Hc Hread)).
  assert (match maxlength with Some m => m <? 0 | None => false end = false) as ->.
  { destruct maxlength as [m|]; [|done]. by destruct (Z.ltb_spec m 0); [lia|]. }
  erewrite bind_raise_eq; [reflexivity|].
  unfold _recv_bytes. erewrite bind_raise_eq; [reflexivity|].
  rewrite (_recv_unfold self c 4 w Hc), Hh.
  change (Z.to_nat 4) with 4%nat.
  by rewrite (_recv_loop_eof_now h d ch 4 3 4 [] w q).
Qed.

(** X17. What was sent before the sending end was closed is still
    received, on a pipe and on a socket pair whose sending end has no
    unread input when it is closed (and so the receiving end nothing
    unread of what it wrote): after [send_bytes] and [close] on the only
    writing end of a channel, [recv_bytes] on the reading end returns
    the message, and only the [recv_bytes] after that raises
    [EOFError], which changes nothing. *)
Theorem sent_before_close_is_received w tx rx ctx crx htx hrx dtx drx ch q payload :
  open_on w tx ctx htx dtx -> _writable ctx = true ->
  wr dtx = Some ch -> rd dtx <> Some ch ->
  open_on w rx crx hrx drx -> _readable crx = true -> rd drx = Some ch ->
  chans w !! ch = Some q -> data q = [] -> nwr q = 1%nat -> nrd q <> 0%nat ->
  nothing_unread w (rd dtx) -> nothing_unread w (wr drx) ->
  Z.of_nat (length payload) <= 2147483647 ->
  exists w1 w2 w3,
    send_bytes tx (of_bytes payload) 0 None w = (Ret tt, w1) /\
    close tx w1 = (Ret tt, w2) /\
    recv_bytes rx None w2 = (Ret payload, w3) /\
    forall maxlength,
      match maxlength with Some m => 0 <= m | None => True end ->
      recv_bytes rx maxlength w3 = (Raise EOFError, w3).
Proof.
  intros Htx Hwr Hw Hnr Hrx Hread Hrd Hq Hdata Hnw Hr _ _ Hn.
  destruct (send_bytes_ok w tx ctx htx dtx ch q payload Htx Hwr Hw Hq Hr Hn) as [s1 H1].
  rewrite Hdata in H1. simpl in H1.
  set (w1 := moved w ch q (frame payload) s1) in *.
  pose proof (close_exact w1 tx ctx htx dtx Htx) as H2.
  set (w2 := set_heap _ _) in H2.
  pose proof Htx as (Hct & Hht & Hdt). pose proof Hrx as (Hcr & Hhr & Hdr).
  assert (Hh : htx <> hrx).
  { intros E. rewrite E, Hdr in Hdt. injection Hdt as <-. by rewrite Hrd in Hnr. }
  assert (Hl : tx <> rx).
  { intros E. rewrite E, Hcr in Hct. injection Hct as <-. congruence. }
  assert (Hrx2 : open_on w2 rx crx hrx drx).
  { unfold open_on. subst w2. simpl. rewrite lookup_insert_ne by done.
    split; [done|]. split; [done|].
    unfold lookup_fd in *. simpl.
    destruct (Z.ltb_spec hrx 0); [done|]. destruct (Z.ltb_spec htx 0); [done|].
    rewrite lookup_delete_ne by lia. done. }
  assert (Hq2 : chans w2 !! ch = Some (Chan (frame payload) 0 (nrd q))).
  { subst w2. simpl. rewrite Hw. simpl.
    assert (detach_end drop_reader (rd dtx) (chans w1) !! ch =
              Some (Chan (frame payload) (nwr q) (nrd q))) as Hd1.
    { destruct (rd dtx) as [ci|] eqn:Hci; simpl.
      - rewrite lookup_alter_ne by congruence. apply (chans_moved w ch q _ s1).
      - apply (chans_moved w ch q _ s1). }
    unfold w1, moved in Hd1. simpl in Hd1.
    rewrite lookup_alter_eq, Hd1. simpl. unfold drop_writer. simpl. by rewrite Hnw. }
  destruct (recv_bytes_None_ok w2 rx crx hrx drx ch _ payload [] Hrx2 Hread Hrd Hq2)
    as [s3 H3]; [simpl; by rewrite app_nil_r | done |].
  exists w1, w2. eexists. split; [exact H1|]. split; [exact H2|]. split; [exact H3|].
  intros maxlength Hm.
  apply (recv_bytes_eof _ rx crx hrx drx ch (Chan [] 0 (nrd q))); try done.
  exact (chans_moved w2 ch (Chan (frame payload) 0 (nrd q)) [] s3).
Qed.

Lemma sent_before_close_is_received_witness :
  (exists w1 w2 w3,
     send_bytes 1%nat (of_bytes (bs "last words")) 0 None w_pipe = (Ret tt, w1) /\
     close 1%nat w1 = (Ret tt, w2) /\
     recv_bytes 0%nat None w2 = (Ret (bs "last words"), w3) /\
     forall maxlength,
       match maxlength with Some m => 0 <= m | None => True end ->
       recv_bytes 0%nat maxlength w3 = (Raise EOFError, w3)) /\
  (exists w1 w2 w3,
     send_bytes 1%nat (of_bytes (bs "last words")) 0 None w_pair = (Ret tt, w1) /\
     close 1%nat w1 = (Ret tt, w2) /\
     recv_bytes 0%nat None w2 = (Ret (bs "last words"), w3) /\
     forall maxlength,
       match maxlength with Some m => 0 <= m | None => True end ->
       recv_bytes 0%nat maxlength w3 = (Raise EOFError, w3)).
Proof.
  split.
  - apply (sent_before_close_is_received w_pipe 1%nat 0%nat
             (Conn (Some 1) false true) (Conn (Some 0) true false) 1 0
             (FDesc None (Some 0%nat)) (FDesc (Some 0%nat) None) 0%nat (Chan [] 1 1)
             (bs "last words"));
      [ by_evaluation | reflexivity | reflexivity | discriminate
      | by_evaluation | reflexivity | reflexivity
      | vm_compute; reflexivity | reflexivity | reflexivity | simpl; lia
      | exact I | exact I | simpl; lia ].
  - apply (sent_before_close_is_received w_pair 1%nat 0%nat
             (Conn (Some 1) true true) (Conn (Some 0) true true) 1 0
             (FDesc (Some 0%nat) (Some 1%nat)) (FDesc (Some 1%nat) (Some 0%nat))
             1%nat (Chan [] 1 1) (bs "last words"));
      [ by_evaluation | reflexivity | reflexivity | discriminate
      | by_evaluation | reflexivity | reflexivity
      | vm_compute; reflexivity | reflexivity | reflexivity | simpl; lia
      | exists (Chan [] 1 1); split; [vm_compute; reflexivity | reflexivity]
      | exists (Chan [] 1 1); split; [vm_compute; reflexivity | reflexivity]
      | simpl; lia ].
Defined.

(** ** Sending to a peer that is gone *)



(** ** A descriptor named twice *)

Lemma bind_assoc {A B C} (m : M A) (k : A -> M B) (k' : B -> M C) w :
  bind (bind m k) k' w = bind m (fun a => bind (k a) k') w.
Proof. unfold bind. by destruct (m w) as [[a|e| |] w1]. Qed.

Lemma bind_ext {A B} (m : M A) (k k' : A -> M B) w :
  (forall a w1, k a w1 = k' a w1) -> bind m k w = bind m k' w.
Proof. intros H. unfold bind. by destruct (m w) as [[a|e| |] w1]. Qed.

Lemma register_all_app xs ys :
  forall sel w,
    register_all sel (xs ++ ys) w =
      bind (register_all sel xs) (fun s => register_all s ys) w.
Proof.
  induction xs as [|x xs IH]; intros sel w.
  - simpl. by rewrite bind_ret_l.
  - change (bind (register sel x) (fun sel' => register_all sel' (xs ++ ys)) w =
            bind (bind (register sel x) (fun sel' => register_all sel' xs))
                 (fun s => register_all s ys) w).
    rewrite bind_assoc. apply bind_ext. intros a w1. apply IH.
Qed.



(** ** The serializer of the caller *)

(** X20. A [ConnectionWrapper] receives as the connection does with the
    wrapper's deserializer.  It sends as the connection does with the
    wrapper's serializer when that succeeds; when it fails, the wrapper
    raises the serializer's error before it looks at the connection,
    even a closed or read-only one. *)
Theorem ConnectionWrapper_as_connection
        (Obj : Type) (dumps : Obj -> exn + bytes) (loads : bytes -> exn + Obj) c w :
  ConnectionWrapper_recv (MkConnectionWrapper c dumps loads) w = recv Obj loads c w /\
  forall obj,
    match dumps obj with
    | inr _ =>
        ConnectionWrapper_send (MkConnectionWrapper c dumps loads) obj w =
          send Obj dumps c obj w
    | inl e =>
        ConnectionWrapper_send (MkConnectionWrapper c dumps loads) obj w = (Raise e, w)
    end.
Proof.
  split.
  - unfold ConnectionWrapper_recv, recv, recv_bytes. simpl.
    rewrite !bind_assoc. apply bind_ext. intros _ w1.
    rewrite !bind_assoc. apply bind_ext. intros _ w2.
    rewrite bind_assoc. unfold bind.
    destruct (_recv_bytes c None w2) as [[[v|]|e| |] w3] eqn:E; try done.
    apply _recv_bytes_None_some in E as [x [=]].
  - intros obj. unfold ConnectionWrapper_send, send. simpl.
    destruct (dumps obj) as [e|s]; [done|].
    unfold lift. rewrite bind_ret_l. unfold send_bytes.
    apply bind_ext. intros _ w1. apply bind_ext. intros _ w2.
    rewrite bind_ret_l.
    change (itemsize (of_bytes s) >? 1) with false. cbv iota zeta.
    change (0 <? 0) with false. cbv iota.
    destruct (Z.ltb_spec (mv_len (of_bytes s)) 0).
    { unfold mv_len, of_bytes in *. simpl in *. rewrite Z.div_1_r in *. lia. }
    by rewrite mv_slice_all.
Qed.

(** ** The address of the last peer *)

Lemma listeners_kept_refl w : listeners_kept w w.
Proof. by intros l x. Qed.

Lemma listeners_kept_trans w1 w2 w3 :
  listeners_kept w1 w2 -> listeners_kept w2 w3 -> listeners_kept w1 w3.
Proof. intros H1 H2 l x Hl. by apply H2, H1. Qed.

Lemma listeners_kept_heap w w' : heap w' = heap w -> listeners_kept w w'.
Proof. intros H l x. by rewrite H. Qed.

Lemma listeners_kept_put w w' self c c' :
  heap w !! self = Some (ConnObj c) ->
  heap w' = <[self := ConnObj c']> (heap w) -> listeners_kept w w'.
Proof.
  intros Hc Hh l x Hl. rewrite Hh.
  assert (l <> self) by congruence. by rewrite lookup_insert_ne.
Qed.

Lemma l_of_h {A} (m : M A) : keeps same_heap m -> keeps listeners_kept m.
Proof. intros H w. apply listeners_kept_heap, H. Qed.

Lemma l_of_q {A} (m : M A) : keeps quiet m -> keeps listeners_kept m.
Proof. intros H. by apply l_of_h, h_of_q. Qed.

Lemma l_bind {A B} (m : M A) (k : A -> M B) :
  keeps listeners_kept m -> (forall a, keeps listeners_kept (k a)) ->
  keeps listeners_kept (bind m k).
Proof. apply keeps_bind; first [apply listeners_kept_refl | apply listeners_kept_trans]. Qed.

Lemma l_ret {A} (a : A) : keeps listeners_kept (ret a).
Proof. apply keeps_ret, listeners_kept_refl. Qed.

Lemma l_raise {A} e : keeps listeners_kept (@raise A e).
Proof. apply keeps_raise, listeners_kept_refl. Qed.

Lemma l_wrong {A} : keeps listeners_kept (@wrong A).
Proof. apply keeps_wrong, listeners_kept_refl. Qed.

Lemma l_try_finally {A} (body : M A) (fin : M unit) :
  keeps listeners_kept body -> keeps listeners_kept fin ->
  keeps listeners_kept (try_finally body fin).
Proof.
  apply keeps_try_finally; first [apply listeners_kept_refl | apply listeners_kept_trans].
Qed.

Create HintDb listeners.
#[local] Hint Resolve l_ret l_raise l_wrong : listeners.

(** A computation put together from ones that keep the listeners. *)
Ltac listeners_auto :=
  repeat first
    [ match goal with |- keeps _ (bind _ _) => apply l_bind; [|intros ?] end
    | match goal with
      | |- keeps _ (try_finally _ _) => apply l_try_finally
      end
    | solve [auto with listeners nocore]
    | solve [apply l_of_q; auto with quiet nocore]
    | solve [apply l_of_h; auto using h_os_close]
    | case_match ].

Lemma l_put self f :
  keeps listeners_kept (let! c := get_conn self in put_conn self (f c)).
Proof.
  intros w. unfold bind, get_conn.
  destruct (heap w !! self) as [[c|l]|] eqn:Hc; simpl; try apply listeners_kept_refl.
  by eapply listeners_kept_put.
Qed.

Lemma l_set_handle self h : keeps listeners_kept (set_handle self h).
Proof. apply (l_put self (fun c => Conn h (_readable c) (_writable c))). Qed.

Lemma l_set_readable self r : keeps listeners_kept (set_readable self r).
Proof. apply (l_put self (fun c => Conn (_handle c) r (_writable c))). Qed.

#[local] Hint Resolve l_set_handle l_set_readable : listeners.

Lemma l__close self : keeps listeners_kept (_close self).
Proof. unfold _close. listeners_auto. Qed.

#[local] Hint Resolve l__close : listeners.

Lemma l_close self : keeps listeners_kept (close self).
Proof. unfold close. listeners_auto. Qed.

#[local] Hint Resolve l_close : listeners.

Lemma l__bad_message_length {A} self : keeps listeners_kept (@_bad_message_length A self).
Proof. unfold _bad_message_length. listeners_auto. Qed.

#[local] Hint Resolve l__bad_message_length : listeners.

Lemma l_recv_bytes self maxlength : keeps listeners_kept (recv_bytes self maxlength).
Proof. unfold recv_bytes. listeners_auto. Qed.

Lemma l_send_bytes self buf offset size :
  keeps listeners_kept (send_bytes self buf offset size).
Proof. apply l_of_q, q_send_bytes. Qed.

#[local] Hint Resolve l_recv_bytes l_send_bytes : listeners.

Lemma l_deliver_challenge hmac_md5 connection authkey :
  keeps listeners_kept (deliver_challenge hmac_md5 connection authkey).
Proof. unfold deliver_challenge. listeners_auto. Qed.

Lemma l_answer_challenge hmac_md5 connection authkey :
  keeps listeners_kept (answer_challenge hmac_md5 connection authkey).
Proof. unfold answer_challenge. listeners_auto. Qed.

#[local] Hint Resolve l_deliver_challenge l_answer_challenge : listeners.

(** [Listener_accept_socket], with the listener object it leaves. *)
Lemma Listener_accept_socket_peer hmac_md5 w lst sl ak d peer pend :
  heap w !! lst = Some (ListenerObj (MkListener (Some sl) ak)) ->
  0 <= _socket sl ->
  backlog w !! Z.to_nat (_socket sl) = Some ((d, peer) :: pend) ->
  exists c w1,
    heap w1 !! lst =
      Some (ListenerObj
              (MkListener
                 (Some (MkSocketListener (_socket sl) (_address sl) (_family sl) (Some peer)))
                 ak)) /\
    Listener_accept hmac_md5 lst w =
      ((if truthy ak then
          match ak with
          | Some key => deliver_challenge hmac_md5 c key >> answer_challenge hmac_md5 c key
          | None => wrong
          end
        else ret tt) >> ret c) w1.
Proof.
  intros Hl Hs Hb.
  set (fd := free_fd w).
  set (l1 := ListenerObj (MkListener
               (Some (MkSocketListener (_socket sl) (_address sl) (_family sl) (Some peer))) ak)).
  set (w0 := set_heap (<[lst := l1]> (heap w))
               (set_backlog (<[Z.to_nat (_socket sl) := pend]> (backlog w))
                  (set_fds (<[fd := d]> (fds w)) w))).
  set (c := fresh (dom (heap w0))).
  set (w1 := set_heap (<[c := ConnObj (Conn (Some (Z.of_nat fd)) true true)]> (heap w0)) w0).
  assert (Hcl : c <> lst) by apply fresh_insert_ne.
  assert (Hgl : get_listener lst w = (Ret (MkListener (Some sl) ak), w))
    by (unfold get_listener; by rewrite Hl).
  assert (Hsa : sock_accept (_socket sl) w =
                (Ret (Z.of_nat fd, peer),
                 set_backlog (<[Z.to_nat (_socket sl) := pend]> (backlog w))
                   (set_fds (<[fd := d]> (fds w)) w))).
  { unfold sock_accept. destruct (Z.ltb_spec (_socket sl) 0); [lia|]. by rewrite Hb. }
  assert (Hacc : SocketListener_accept lst w = (Ret c, w1)).
  { unfold SocketListener_accept. rewrite (bind_ret_eq _ _ _ _ _ Hgl). simpl.
    rewrite (bind_ret_eq _ _ _ _ _ Hsa).
    unfold modify. unfold bind at 1.
    by rewrite (Connection_ok fd true true _ eq_refl). }
  assert (Hl1 : heap w1 !! lst = Some l1).
  { subst w1. simpl. rewrite lookup_insert_ne by done. subst w0. simpl.
    by rewrite lookup_insert_eq. }
  assert (Hgl1 : get_listener lst w1 =
                 (Ret (MkListener
                         (Some (MkSocketListener (_socket sl) (_address sl) (_family sl)
                                                 (Some peer))) ak), w1)).
  { unfold get_listener. by rewrite Hl1. }
  exists c, w1. split; [exact Hl1|].
  unfold Listener_accept. rewrite (bind_ret_eq _ _ _ _ _ Hgl). simpl.
  rewrite (bind_ret_eq _ _ _ _ _ Hacc).
  by rewrite (bind_ret_eq _ _ _ _ _ Hgl1).
Qed.

(** X21. Once the listening socket has handed over a connection,
    [last_accepted] is the address of its peer, whether the handshake
    that follows succeeds, fails or does not return; [address] is the
    listener's own as before. *)
Theorem last_accepted_after_accept
        (hmac_md5 : bytes -> bytes -> bytes) w lst sl ak d peer pend :
  heap w !! lst = Some (ListenerObj (MkListener (Some sl) ak)) ->
  0 <= _socket sl ->
  backlog w !! Z.to_nat (_socket sl) = Some ((d, peer) :: pend) ->
  Listener_last_accepted lst w = (Ret (_last_accepted sl), w) /\
  Listener_last_accepted lst (snd (Listener_accept hmac_md5 lst w)) =
    (Ret (Some peer), snd (Listener_accept hmac_md5 lst w)) /\
  Listener_address lst (snd (Listener_accept hmac_md5 lst w)) =
    (Ret (_address sl), snd (Listener_accept hmac_md5 lst w)).
Proof.
  intros Hl Hs Hb.
  split.
  { unfold Listener_last_accepted, bind, get_listener. by rewrite Hl. }
  destruct (Listener_accept_socket_peer hmac_md5 w lst sl ak d peer pend Hl Hs Hb)
    as (c & w1 & Hl1 & Hrun).
  rewrite Hrun.
  set (m := bind _ _).
  assert (Hk : keeps listeners_kept m).
  { subst m. listeners_auto. }
  pose proof (Hk w1 lst _ Hl1) as Hl2.
  unfold Listener_last_accepted, Listener_address, bind, get_listener.
  by rewrite Hl2.
Qed.

Lemma last_accepted_after_accept_witness :
  Listener_last_accepted 0%nat (w_listen (Some key0) peer_wrong) =
    (Ret None, w_listen (Some key0) peer_wrong) /\
  Listener_last_accepted 0%nat
    (snd (Listener_accept toy_mac 0%nat (w_listen (Some key0) peer_wrong))) =
    (Ret (Some (StrAddr "@peer")),
     snd (Listener_accept toy_mac 0%nat (w_listen (Some key0) peer_wrong))) /\
  Listener_address 0%nat
    (snd (Listener_accept toy_mac 0%nat (w_listen (Some key0) peer_wrong))) =
    (Ret (StrAddr "/tmp/listener-0"),
     snd (Listener_accept toy_mac 0%nat (w_listen (Some key0) peer_wrong))).
Proof.
  apply (last_accepted_after_accept toy_mac (w_listen (Some key0) peer_wrong) 0%nat
           (MkSocketListener 3 (StrAddr "/tmp/listener-0") "AF_UNIX" None)
           (Some key0) (FDesc (Some 0%nat) (Some 1%nat)) (StrAddr "@peer") []);
    [ vm_compute; reflexivity | simpl; lia | vm_compute; reflexivity ].
Defined.

(** ** The registry of reduce functions *)

Lemma dispatch_table_new st :
  reduction.dispatch_table_get (snd (reduction.ForkingPickler st)) (fst (reduction.ForkingPickler st)) =
    fun type => (reduction._extra_reducers st ∪ reduction.copyreg st) !! type.
Proof.
  unfold reduction.dispatch_table_get, reduction.ForkingPickler. simpl.
  rewrite lookup_app_r by lia. by rewrite Nat.sub_diag.
Qed.

Lemma dispatch_table_old st q type :
  (q < length (reduction.picklers st))%nat ->
  reduction.dispatch_table_get (snd (reduction.ForkingPickler st)) q type = reduction.dispatch_table_get st q type.
Proof.
  intros Hq. unfold reduction.dispatch_table_get, reduction.ForkingPickler. simpl.
  by rewrite lookup_app_l.
Qed.

(** X22. A reduce function registered for a type is the entry for that
    type in the [dispatch_table] of every pickler created afterwards,
    whatever [copyreg] or an earlier registration holds for it; for
    other types the table of such a pickler holds what it would have
    held without the registration.  Picklers that exist already keep
    their tables, and the table of [copyreg] is not written.  (Which
    types a pickler looks up in this table is the matter of the class it
    derives from.) *)
Theorem registered_in_dispatch_table st type reduce :
  let st1 := reduction.register type reduce st in
  let p := fst (reduction.ForkingPickler st1) in
  let st2 := snd (reduction.ForkingPickler st1) in
  reduction.dispatch_table_get st2 p type = Some reduce /\
  (forall t, t <> type ->
     reduction.dispatch_table_get st2 p t =
       reduction.dispatch_table_get (snd (reduction.ForkingPickler st))
                          (fst (reduction.ForkingPickler st)) t) /\
  (forall q t, (q < length (reduction.picklers st))%nat ->
     reduction.dispatch_table_get st2 q t = reduction.dispatch_table_get st q t) /\
  reduction.copyreg st2 = reduction.copyreg st.
Proof.
  cbv zeta. split; [|split; [|split]].
  - rewrite dispatch_table_new. simpl.
    apply lookup_union_Some_l. apply lookup_insert_eq.
  - intros t Ht. rewrite !dispatch_table_new. simpl.
    rewrite !lookup_union. by rewrite lookup_insert_ne.
  - intros q t Hq. by rewrite dispatch_table_old.
  - done.
Qed.

(** X23. [AbstractReducer()] sets the reduce functions of the five
    types the module registers at import back to the module's, whatever
    was registered for them since; it touches no other type, no pickler
    and not [copyreg]; a second time changes nothing. *)
Theorem AbstractReducer_resets st :
  let st' := reduction.AbstractReducer st in
  reduction._extra_reducers st' !! reduction.MethodType = Some reduction._reduce_method /\
  reduction._extra_reducers st' !! reduction.MethodDescriptorType =
    Some reduction._reduce_method_descriptor /\
  reduction._extra_reducers st' !! reduction.WrapperDescriptorType =
    Some reduction._reduce_method_descriptor /\
  reduction._extra_reducers st' !! reduction.partial = Some reduction._reduce_partial /\
  reduction._extra_reducers st' !! reduction.socket = Some reduction._reduce_socket /\
  (forall t,
     ~ In t [reduction.MethodType; reduction.MethodDescriptorType;
             reduction.WrapperDescriptorType; reduction.partial; reduction.socket] ->
     reduction._extra_reducers st' !! t = reduction._extra_reducers st !! t) /\
  reduction.copyreg st' = reduction.copyreg st /\
  reduction.picklers st' = reduction.picklers st /\
  reduction.AbstractReducer st' = st'.
Proof.
  cbv zeta.
  unfold reduction.AbstractReducer, reduction.register, reduction.MethodType,
    reduction.MethodDescriptorType, reduction.WrapperDescriptorType, reduction.partial,
    reduction.socket.
  simpl.
  do 5 (split; [by simplify_map_eq|]).
  split; [|split; [done|split; [done|]]].
  - intros t Ht. simpl in Ht.
    rewrite !lookup_insert_ne; [done|..]; intros E; apply Ht; auto 10.
  - f_equal. apply map_eq. intros t.
    repeat match goal with
           | |- context [<[?k := _]> _ !! t] =>
               destruct (decide (k = t)) as [<-|];
               [by simplify_map_eq | rewrite (lookup_insert_ne _ k t) by done]
           end.
    done.
Qed.

(** ** Descriptors over a socket *)

Lemma item_round_trip little n rest :
  0 <= n <= 2147483647 ->
  length (reduction.item_bytes little n) = 4%nat /\
  reduction.frombytes little (reduction.item_bytes little n ++ rest) =
    n :: reduction.frombytes little rest.
Proof.
  intros Hn. destruct (struct_pack_unpack n Hn) as (h & Hp & Hl & Hu & _).
  unfold reduction.item_bytes. rewrite Hp.
  destruct h as [|b0 [|b1 [|b2 [|b3 [|]]]]]; try done.
  destruct little; simpl; unfold reduction.item_of_bytes; by rewrite Hu.
Qed.

Lemma frombytes_tobytes little a :
  Forall (fun n => 0 <= n <= 2147483647) a ->
  reduction.frombytes little (reduction.tobytes little a) = a /\
  length (reduction.tobytes little a) = (4 * length a)%nat.
Proof.
  induction 1 as [|n a Hn Ha [IH1 IH2]]; [done|].
  unfold reduction.tobytes in *. simpl.
  destruct (item_round_trip little n (concat (map (reduction.item_bytes little) a)) Hn)
    as [Hl Hf].
  rewrite Hf, IH1, length_app, Hl, IH2. split; [done | lia].
Qed.

Lemma array_i_ok fds :
  Forall (fun n => 0 <= n <= 2147483647) fds -> reduction.array_i fds = inr fds.
Proof.
  intros H. unfold reduction.array_i.
  assert (forallb reduction.in_int fds = true) as ->; [|done].
  apply forallb_forall. intros n Hin.
  rewrite Forall_forall in H. apply list_elem_of_In, H in Hin.
  unfold reduction.in_int. apply andb_true_intro. split; apply Z.leb_le; lia.
Qed.

(** X24. [recvfds] accepts what [sendfds] sent: for descriptors that
    are C ints, [sendfds] sends one byte, the number of descriptors
    modulo 256, with one item of ancillary data that holds them; and
    when that byte arrives with as many descriptors, whatever their
    numbers at the receiver, [recvfds] returns these, after the
    acknowledgement where one is due. *)
Theorem recvfds_of_sendfds ACKNOWLEDGE little fds fds' ack :
  Forall (fun n => 0 <= n <= 2147483647) fds ->
  Forall (fun n => 0 <= n <= 2147483647) fds' ->
  length fds' = length fds ->
  exists msg0,
    fst (reduction.sendfds ACKNOWLEDGE little fds ack) =
      Some ([msg0],
            [reduction.Cmsg reduction.SOL_SOCKET reduction.SCM_RIGHTS
               (reduction.tobytes little fds)]) /\
    Z_of_byte msg0 = Z.of_nat (length fds) mod 256 /\
    reduction.recvfds ACKNOWLEDGE little
      ([msg0],
       [reduction.Cmsg reduction.SOL_SOCKET reduction.SCM_RIGHTS
          (reduction.tobytes little fds')]) =
      (if ACKNOWLEDGE then ["A"%byte] else [], inr fds').
Proof.
  intros Hfds Hfds' Hlen.
  exists (byte_of_Z (Z.of_nat (length fds) mod 256)).
  assert (Hb : Z_of_byte (byte_of_Z (Z.of_nat (length fds) mod 256)) =
               Z.of_nat (length fds) mod 256).
  { rewrite Z_of_byte_of_Z, land_255_mod. apply Z.mod_mod. lia. }
  split; [|split; [exact Hb|]].
  - unfold reduction.sendfds. rewrite (array_i_ok fds Hfds). cbv zeta.
    by destruct (ACKNOWLEDGE && _).
  - destruct (frombytes_tobytes little fds' Hfds') as [Hf Hl].
    unfold reduction.recvfds.
    cbn [reduction.cmsg_level reduction.cmsg_type reduction.cmsg_data].
    rewrite !Z.eqb_refl, Hf, Hl, Hb, Hlen.
    replace ((4 * length fds) mod reduction.itemsize)%nat with 0%nat
      by (unfold reduction.itemsize; rewrite Nat.mul_comm; by rewrite Nat.Div0.mod_mul).
    by rewrite Z.eqb_refl.
Qed.

Lemma recvfds_of_sendfds_witness :
  exists msg0,
    fst (reduction.sendfds true true [3; 7] ["A"%byte]) =
      Some ([msg0],
            [reduction.Cmsg reduction.SOL_SOCKET reduction.SCM_RIGHTS
               (reduction.tobytes true [3; 7])]) /\
    Z_of_byte msg0 = Z.of_nat (length [3; 7]) mod 256 /\
    reduction.recvfds true true
      ([msg0],
       [reduction.Cmsg reduction.SOL_SOCKET reduction.SCM_RIGHTS
          (reduction.tobytes true [11; 12])]) =
      (["A"%byte], inr [11; 12]).
Proof.
  apply (recvfds_of_sendfds true true [3; 7] [11; 12] ["A"%byte]);
    [ repeat constructor; lia | repeat constructor; lia | reflexivity ].
Defined.

(** X25. How [recvfds] refuses what it received: nothing at all is the
    end of the stream, and no acknowledgement is sent; a number of
    ancillary items other than one, an item of another level or type,
    descriptors cut short, and ancillary data without the byte of the
    message are [RuntimeError]s; a count that differs from the byte of
    the message, modulo 256, is an [AssertionError], which the handler
    does not catch. *)
Theorem recvfds_rejects (ACKNOWLEDGE little : bool) :
  let sent : bytes := if ACKNOWLEDGE then ["A"%byte] else [] in
  reduction.recvfds ACKNOWLEDGE little ([], []) = ([], inl reduction.EOFError) /\
  (forall msg ancdata,
     length ancdata <> 1%nat -> (msg, ancdata) <> ([], []) ->
     reduction.recvfds ACKNOWLEDGE little (msg, ancdata) =
       (sent, inl (reduction.RuntimeError_items (length ancdata)))) /\
  (forall msg c,
     (reduction.cmsg_level c <> reduction.SOL_SOCKET \/
      reduction.cmsg_type c <> reduction.SCM_RIGHTS) ->
     reduction.recvfds ACKNOWLEDGE little (msg, [c]) =
       (sent, inl (reduction.RuntimeError "Invalid data received"))) /\
  (forall msg data,
     (length data mod 4 <> 0)%nat ->
     reduction.recvfds ACKNOWLEDGE little
       (msg, [reduction.Cmsg reduction.SOL_SOCKET reduction.SCM_RIGHTS data]) =
       (sent, inl (reduction.RuntimeError "Invalid data received"))) /\
  (forall data,
     reduction.recvfds ACKNOWLEDGE little
       ([], [reduction.Cmsg reduction.SOL_SOCKET reduction.SCM_RIGHTS data]) =
       (sent, inl (reduction.RuntimeError "Invalid data received"))) /\
  (forall msg0 rest data,
     (length data mod 4 = 0)%nat ->
     Z.of_nat (length (reduction.frombytes little data)) mod 256 <> Z_of_byte msg0 ->
     reduction.recvfds ACKNOWLEDGE little
       (msg0 :: rest, [reduction.Cmsg reduction.SOL_SOCKET reduction.SCM_RIGHTS data]) =
       (sent,
        inl (reduction.AssertionError (length (reduction.frombytes little data)) msg0))).
Proof.
  cbv zeta. split; [done|].
  split.
  { intros msg ancdata Hn Hne. unfold reduction.recvfds.
    destruct msg as [|m0 msg]; destruct ancdata as [|c [|c' anc]]; try done. }
  split.
  { intros msg c Hc. unfold reduction.recvfds.
    assert ((reduction.cmsg_level c =? reduction.SOL_SOCKET) &&
            (reduction.cmsg_type c =? reduction.SCM_RIGHTS) = false) as Hno.
    { apply andb_false_iff. destruct Hc as [Hc|Hc]; [left | right]; by apply Z.eqb_neq. }
    destruct msg; by rewrite Hno. }
  split.
  { intros msg data Hd. unfold reduction.recvfds, reduction.itemsize.
    cbn [reduction.cmsg_level reduction.cmsg_type reduction.cmsg_data].
    apply Nat.eqb_neq in Hd. rewrite !Z.eqb_refl, Hd.
    by destruct msg. }
  split.
  { intros data. unfold reduction.recvfds.
    cbn [reduction.cmsg_level reduction.cmsg_type reduction.cmsg_data].
    rewrite !Z.eqb_refl. cbn [andb].
    by destruct (negb _). }
  intros msg0 rest data Hd Hne. unfold reduction.recvfds, reduction.itemsize.
  cbn [reduction.cmsg_level reduction.cmsg_type reduction.cmsg_data].
  apply Nat.eqb_eq in Hd. apply Z.eqb_neq in Hne.
  by rewrite !Z.eqb_refl, Hd, Hne.
Qed.

Lemma recvfds_rejects_witness :
  reduction.recvfds false true ([], []) = ([], inl reduction.EOFError) /\
  reduction.recvfds false true
    ([x02], [reduction.Cmsg reduction.SOL_SOCKET reduction.SCM_RIGHTS [x03; x00; x00; x00]]) =
    ([], inl (reduction.AssertionError 1 x02)) /\
  reduction.recvfds true true
    ([x01], [reduction.Cmsg reduction.SOL_SOCKET reduction.SCM_RIGHTS [x03; x00; x00]]) =
    (["A"%byte], inl (reduction.RuntimeError "Invalid data received")).
Proof.
  split; [|split].
  - apply (recvfds_rejects false true).
  - destruct (recvfds_rejects false true) as (_ & _ & _ & _ & _ & H).
    apply (H x02 [] [x03; x00; x00; x00]); [reflexivity | vm_compute; discriminate].
  - destruct (recvfds_rejects true true) as (_ & _ & _ & H & _).
    apply (H [x01] [x03; x00; x00]). vm_compute. discriminate.
Defined.
